(** * Lightweight 3D human pose estimation demo: the frame-to-visualisation
      pipeline of [lightweight-human-pose-estimation-3d.py]

    The development embeds the arithmetic and the control flow of [main] and
    of [rotate_poses].

    Conventions of the embedding.
    - Python [int] values are [Z].
    - Python [float] (IEEE double) and numpy [float32] values are rationals
      [Q].  Where a double is truncated to an integer (the input width of
      line 134, the FPS read-out of line 211) one unit in the last place
      decides the result, and every operation is rounded to the nearest
      double by [fl64].  Elsewhere (scale factor, focal length, smoothed
      time, pixel values, coordinates) the values are continuous quantities
      and are carried exactly, without the rounding of the machine formats.
    - numpy arrays are nested lists, outermost axis first.
    - The collaborators that are not part of the script (frame reader,
      inference engine, pose decoder, plotter, window system) appear through
      the values they hand back (one [iteration] record per frame, a list of
      key codes for [cv2.waitKey]) and through the [event]s that record the
      calls made to them, in program order. *)

From Stdlib Require Import ZArith QArith Qround Qfield Qpower Qabs List Bool Lia Lqa.
Import ListNotations.

Local Open Scope Z_scope.

(** ** Parameters (lines 26-36 of the script) *)

Definition IMAGE_HEIGHT : Z := 256.
Definition STRIDE : Z := 8.

(** ** Number conversions *)

(** Python's [int(x)] on a float: truncation toward zero. *)
Definition py_int (x : Q) : Z := Z.quot (Qnum x) (Z.pos (Qden x)).

(** OpenCV's [cvRound] ([saturate_cast<int>] of a double): round to the
    nearest integer, ties to the even one. *)
Definition cvRound (x : Q) : Z :=
  let f := Qfloor x in
  match Qcompare (x - inject_Z f)%Q (1 # 2) with
  | Lt => f
  | Gt => f + 1
  | Eq => if Z.even f then f else f + 1
  end.

(** ** IEEE double precision

    A finite double is a rational [m * 2^e] with an integer mantissa
    [|m| < 2^53].  Python's arithmetic on floats, the conversion of an [int]
    to a float and the true division of two [int]s all return the exact
    result rounded to the nearest double, ties to the even mantissa.  The
    exponent range of the format is not modelled: neither overflow nor
    underflow occurs on the dimensions of a frame or on a frame time. *)

(** For [x > 0], the exponent [e] with [2^e <= x < 2^(e+1)]. *)
Definition ilog2 (x : Q) : Z :=
  let e := Z.log2 (Qnum x) - Z.log2 (Z.pos (Qden x)) in
  if Qle_bool (2 ^ e) x then e else e - 1.

(** The double nearest to [x]: the mantissa [x / 2^(e-52)] lies in
    [[2^52, 2^53)] and is rounded to the nearest integer, ties to even. *)
Definition fl64 (x : Q) : Q :=
  if Qeq_bool x 0 then 0%Q
  else
    let ulp := (2 ^ (ilog2 (Qabs x) - 52))%Q in
    (inject_Z (cvRound (x / ulp)) * ulp)%Q.

(** The relative error of one rounding: half a unit in the last place. *)
Definition eps64 : Q := 1 # (2 ^ 53).

(** ** Preprocessor, on the dimensions of a frame

    A frame is seen through [frame.shape[0]] (rows) and [frame.shape[1]]
    (columns). *)

Record shape2 : Type := mkShape { shape0 : Z; shape1 : Z }.

(** The exceptions that the modelled part of the script can raise. *)
Inductive exn : Type :=
| ZeroDivisionError
| CvError
| LinAlgError
| ValueError
| PlotError.

(** Lines 133-134: the width handed to [net.set_input_shape].
    [IMAGE_HEIGHT/frame.shape[0]] is a true division of two Python ints: it
    raises when the divisor is zero and is the correctly rounded quotient
    otherwise.  The product with [frame.shape[1]] and the quotient by
    [STRIDE] are operations on doubles, their [int] operand being converted
    first ([STRIDE] is a double as it is); [int] truncates.  The double can
    fall just below an exact multiple of the stride: a frame of 784 x 784
    gives 255.99999999999997 and a width of 248. *)
Definition base_width (f : shape2) : exn + Z :=
  if shape0 f =? 0 then inl ZeroDivisionError
  else
    let scale := fl64 (inject_Z IMAGE_HEIGHT / inject_Z (shape0 f)) in
    let w := fl64 (fl64 (inject_Z (shape1 f)) * scale) in
    inr (py_int (fl64 (w / inject_Z STRIDE)) * STRIDE).

(** Line 138. *)
Definition input_scale (f : shape2) : exn + Q :=
  if shape0 f =? 0 then inl ZeroDivisionError
  else inr (inject_Z IMAGE_HEIGHT / inject_Z (shape0 f))%Q.

(** The width that a uniform scale would give, before any rounding. *)
Definition naive_width (f : shape2) : Q :=
  (inject_Z (shape1 f) * inject_Z IMAGE_HEIGHT / inject_Z (shape0 f))%Q.

(** Lines 139-141: [cv2.resize(frame, dsize=None, fx=s, fy=s)].  OpenCV
    rejects an empty source and a non-positive scale, computes the
    destination size as [(cvRound(cols*fx), cvRound(rows*fy))] and rejects
    an empty destination.  The result is the shape of [scaled_img]. *)
Definition cv_resize (f : shape2) (s : Q) : exn + shape2 :=
  if (shape0 f <=? 0) || (shape1 f <=? 0) then inl CvError
  else if Qle_bool s 0 then inl CvError
  else
    let w := cvRound (inject_Z (shape1 f) * s)%Q in
    let h := cvRound (inject_Z (shape0 f) * s)%Q in
    if (w <=? 0) || (h <=? 0) then inl CvError
    else inr (mkShape h w).

(** Lines 143-144: [scaled_img[:, 0:w - (w % STRIDE)]] keeps the rows and the
    first [w - w % STRIDE] columns. *)
Definition crop_to_stride (s : shape2) : shape2 :=
  mkShape (shape0 s) (shape1 s - shape1 s mod STRIDE).

(** Lines 138-144 together: the shape of the cropped image of a frame. *)
Definition preprocess_shape (f : shape2) : exn + shape2 :=
  match input_scale f with
  | inl e => inl e
  | inr s =>
      match cv_resize f s with
      | inl e => inl e
      | inr r => inr (crop_to_stride r)
      end
  end.


(** ** Array helpers *)

(** Exceptions are threaded with the usual bind on [exn + _]. *)
Definition bind {A B : Type} (m : exn + A) (k : A -> exn + B) : exn + B :=
  match m with
  | inl e => inl e
  | inr a => k a
  end.

Notation "'do' x <- m ; k" := (bind m (fun x => k))
  (at level 10, x name, m at level 100, k at level 200).

(** A Python [for] loop that stops at the first exception. *)
Fixpoint for_each {A B : Type} (f : A -> exn + B) (l : list A) : exn + list B :=
  match l with
  | [] => inr []
  | a :: l' =>
      do b <- f a;
      do bs <- for_each f l';
      inr (b :: bs)
  end.

(** The elementwise combination of two lists of the same length. *)
Fixpoint map2 {A B C : Type} (f : A -> B -> C) (u : list A) (v : list B) : list C :=
  match u, v with
  | a :: u', b :: v' => f a b :: map2 f u' v'
  | _, _ => []
  end.

(** [imap f l] applies [f] to every position and element of [l]. *)
Definition imap {A B : Type} (f : nat -> A -> B) (l : list A) : list B :=
  map (fun p => f (fst p) (snd p)) (combine (seq 0 (length l)) l).

(** [chunks size count l]: the [count] consecutive pieces of [size] elements
    of [l], the row-major reshape of a flat buffer to [(count, size)]. *)
Definition chunks {A : Type} (size count : nat) (l : list A) : list (list A) :=
  map (fun k => firstn size (skipn (k * size) l)) (seq 0 count).

(** [a.reshape((-1, n))] of a one-dimensional array. *)
Definition reshape_rows_of {A : Type} (n : nat) (l : list A) : exn + list (list A) :=
  if (n =? 0)%nat then inl ValueError
  else if (length l mod n =? 0)%nat then inr (chunks n (length l / n) l)
  else inl ValueError.

(** [a.reshape((n, -1))] of a one-dimensional array. *)
Definition reshape_into {A : Type} (n : nat) (l : list A) : exn + list (list A) :=
  if (n =? 0)%nat then inl ValueError
  else if (length l mod n =? 0)%nat then inr (chunks (length l / n) n l)
  else inl ValueError.

(** Column [j] of a matrix given by its rows. *)
Definition column (j : nat) (M : list (list Q)) : list Q :=
  map (fun r => nth j r 0%Q) M.

(** [M.transpose()] of a two-dimensional array with [ncols] columns. *)
Definition transpose (ncols : nat) (M : list (list Q)) : list (list Q) :=
  map (fun j => column j M) (seq 0 ncols).

Definition dotp (u v : list Q) : Q :=
  fold_right Qplus 0%Q (map2 Qmult u v).

(** [np.dot(A, B)] for two-dimensional [A] and [B], [B] with [ncols] columns. *)
Definition np_dot (A B : list (list Q)) (ncols : nat) : list (list Q) :=
  map (fun a => map (fun j => dotp a (column j B)) (seq 0 ncols)) A.

(** ** Normalisation of the cropped image (lines 118, 149-152)

    [scaled_img] is indexed [row][column][channel] and holds 8-bit samples. *)

Definition img_mean : list Q := [inject_Z 128; inject_Z 128; inject_Z 128].

Definition astype_float32 (img : list (list (list Z))) : list (list (list Q)) :=
  map (map (map inject_Z)) img.

(** [a - img_mean]: the vector is broadcast along the last axis. *)
Definition sub_mean (img : list (list (list Q))) : list (list (list Q)) :=
  map (map (fun px => map2 Qminus px img_mean)) img.

Definition div_255 (img : list (list (list Q))) : list (list (list Q)) :=
  map (map (map (fun v => v / inject_Z 255)%Q)) img.

(** [a.transpose(2, 0, 1)] of an array whose last axis has [C] entries. *)
Definition transpose_2_0_1 (C : nat) (img : list (list (list Q))) : list (list (list Q)) :=
  map (fun c => map (map (fun px => nth c px 0%Q)) img) (seq 0 C).

(** [np.expand_dims(a, axis=0)]. *)
Definition expand_dims_0 {A : Type} (a : A) : list A := [a].

Definition normalize (scaled_img : list (list (list Z))) : list (list (list (list Q))) :=
  let normalized_img := div_255 (sub_mean (astype_float32 scaled_img)) in
  expand_dims_0 (transpose_2_0_1 (length img_mean) normalized_img).

(** An array of shape [(H, W, C)]. *)
Definition has_shape3 {A : Type} (H W C : nat) (a : list (list (list A))) : Prop :=
  length a = H /\
  Forall (fun row => length row = W /\ Forall (fun px => length px = C) row) a.

(** An array of shape [(B, C, H, W)]. *)
Definition has_shape4 {A : Type} (B C H W : nat) (a : list (list (list (list A)))) : Prop :=
  length a = B /\ Forall (has_shape3 C H W) a.

(** ** Smoothed frame time (lines 207-211) *)

Definition update_mean_time (mean_time current_time : Q) : Q :=
  if Qeq_bool mean_time 0 then current_time
  else (mean_time * (95 # 100) + current_time * (5 # 100))%Q.

(** The number shown after ['FPS: '], [int(1 / mean_time * 10) / 10].  The
    division by [mean_time] raises when it is zero; the quotient and the
    product by 10 are rounded to doubles before [int] truncates; the text
    produced for the last quotient is the decimal with one digit. *)
Definition fps_text (mean_time : Q) : exn + Q :=
  if Qeq_bool mean_time 0 then inl ZeroDivisionError
  else
    let rate := fl64 (1 / mean_time) in
    inr (inject_Z (py_int (fl64 (rate * inject_Z 10))) / inject_Z 10)%Q.

(** ** Extrinsics and [rotate_poses] (lines 74-81) *)

Definition vec3 : Type := (Q * Q * Q)%type.
Definition mat3 : Type := (vec3 * vec3 * vec3)%type.

Definition vec3_list (v : vec3) : list Q :=
  let '(a, b, c) := v in [a; b; c].

Definition mat3_rows (M : mat3) : list (list Q) :=
  let '(r0, r1, r2) := M in [vec3_list r0; vec3_list r1; vec3_list r2].

Definition det3 (M : mat3) : Q :=
  let '((a, b, c), (d, e, f), (g, h, i)) := M in
  (a * (e * i - f * h) - b * (d * i - f * g) + c * (d * h - e * g))%Q.

(** [np.linalg.inv] of a 3x3 matrix: the inverse, in exact arithmetic.
    NumPy raises [LinAlgError] when the factorisation of the matrix meets a
    pivot that is exactly zero.  In exact arithmetic that is every singular
    matrix.  In doubles it is certain for a matrix with a zero row, whose
    zero row survives every elimination step unchanged; on other singular
    matrices the rounding can leave a tiny pivot and no exception. *)
Definition linalg_inv (M : mat3) : exn + mat3 :=
  let '((a, b, c), (d, e, f), (g, h, i)) := M in
  let dt := det3 M in
  if Qeq_bool dt 0 then inl LinAlgError
  else inr (((e * i - f * h) / dt, (c * h - b * i) / dt, (b * f - c * e) / dt),
            ((f * g - d * i) / dt, (a * i - c * g) / dt, (c * d - a * f) / dt),
            ((d * h - e * g) / dt, (b * g - a * h) / dt, (a * e - b * d) / dt))%Q.

Definition mat3_mul (A B : mat3) : mat3 :=
  let '((a, b, c), (d, e, f), (g, h, i)) := A in
  let '((a', b', c'), (d', e', f'), (g', h', i')) := B in
  ((a * a' + b * d' + c * g', a * b' + b * e' + c * h', a * c' + b * f' + c * i'),
   (d * a' + e * d' + f * g', d * b' + e * e' + f * h', d * c' + e * f' + f * i'),
   (g * a' + h * d' + i * g', g * b' + h * e' + i * h', g * c' + h * f' + i * i'))%Q.

Definition mat3_eq (A B : mat3) : Prop :=
  let '((a, b, c), (d, e, f), (g, h, i)) := A in
  let '((a', b', c'), (d', e', f'), (g', h', i')) := B in
  (a == a' /\ b == b' /\ c == c' /\ d == d' /\ e == e' /\ f == f' /\
   g == g' /\ h == h' /\ i == i')%Q.

Definition mat3_id : mat3 := ((1, 0, 0), (0, 1, 0), (0, 0, 1))%Q.

Definition vec3_sub (u v : vec3) : vec3 :=
  let '(a, b, c) := u in
  let '(a', b', c') := v in
  (a - a', b - b', c - c')%Q.

(** The matrix-vector product. *)
Definition mat3_apply (M : mat3) (v : vec3) : vec3 :=
  let '((a, b, c), (d, e, f), (g, h, i)) := M in
  let '(x, y, z) := v in
  (a * x + b * y + c * z, d * x + e * y + f * z, g * x + h * y + i * z)%Q.

Definition vec3_eq (u v : vec3) : Prop :=
  let '(a, b, c) := u in
  let '(a', b', c') := v in
  (a == a' /\ b == b' /\ c == c')%Q.

(** [M - t] for [M] of shape [(3, K)] and the column [t] of shape [(3, 1)]:
    [t] is broadcast along the columns. *)
Definition sub_column (M : list (list Q)) (t : vec3) : list (list Q) :=
  map2 (fun r ti => map (fun v => v - ti)%Q r) M (vec3_list t).

(** The body of the loop of [rotate_poses] on one flattened pose. *)
Definition rotate_pose (R_inv : mat3) (t : vec3) (pose : list Q) : exn + list Q :=
  do m <- reshape_rows_of 4 pose;
  let K := length m in
  let pose_3d := transpose 4 m in
  let rotated := np_dot (mat3_rows R_inv) (sub_column (firstn 3 pose_3d) t) K in
  let pose_3d := rotated ++ skipn 3 pose_3d in
  inr (concat (transpose K pose_3d)).

Definition rotate_poses (poses_3d : list (list Q)) (R : mat3) (t : vec3)
  : exn + list (list Q) :=
  do R_inv <- linalg_inv R;
  for_each (rotate_pose R_inv t) poses_3d.

(** ** Axis remap and confidence drop (lines 187-193) *)

(** [row[off::4]]. *)
Definition slice_step4 (off : nat) (row : list Q) : list Q :=
  map (fun k => nth (off + 4 * k) row 0%Q) (seq 0 ((length row + 3 - off) / 4)).

(** The buffer [row] after its positions [off], [off + 4], ... are
    overwritten with the successive elements of [vals]. *)
Definition put_step4 (off : nat) (vals row : list Q) : list Q :=
  imap (fun i v => if (i mod 4 =? off)%nat then nth (i / 4) vals v else v) row.

(** [row[off::4] = vals]; the shapes have to agree. *)
Definition assign_step4 (off : nat) (vals row : list Q) : exn + list Q :=
  if (length vals =? length (slice_step4 off row))%nat
  then inr (put_step4 off vals row)
  else inl ValueError.

(** [a[:, off::4] = vals] on a two-dimensional array. *)
Fixpoint assign_cols4 (off : nat) (vals a : list (list Q)) : exn + list (list Q) :=
  match vals, a with
  | [], [] => inr []
  | v :: vals', r :: a' =>
      do r' <- assign_step4 off v r;
      do a'' <- assign_cols4 off vals' a';
      inr (r' :: a'')
  | _, _ => inl ValueError
  end.

Definition neg (a : list (list Q)) : list (list Q) := map (map Qopp) a.

(** Lines 187-191.  The three right-hand sides are built from the copy
    before the first assignment is made. *)
Definition axis_remap (poses_3d : list (list Q)) : exn + list (list Q) :=
  let poses_3d_copy := poses_3d in
  let x := map (slice_step4 0) poses_3d_copy in
  let y := map (slice_step4 1) poses_3d_copy in
  let z := map (slice_step4 2) poses_3d_copy in
  let rhs := (neg z, x, neg y) in
  do poses_3d <- assign_cols4 0 (fst (fst rhs)) poses_3d;
  do poses_3d <- assign_cols4 1 (snd (fst rhs)) poses_3d;
  assign_cols4 2 (snd rhs) poses_3d.

(** Line 193: [poses_3d.reshape(N, 19, -1)[:, :, 0:3]]. *)
Definition drop_confidence (poses_3d : list (list Q)) : exn + list (list (list Q)) :=
  for_each (fun row => do kp <- reshape_into 19 row; inr (map (firstn 3) kp)) poses_3d.

(** ** The main loop (lines 112-239) *)

Definition edge : Type := (Z * Z)%type.

(** What [plotter.plot] receives as [poses_3d]: the decoder's array as it is
    when no pose was found, the array of shape [(N, 19, 3)] otherwise. *)
Inductive pose_array : Type :=
| Decoded (poses : list (list Q))
| Scene (poses : list (list (list Q))).

(** Calls to the collaborators, in program order. *)
Inductive event : Type :=
| Fetch (frame_id : nat)
| SetInputShape (shape : Z * Z * Z * Z)
| Infer (blob_shape : Z * Z * Z * Z)
| ParsePoses (input_scale : Q) (stride : Z) (fx : Q) (is_video : bool)
| Plot (poses_3d : pose_array) (edges : list edge)
| ImshowCanvas
| ImwriteCanvas (frame_id : nat)
| DrawPoses
| PutText (mean_time : Q)
| ImshowFrame
| ImwriteFrame
| WaitKey (delay key : Z).

(** Why the loop is left. *)
Inductive stop : Type :=
| IteratorExhausted
| EndOfStream
| EscPressed
| Raised (e : exn)
| KeysExhausted.

(** What the collaborators hand back during one iteration: the frame (its
    shape), the 3D poses that [parse_poses] returns for it, and the time
    measured by the tick counter. *)
Record iteration : Type := mkIteration {
  frame : option shape2;
  decoded : list (list Q);
  elapsed : Q
}.

(** The local variables of [main] that live across iterations. *)
Record state : Type := mkState {
  fx : Q;
  delay : Z;
  mean_time : Q;
  base_width_calculated : bool;
  IMAGE_WIDTH : option Z
}.

Definition initial_state : state :=
  {| fx := inject_Z (-1); delay := 1; mean_time := 0%Q;
     base_width_calculated := false; IMAGE_WIDTH := None |}.

Definition set_fx (st : state) (v : Q) : state :=
  {| fx := v; delay := delay st; mean_time := mean_time st;
     base_width_calculated := base_width_calculated st;
     IMAGE_WIDTH := IMAGE_WIDTH st |}.

Definition set_delay (st : state) (v : Z) : state :=
  {| fx := fx st; delay := v; mean_time := mean_time st;
     base_width_calculated := base_width_calculated st;
     IMAGE_WIDTH := IMAGE_WIDTH st |}.

Definition set_mean_time (st : state) (v : Q) : state :=
  {| fx := fx st; delay := delay st; mean_time := v;
     base_width_calculated := base_width_calculated st;
     IMAGE_WIDTH := IMAGE_WIDTH st |}.

Definition set_base_width (st : state) (w : Z) : state :=
  {| fx := fx st; delay := delay st; mean_time := mean_time st;
     base_width_calculated := true; IMAGE_WIDTH := Some w |}.

Definition esc_code : Z := 27.
Definition p_code : Z := 112.
Definition space_code : Z := 32.

(** A computation of the loop: the events it emits, then either the reason
    for leaving the loop or a value. *)
Definition M (A : Type) : Type := (list event * (stop + A))%type.

Definition ret {A : Type} (a : A) : M A := ([], inr a).
Definition halt {A : Type} (s : stop) : M A := ([], inl s).
Definition emit (e : event) : M unit := ([e], inr tt).
Definition emits (es : list event) : M unit := (es, inr tt).
Definition lift {A : Type} (m : exn + A) : M A :=
  match m with
  | inl e => halt (Raised e)
  | inr a => ret a
  end.

Definition bindM {A B : Type} (m : M A) (k : A -> M B) : M B :=
  match snd m with
  | inl s => (fst m, inl s)
  | inr a => let r := k a in (fst m ++ fst r, snd r)
  end.

Notation "'let*' x := m 'in' k" := (bindM m (fun x => k))
  (at level 10, x name, m at level 100, k at level 200).
Notation "m ;; k" := (bindM m (fun _ => k))
  (at level 100, k at level 200, right associativity).

Section Main.

(** The extrinsics read from the calibration file and the command line
    switches. *)
Variable R : mat3.
Variable t : vec3.
Variable is_video : bool.
Variable rotate3d : bool.

(** [Plotter3d.SKELETON_EDGES], an array of shape [(K, 2)] declared in
    [modules/draw.py]. *)
Variable SKELETON_EDGES : list edge.

(** Whether [Plotter3d.plot], of [modules/draw.py], raises on the given
    poses and edges. *)
Variable plot_raises : pose_array -> list edge -> bool.

(** Lines 194-197: the template plus [19 * i] for every person [i],
    flattened person by person. *)
Definition make_edges (N : nat) : list edge :=
  flat_map
    (fun i => map (fun e => (fst e + 19 * Z.of_nat i, snd e + 19 * Z.of_nat i))
                  SKELETON_EDGES)
    (seq 0 N).

(** Lines 184-197. *)
Definition transform (poses_3d : list (list Q)) : exn + (pose_array * list edge) :=
  if (length poses_3d =? 0)%nat then inr (Decoded poses_3d, [])
  else
    do poses_3d <- rotate_poses poses_3d R t;
    do poses_3d <- axis_remap poses_3d;
    do poses_3d <- drop_confidence poses_3d;
    inr (Scene poses_3d, make_edges (length poses_3d)).

(** [plotter.plot(canvas_3d, poses_3d, edges)]. *)
Definition plot (scene : pose_array * list edge) : M unit :=
  emit (Plot (fst scene) (snd scene)) ;;
  if plot_raises (fst scene) (snd scene) then halt (Raised PlotError) else ret tt.

(** Lines 132-136. *)
Definition configure (st : state) (f : shape2) : M state :=
  if base_width_calculated st then ret st
  else
    let* w := lift (base_width f) in
    emit (SetInputShape (1, 3, IMAGE_HEIGHT, w)) ;;
    ret (set_base_width st w).

(** Lines 146-147. *)
Definition focal (st : state) (f : shape2) : state :=
  if Qlt_le_dec (fx st) 0
  then set_fx st ((8 # 10) * inject_Z (shape1 f))%Q
  else st.

(** Lines 155-169: one inference in video mode, five in image mode. *)
Definition infer (blob_shape : Z * Z * Z * Z) : M unit :=
  emits (repeat (Infer blob_shape) (if is_video then 1 else 5)).

(** Lines 230-235: the loop entered with [key = 0]. *)
Fixpoint rotate_loop (scene : pose_array * list edge) (keys : list Z)
  : M (Z * list Z) :=
  plot scene ;;
  emit ImshowCanvas ;;
  match keys with
  | [] => halt KeysExhausted
  | key :: keys' =>
      emit (WaitKey 33 key) ;;
      if (key =? p_code) || (key =? esc_code) || (key =? space_code)
      then ret (key, keys')
      else rotate_loop scene keys'
  end.

(** Lines 219-239. *)
Definition poll (st : state) (scene : pose_array * list edge) (keys : list Z)
  : M (state * list Z) :=
  match keys with
  | [] => halt KeysExhausted
  | key :: keys =>
      emit (WaitKey (delay st) key) ;;
      if key =? esc_code then halt EscPressed
      else
        let st :=
          if key =? p_code
          then set_delay st (if delay st =? 1 then 0 else 1)
          else st in
        if (delay st =? 0) && rotate3d then
          let* r := rotate_loop scene keys in
          if fst r =? esc_code then halt EscPressed
          else ret (set_delay st 1, snd r)
        else ret (st, keys)
  end.

(** Lines 184-205. *)
Definition render (frame_id : nat) (poses_3d : list (list Q))
  : M (pose_array * list edge) :=
  let* scene := lift (transform poses_3d) in
  plot scene ;;
  emit (if is_video then ImshowCanvas else ImwriteCanvas frame_id) ;;
  emit DrawPoses ;;
  ret scene.

(** Lines 206-212. *)
Definition show_fps (st : state) (current_time : Q) : M state :=
  let st := set_mean_time st (update_mean_time (mean_time st) current_time) in
  lift (fps_text (mean_time st)) ;;
  emit (PutText (mean_time st)) ;;
  ret st.

(** The body of the [for] loop, lines 128-239. *)
Definition body (frame_id : nat) (it : iteration) (st : state) (keys : list Z)
  : M (state * list Z) :=
  emit (Fetch frame_id) ;;
  match frame it with
  | None => halt EndOfStream
  | Some f =>
      let* st := configure st f in
      let* input_scale := lift (input_scale f) in
      let* scaled_img := lift (cv_resize f input_scale) in
      let scaled_img := crop_to_stride scaled_img in
      let st := focal st f in
      infer (1, 3, shape0 scaled_img, shape1 scaled_img) ;;
      emit (ParsePoses input_scale STRIDE (fx st) is_video) ;;
      let* scene := render frame_id (decoded it) in
      let* st := show_fps st (elapsed it) in
      emit (if is_video then ImshowFrame else ImwriteFrame) ;;
      poll st scene keys
  end.

(** The [for] loop.  Every iteration is recorded with the state at its
    head and the events it emits. *)
Fixpoint main_loop (frame_id : nat) (its : list iteration) (st : state)
  (keys : list Z) : list (state * list event) * stop :=
  match its with
  | [] => ([], IteratorExhausted)
  | it :: its' =>
      let r := body frame_id it st keys in
      match snd r with
      | inl s => ([(st, fst r)], s)
      | inr (st', keys') =>
          let rest := main_loop (S frame_id) its' st' keys' in
          ((st, fst r) :: fst rest, snd rest)
      end
  end.

Definition main (its : list iteration) (keys : list Z)
  : list (state * list event) * stop :=
  main_loop 0 its initial_state keys.

(** The events of a run, in order. *)
Definition trace (h : list (state * list event)) : list event :=
  concat (map snd h).

End Main.

(** ** Observations on the events of a run *)

(** The shapes passed to [net.set_input_shape]. *)
Definition input_shapes (tr : list event) : list (Z * Z * Z * Z) :=
  flat_map (fun e => match e with SetInputShape s => [s] | _ => [] end) tr.

(** The shapes of the blobs passed to [net.set_input_blob_data]. *)
Definition blob_shapes (tr : list event) : list (Z * Z * Z * Z) :=
  flat_map (fun e => match e with Infer s => [s] | _ => [] end) tr.

(** The focal lengths passed to [parse_poses]. *)
Definition focal_lengths (tr : list event) : list Q :=
  flat_map (fun e => match e with ParsePoses _ _ v _ => [v] | _ => [] end) tr.

(** The smoothed frame times from which the FPS read-out is drawn. *)
Definition mean_times (tr : list event) : list Q :=
  flat_map (fun e => match e with PutText m => [m] | _ => [] end) tr.

(** The frames fetched from the frame provider. *)
Definition fetches (tr : list event) : list nat :=
  flat_map (fun e => match e with Fetch i => [i] | _ => [] end) tr.

(** The events of the key polling: waits, replots and redisplays of the 3D
    canvas. *)
Definition is_ui_event (e : event) : bool :=
  match e with
  | WaitKey _ _ | Plot _ _ | ImshowCanvas => true
  | _ => false
  end.

(** ** Well-formed inputs *)

(** A frame with positive dimensions whose scaled width rounds to at least
    one column, poses of 19 keypoints with 4 numbers each, and a positive
    measured time. *)
Definition well_formed (it : iteration) : Prop :=
  exists f, frame it = Some f /\
    0 < shape0 f /\ 0 < shape1 f /\ shape0 f < 512 * shape1 f /\
    Forall (fun pose => length pose = 76%nat) (decoded it) /\
    (0 < elapsed it)%Q.


(** ** Vocabulary for the properties of the transformer and of the loop *)

Definition vec3_opp (v : vec3) : vec3 :=
  let '(a, b, c) := v in (- a, - b, - c)%Q.

(** The squared distance between two points. *)
Definition sq_dist (u v : vec3) : Q :=
  let '(a, b, c) := u in
  let '(a', b', c') := v in
  ((a - a') * (a - a') + (b - b') * (b - b') + (c - c') * (c - c'))%Q.

(** The (x, y, z) of keypoint [k] of person [p] in an array of flattened
    poses. *)
Definition keypoint_xyz (poses_3d : list (list Q)) (p k : nat) : vec3 :=
  let pose := nth p poses_3d [] in
  (nth (4 * k) pose 0%Q, nth (4 * k + 1) pose 0%Q, nth (4 * k + 2) pose 0%Q).

(** A matrix one of whose rows is zero. *)
Definition has_zero_row (R : mat3) : Prop :=
  let '(r0, r1, r2) := R in
  vec3_eq r0 (0, 0, 0)%Q \/ vec3_eq r1 (0, 0, 0)%Q \/ vec3_eq r2 (0, 0, 0)%Q.

(** What the plotter is asked to draw, call after call. *)
Definition plots (tr : list event) : list (pose_array * list edge) :=
  flat_map (fun e => match e with Plot p es => [(p, es)] | _ => [] end) tr.

(** The delays passed to [cv2.waitKey]. *)
Definition waits (tr : list event) : list Z :=
  flat_map (fun e => match e with WaitKey d _ => [d] | _ => [] end) tr.

(** The last event of a trace. *)
Definition ends_with (tr : list event) (e : event) : Prop :=
  exists pre, tr = pre ++ [e].

(** * Properties *)

(** ** Rounding *)

Lemma py_int_nonneg (x : Q) : (0 <= x)%Q -> py_int x = Qfloor x.
Proof.
  destruct x as [n d]. unfold Qle, py_int, Qfloor. simpl. intros H.
  apply Z.quot_div_nonneg; lia.
Qed.

Lemma inject_Z_succ (z : Z) : (inject_Z (z + 1) == inject_Z z + 1)%Q.
Proof. rewrite inject_Z_plus. reflexivity. Qed.

Lemma Qfloor_bounds (x : Q) :
  (inject_Z (Qfloor x) <= x /\ x < inject_Z (Qfloor x) + 1)%Q.
Proof.
  split; [apply Qfloor_le|].
  rewrite <- inject_Z_succ. apply Qlt_floor.
Qed.

Lemma cvRound_comp (x y : Q) : (x == y)%Q -> cvRound x = cvRound y.
Proof.
  intros H. unfold cvRound.
  rewrite (Qfloor_comp _ _ H).
  assert (E : (x - inject_Z (Qfloor y) == y - inject_Z (Qfloor y))%Q)
    by (rewrite H; reflexivity).
  rewrite (Qcompare_comp _ _ E _ _ (Qeq_refl (1 # 2))). reflexivity.
Qed.

(** [cvRound] stays within one half of its argument. *)
(** [cvRound] stays within one half of its argument. *)
Lemma cvRound_bounds (x : Q) :
  (x - (1 # 2) <= inject_Z (cvRound x) /\ inject_Z (cvRound x) <= x + (1 # 2))%Q.
Proof.
  unfold cvRound.
  destruct (Qfloor_bounds x) as [Hl Hu].
  set (f := Qfloor x) in *.
  destruct (Qcompare (x - inject_Z f) (1 # 2)) eqn:E.
  - apply Qeq_alt in E.
    destruct (Z.even f); [|rewrite inject_Z_succ]; lra.
  - apply Qlt_alt in E. lra.
  - apply Qgt_alt in E. rewrite inject_Z_succ. lra.
Qed.

Lemma cvRound_inject_Z (z : Z) : cvRound (inject_Z z) = z.
Proof.
  unfold cvRound. rewrite Qfloor_Z.
  assert (E : (inject_Z z - inject_Z z == 0)%Q) by ring.
  rewrite (Qcompare_comp _ _ E _ _ (Qeq_refl (1 # 2))). reflexivity.
Qed.

Lemma inject_Z_lt_inv (a b : Z) : (inject_Z a < inject_Z b)%Q -> a < b.
Proof. unfold Qlt. simpl. lia. Qed.

Lemma inject_Z_le_inv (a b : Z) : (inject_Z a <= inject_Z b)%Q -> a <= b.
Proof. unfold Qle. simpl. lia. Qed.

Lemma inject_Z_pos (a : Z) : 0 < a -> (0 < inject_Z a)%Q.
Proof. unfold Qlt. simpl. lia. Qed.

(** ** Rounding to a double *)

Lemma pow2_pos (e : Z) : (0 < 2 ^ e)%Q.
Proof. apply Qpower_0_lt. reflexivity. Qed.

Lemma pow2_inject (a : Z) : 0 <= a -> (2 ^ a == inject_Z (2 ^ a))%Q.
Proof. intros H. rewrite Zpower_Qpower by exact H. reflexivity. Qed.

(** [ilog2 x] is the exponent of the binade of [x]. *)
Lemma ilog2_spec (x : Q) :
  (0 < x)%Q -> (2 ^ ilog2 x <= x /\ x < 2 ^ (ilog2 x + 1))%Q.
Proof.
  intros Hx. unfold ilog2.
  destruct x as [p q]. cbn [Qnum Qden].
  assert (Hp : 0 < p) by (unfold Qlt in Hx; simpl in Hx; lia).
  destruct (Z.log2_spec p Hp) as [Pl Pu].
  destruct (Z.log2_spec (Z.pos q) ltac:(lia)) as [Ql Qu].
  pose proof (Z.log2_nonneg p) as Pa. pose proof (Z.log2_nonneg (Z.pos q)) as Qa.
  set (a := Z.log2 p) in *. set (b := Z.log2 (Z.pos q)) in *.
  assert (Hx' : (p # q == inject_Z p / inject_Z (Z.pos q))%Q) by apply Qmake_Qdiv.
  assert (Hq : (0 < inject_Z (Z.pos q))%Q) by (unfold Qlt; simpl; lia).
  assert (Lo : (2 ^ (a - b - 1) <= p # q)%Q).
  { replace (a - b - 1) with (a - (b + 1)) by lia.
    rewrite Qpower_minus by discriminate.
    rewrite (pow2_inject a Pa), (pow2_inject (b + 1)) by lia.
    rewrite Hx'.
    apply Qle_shift_div_l; [exact Hq|].
    assert (H2 : (0 < inject_Z (2 ^ (b + 1)))%Q)
      by (unfold Qlt; simpl; rewrite Z.mul_1_r; apply Z.pow_pos_nonneg; lia).
    unfold Qdiv. rewrite <- Qmult_assoc, (Qmult_comm (/ _)), Qmult_assoc.
    apply Qle_shift_div_r; [exact H2|].
    rewrite <- !inject_Z_mult. unfold Qle. simpl. rewrite !Z.mul_1_r.
    replace (Z.succ b) with (b + 1) in Qu by lia. nia. }
  assert (Hi : (p # q < 2 ^ (a - b + 1))%Q).
  { replace (a - b + 1) with ((a + 1) - b) by lia.
    rewrite Qpower_minus by discriminate.
    rewrite (pow2_inject (a + 1)), (pow2_inject b Qa) by lia.
    rewrite Hx'.
    assert (H2 : (0 < inject_Z (2 ^ b))%Q)
      by (unfold Qlt; simpl; rewrite Z.mul_1_r; apply Z.pow_pos_nonneg; lia).
    apply Qlt_shift_div_r; [exact Hq|].
    unfold Qdiv. rewrite <- Qmult_assoc, (Qmult_comm (/ _)), Qmult_assoc.
    apply Qlt_shift_div_l; [exact H2|].
    rewrite <- !inject_Z_mult. unfold Qlt. simpl. rewrite !Z.mul_1_r.
    replace (Z.succ a) with (a + 1) in Pu by lia. nia. }
  destruct (Qle_bool (2 ^ (a - b)) (p # q)) eqn:E.
  - split; [apply Qle_bool_iff; exact E|exact Hi].
  - split; [exact Lo|].
    replace (a - b - 1 + 1) with (a - b) by lia.
    apply Qnot_le_lt. intros H. apply Qle_bool_iff in H. congruence.
Qed.

(** A double is within [2^-53] of the value it rounds, relatively. *)
Lemma fl64_error (x : Q) : (Qabs (fl64 x - x) <= Qabs x * eps64)%Q.
Proof.
  unfold fl64. destruct (Qeq_bool x 0) eqn:E0.
  - apply Qeq_bool_iff in E0.
    assert (E : (Qabs (0 - x) == 0)%Q) by (rewrite E0; reflexivity).
    rewrite E. apply Qmult_le_0_compat; [apply Qabs_nonneg|discriminate].
  - assert (Hx : (0 < Qabs x)%Q).
    { destruct (Qlt_le_dec 0 (Qabs x)) as [H|H]; [exact H|].
      exfalso. apply Qabs_Qle_condition in H. destruct H as [H1 H2].
      assert (X0 : (x == 0)%Q) by lra.
      apply Qeq_bool_iff in X0. congruence. }
    destruct (ilog2_spec (Qabs x) Hx) as [Hl _].
    set (e := ilog2 (Qabs x)) in *.
    pose proof (pow2_pos (e - 52)) as Hu.
    set (ulp := (2 ^ (e - 52))%Q) in *.
    assert (Hulp : (ulp * inject_Z (2 ^ 52) == 2 ^ e)%Q).
    { unfold ulp. rewrite Qpower_minus by discriminate.
      rewrite (pow2_inject 52) by lia. field. discriminate. }
    destruct (cvRound_bounds (x / ulp)) as [Bl Bu].
    set (n := inject_Z (cvRound (x / ulp))) in *.
    assert (Hd : (x / ulp * ulp == x)%Q) by (field; lra).
    assert (A : (Qabs (n * ulp - x) <= ulp * (1 # 2))%Q).
    { apply Qabs_Qle_condition. split.
      - apply (Qmult_le_compat_r _ _ ulp) in Bl; [|lra]. lra.
      - apply (Qmult_le_compat_r _ _ ulp) in Bu; [|lra]. lra. }
    eapply Qle_trans; [exact A|].
    change (inject_Z (2 ^ 52)) with (4503599627370496 # 1)%Q in Hulp.
    unfold eps64. change (1 # 2 ^ 53)%Q with (1 # 9007199254740992)%Q.
    lra.
Qed.

Lemma fl64_bounds (x : Q) :
  (0 <= x)%Q -> (x * (1 - eps64) <= fl64 x <= x * (1 + eps64))%Q.
Proof.
  intros H. pose proof (fl64_error x) as E.
  rewrite (Qabs_pos x H) in E.
  apply Qabs_Qle_condition in E. destruct E as [El Eu].
  split; lra.
Qed.

Lemma fl64_nonneg (x : Q) : (0 <= x)%Q -> (0 <= fl64 x)%Q.
Proof.
  intros H. destruct (fl64_bounds x H) as [Hl _].
  assert (0 <= x * (1 - eps64))%Q
    by (apply Qmult_le_0_compat; [exact H|unfold eps64; discriminate]).
  lra.
Qed.

(** Relative bounds compose: through a product and through a further
    rounding. *)
Lemma near_mul (a a' b b' l1 h1 l2 h2 : Q) :
  (0 <= a -> 0 <= b -> 0 <= l1 -> 0 <= l2 ->
   a * l1 <= a' <= a * h1 -> b * l2 <= b' <= b * h2 ->
   (a * b) * (l1 * l2) <= a' * b' <= (a * b) * (h1 * h2))%Q.
Proof.
  intros Ha Hb Hl1 Hl2 [A1 A2] [B1 B2].
  assert (0 <= a * l1)%Q by (apply Qmult_le_0_compat; assumption).
  assert (0 <= b * l2)%Q by (apply Qmult_le_0_compat; assumption).
  split.
  - apply Qle_trans with ((a * l1) * (b * l2))%Q; [ring_simplify; apply Qle_refl|].
    apply Qle_trans with ((a * l1) * b')%Q.
    + rewrite !(Qmult_comm (a * l1)). apply Qmult_le_compat_r; assumption.
    + apply Qmult_le_compat_r; [assumption|lra].
  - apply Qle_trans with ((a * h1) * (b * h2))%Q; [|ring_simplify; apply Qle_refl].
    apply Qle_trans with ((a * h1) * b')%Q.
    + apply Qmult_le_compat_r; [assumption|lra].
    + rewrite !(Qmult_comm (a * h1)). apply Qmult_le_compat_r; [assumption|lra].
Qed.

Lemma near_fl64 (a a' l h : Q) :
  (0 <= a -> 0 <= l -> a * l <= a' <= a * h ->
   a * (l * (1 - eps64)) <= fl64 a' <= a * (h * (1 + eps64)))%Q.
Proof.
  intros Ha Hl [A1 A2].
  assert (H0 : (0 <= a * l)%Q) by (apply Qmult_le_0_compat; assumption).
  assert (Ha' : (0 <= a')%Q) by lra.
  destruct (fl64_bounds a' Ha') as [F1 F2].
  assert (E1 : (0 <= 1 - eps64)%Q) by (unfold eps64; discriminate).
  assert (E2 : (0 <= 1 + eps64)%Q) by (unfold eps64; discriminate).
  split.
  - apply Qle_trans with (a' * (1 - eps64))%Q; [|exact F1].
    rewrite Qmult_assoc. apply Qmult_le_compat_r; assumption.
  - apply Qle_trans with (a' * (1 + eps64))%Q; [exact F2|].
    rewrite Qmult_assoc. apply Qmult_le_compat_r; assumption.
Qed.

(** ** Widths *)

Lemma scaled_width_naive (f : shape2) :
  shape0 f <> 0 ->
  (inject_Z (shape1 f) * (inject_Z IMAGE_HEIGHT / inject_Z (shape0 f))
   == naive_width f)%Q.
Proof.
  intros H. unfold naive_width. field.
  intros E. apply H. unfold Qeq in E. simpl in E. lia.
Qed.

Lemma naive_width_half (f : shape2) :
  0 < shape0 f -> shape0 f < 512 * shape1 f -> ((1 # 2) < naive_width f)%Q.
Proof.
  intros H0 H1. unfold naive_width.
  apply Qlt_shift_div_l; [apply inject_Z_pos; exact H0|].
  unfold IMAGE_HEIGHT. rewrite <- inject_Z_mult.
  unfold Qlt, Qmult, inject_Z. cbn [Qnum Qden]. lia.
Qed.

Lemma scaled_height (f : shape2) :
  shape0 f <> 0 ->
  cvRound (inject_Z (shape0 f) * (inject_Z IMAGE_HEIGHT / inject_Z (shape0 f)))
  = IMAGE_HEIGHT.
Proof.
  intros H.
  rewrite (cvRound_comp _ (inject_Z IMAGE_HEIGHT)); [apply cvRound_inject_Z|].
  field. intros E. apply H. unfold Qeq in E. simpl in E. lia.
Qed.

(** [cv2.resize] succeeds on a frame whose scaled width rounds to at least 1,
    and yields [IMAGE_HEIGHT] rows and the rounded scaled width. *)
Lemma cv_resize_ok (f : shape2) :
  0 < shape0 f -> 0 < shape1 f -> shape0 f < 512 * shape1 f ->
  exists s, input_scale f = inr s /\
    cv_resize f s = inr (mkShape IMAGE_HEIGHT (cvRound (naive_width f))) /\
    0 < cvRound (naive_width f).
Proof.
  intros H0 H1 H2.
  assert (Hn : shape0 f <> 0) by lia.
  exists (inject_Z IMAGE_HEIGHT / inject_Z (shape0 f))%Q.
  assert (Hw : 0 < cvRound (naive_width f)).
  { apply inject_Z_lt_inv.
    pose proof (naive_width_half f H0 H2).
    destruct (cvRound_bounds (naive_width f)) as [Hl _].
    change (inject_Z 0) with 0%Q. lra. }
  split; [|split; [|exact Hw]].
  - unfold input_scale. destruct (shape0 f =? 0) eqn:E; [lia|reflexivity].
  - unfold cv_resize.
    replace (shape0 f <=? 0) with false by (symmetry; apply Z.leb_gt; lia).
    replace (shape1 f <=? 0) with false by (symmetry; apply Z.leb_gt; lia).
    simpl orb.
    assert (Hs : (0 < inject_Z IMAGE_HEIGHT / inject_Z (shape0 f))%Q).
    { apply Qlt_shift_div_l; [apply inject_Z_pos; exact H0|].
      unfold Qlt. simpl. lia. }
    destruct (Qle_bool _ 0) eqn:E.
    { apply Qle_bool_iff in E. lra. }
    rewrite (scaled_height f Hn).
    rewrite (cvRound_comp _ _ (scaled_width_naive f Hn)).
    replace (cvRound (naive_width f) <=? 0) with false
      by (symmetry; apply Z.leb_gt; lia).
    reflexivity.
Qed.

(** [base_width] raises on a frame without rows and on no other frame. *)
Lemma base_width_total (f : shape2) :
  shape0 f <> 0 -> exists w, base_width f = inr w /\ w mod STRIDE = 0.
Proof.
  intros H. unfold base_width.
  destruct (shape0 f =? 0) eqn:E; [apply Z.eqb_eq in E; contradiction|].
  eexists. split; [reflexivity|]. apply Z.mod_mul. unfold STRIDE. lia.
Qed.

(** Four roundings lie between the scaled width and the truncation. *)
Lemma eps64_four :
  (1 - 4 * eps64 <= (1 - eps64) * (1 - eps64) * (1 - eps64) * (1 - eps64) /\
   (1 + eps64) * (1 + eps64) * (1 + eps64) * (1 + eps64) <= 1 + 5 * eps64)%Q.
Proof. split; vm_compute; discriminate. Qed.

(** The width configured on the engine is a multiple of the stride, at most
    the naive scaled width and at most one stride below it.  It is the
    scaled width rounded down to a multiple of the stride, except that a
    scaled width which is itself a multiple of the stride can lose one
    stride to the rounding of the doubles. *)
Lemma base_width_spec (f : shape2) :
  0 < shape0 f -> 0 <= shape1 f < 2 ^ 42 ->
  exists w, base_width f = inr w /\ w mod STRIDE = 0 /\
    (inject_Z w <= naive_width f <= inject_Z w + inject_Z STRIDE)%Q.
Proof.
  intros H0 [H1 H2].
  assert (Hn : shape0 f <> 0) by lia.
  unfold base_width. destruct (shape0 f =? 0) eqn:E; [lia|]. clear E.
  cbv zeta. eexists. split; [reflexivity|].
  split; [apply Z.mod_mul; unfold STRIDE; lia|].
  set (r := inject_Z (shape0 f)). set (c := inject_Z (shape1 f)).
  assert (Hr : (0 < r)%Q) by (apply inject_Z_pos; exact H0).
  assert (Hc : (0 <= c)%Q) by (unfold c, Qle; simpl; lia).
  assert (Hs : (0 <= inject_Z IMAGE_HEIGHT / r)%Q).
  { apply Qle_shift_div_l; [exact Hr|]. unfold IMAGE_HEIGHT. rewrite Qmult_0_l. discriminate. }
  assert (E1 : (0 <= 1 - eps64)%Q) by (unfold eps64; discriminate).
  (* the scale, the converted width, their product, its quotient by 8 *)
  pose proof (fl64_bounds _ Hs) as Bs.
  pose proof (fl64_bounds _ Hc) as Bc.
  pose proof (near_mul _ _ _ _ _ _ _ _ Hc Hs E1 E1 Bc Bs) as Bp.
  assert (Hcs : (0 <= c * (inject_Z IMAGE_HEIGHT / r))%Q)
    by (apply Qmult_le_0_compat; assumption).
  assert (E2 : (0 <= (1 - eps64) * (1 - eps64))%Q) by (unfold eps64; discriminate).
  pose proof (near_fl64 _ _ _ _ Hcs E2 Bp) as Bw.
  set (w := fl64 (fl64 c * fl64 (inject_Z IMAGE_HEIGHT / r))) in *.
  set (x := (c * (inject_Z IMAGE_HEIGHT / r))%Q) in *.
  assert (Hx : (x == naive_width f)%Q) by (apply scaled_width_naive; exact Hn).
  assert (Hxr : (x * r == 256 * c)%Q).
  { unfold x, IMAGE_HEIGHT. change (inject_Z 256) with 256%Q. field. lra. }
  clearbody w x. clear Bs Bc Bp.
  assert (Bq : (x / inject_Z STRIDE * ((1 - eps64) * (1 - eps64) * (1 - eps64))
                <= w / inject_Z STRIDE
                <= x / inject_Z STRIDE * ((1 + eps64) * (1 + eps64) * (1 + eps64)))%Q).
  { unfold STRIDE. change (inject_Z 8) with 8%Q. destruct Bw as [B1 B2].
    assert (Ex : (x / 8 == x * (1 # 8))%Q) by field.
    assert (Ew : (w / 8 == w * (1 # 8))%Q) by field.
    rewrite Ex, Ew. split; lra. }
  assert (Ex8 : (x == 8 * (x / inject_Z STRIDE))%Q) by (unfold STRIDE; field).
  assert (Hx8 : (0 <= x / inject_Z STRIDE)%Q) by lra.
  set (x8 := (x / inject_Z STRIDE)%Q) in *. clearbody x8.
  assert (E3 : (0 <= (1 - eps64) * (1 - eps64) * (1 - eps64))%Q)
    by (unfold eps64; discriminate).
  pose proof (near_fl64 _ _ _ _ Hx8 E3 Bq) as By.
  set (y := fl64 (w / inject_Z STRIDE)) in *.
  destruct eps64_four as [F1 F2].
  assert (Hy0 : (0 <= y)%Q).
  { destruct By as [B1 _].
    assert (0 <= x8 * ((1 - eps64) * (1 - eps64) * (1 - eps64) * (1 - eps64)))%Q
      by (apply Qmult_le_0_compat; [exact Hx8|unfold eps64; discriminate]).
    lra. }
  rewrite (py_int_nonneg y Hy0).
  destruct (Qfloor_bounds y) as [Fl Fu].
  set (n := Qfloor y) in *.
  clearbody y n.
  assert (Hcb : (c * (1280 * eps64) < 1)%Q /\ (c * (1024 * eps64) < 1)%Q).
  { assert (Hc2 : (c <= inject_Z (2 ^ 42 - 1))%Q)
      by (unfold c, Qle; simpl; lia).
    change (inject_Z (2 ^ 42 - 1)) with 4398046511103%Q in Hc2.
    unfold eps64. change (1 # 2 ^ 53)%Q with (1 # 9007199254740992)%Q.
    split; lra. }
  unfold STRIDE in *. change (inject_Z 8) with 8%Q in *.
  rewrite inject_Z_mult. change (inject_Z 8) with 8%Q.
  rewrite <- Hx.
  (* in integers: 8 n r <= 256 c <= (8 n + 8) r *)
  assert (ZI : 8 * n * shape0 f <= 256 * shape1 f <= (8 * n + 8) * shape0 f).
  { assert (U : (inject_Z (8 * n * shape0 f) < inject_Z (256 * shape1 f) + 1)%Q).
    { rewrite !inject_Z_mult. fold r c. change (inject_Z 8) with 8%Q.
      change (inject_Z 256) with 256%Q.
      destruct By as [_ B2].
      assert (A : (8 * inject_Z n <= x * (1 + 5 * eps64))%Q).
      { assert (y <= x8 * (1 + 5 * eps64))%Q.
        { eapply Qle_trans; [exact B2|].
          rewrite !(Qmult_comm x8). apply Qmult_le_compat_r; [|exact Hx8].
          exact F2. }
        rewrite Ex8. lra. }
      apply (Qmult_le_compat_r _ _ r) in A; [|lra].
      destruct Hcb as [Hcb _]. nra. }
    assert (L : (inject_Z (256 * shape1 f) - 1 < inject_Z ((8 * n + 8) * shape0 f))%Q).
    { rewrite !inject_Z_mult, inject_Z_plus, inject_Z_mult. fold r c.
      change (inject_Z 8) with 8%Q. change (inject_Z 256) with 256%Q.
      destruct By as [B1 _].
      assert (A : (x * (1 - 4 * eps64) < 8 * inject_Z n + 8)%Q).
      { assert (x8 * (1 - 4 * eps64) <= y)%Q.
        { eapply Qle_trans; [|exact B1].
          rewrite !(Qmult_comm x8). apply Qmult_le_compat_r; [|exact Hx8].
          exact F1. }
        rewrite Ex8. lra. }
      apply (Qmult_lt_compat_r _ _ r) in A; [|lra].
      destruct Hcb as [_ Hcb]. nra. }
    split.
    - assert (8 * n * shape0 f < 256 * shape1 f + 1); [|lia].
      apply inject_Z_lt_inv. rewrite inject_Z_plus. exact U.
    - assert (256 * shape1 f - 1 < (8 * n + 8) * shape0 f); [|lia].
      apply inject_Z_lt_inv. unfold Zminus. rewrite inject_Z_plus. exact L. }
  destruct ZI as [Z1 Z2].
  assert (Q1 : (8 * inject_Z n * r <= 256 * c)%Q).
  { unfold r, c. change 8%Q with (inject_Z 8). change 256%Q with (inject_Z 256).
    rewrite <- !inject_Z_mult, <- Zle_Qle. lia. }
  assert (Q2 : (256 * c <= (8 * inject_Z n + 8) * r)%Q).
  { unfold r, c. change 8%Q with (inject_Z 8). change 256%Q with (inject_Z 256).
    rewrite <- !inject_Z_mult, <- inject_Z_plus, <- inject_Z_mult, <- Zle_Qle.
    lia. }
  rewrite <- Hxr in Q1, Q2.
  split.
  - apply Qmult_le_r with r; [exact Hr|]. lra.
  - apply Qmult_le_r with r; [exact Hr|]. lra.
Qed.

(** ** Claim C3: width alignment of the cropped image *)

(** C3, as stated, fails: a frame of 768 rows and 1343 columns has the naive
    scaled width 1343 * 256 / 768 = 447.66..., [cv2.resize] rounds it to 448
    columns, the crop keeps all 448 of them, and 448 exceeds the naive
    scaled width. *)
Lemma C3_cropped_width_exceeds_naive :
  ~ (forall s, preprocess_shape (mkShape 768 1343) = inr s ->
       shape1 s mod STRIDE = 0 /\
       (inject_Z (shape1 s) <= naive_width (mkShape 768 1343))%Q).
Proof.
  intros H.
  destruct (H (mkShape 256 448)) as [_ Hle]; [vm_compute; reflexivity|].
  vm_compute in Hle. apply Hle. reflexivity.
Qed.

(** C3, amended: for every frame with positive height and width whose scaled
    width rounds to at least one column, and for the stride 8, the
    preprocessing succeeds; the cropped image has [IMAGE_HEIGHT] rows; its
    width is an exact multiple of the stride, at most the width of the
    resized image (the frame is cropped, never padded) and less than one
    stride below it; the resized width is within one half of the naive scaled
    width (the nearest integer), so the cropped width is at most the naive
    scaled width plus one half. *)
Theorem C3_cropped_width_alignment (f : shape2) :
  0 < shape0 f -> 0 < shape1 f -> shape0 f < 512 * shape1 f ->
  exists s r : shape2,
    input_scale f = inr (inject_Z IMAGE_HEIGHT / inject_Z (shape0 f))%Q /\
    cv_resize f (inject_Z IMAGE_HEIGHT / inject_Z (shape0 f))%Q = inr r /\
    (naive_width f - (1 # 2) <= inject_Z (shape1 r) <= naive_width f + (1 # 2))%Q /\
    preprocess_shape f = inr s /\
    shape0 s = IMAGE_HEIGHT /\
    shape1 s mod STRIDE = 0 /\
    0 <= shape1 s <= shape1 r /\
    shape1 r - STRIDE < shape1 s /\
    (inject_Z (shape1 s) <= naive_width f + (1 # 2))%Q.
Proof.
  intros H0 H1 H2.
  destruct (cv_resize_ok f H0 H1 H2) as (s & Hs & Hr & Hw).
  assert (Es : s = (inject_Z IMAGE_HEIGHT / inject_Z (shape0 f))%Q).
  { unfold input_scale in Hs. destruct (shape0 f =? 0); congruence. }
  subst s.
  set (w := cvRound (naive_width f)) in *.
  exists (crop_to_stride (mkShape IMAGE_HEIGHT w)), (mkShape IMAGE_HEIGHT w).
  pose proof (Z.mod_pos_bound w STRIDE ltac:(unfold STRIDE; lia)) as Hm.
  assert (Hc : 0 <= w - w mod STRIDE <= w).
  { pose proof (Z.mod_le w STRIDE ltac:(lia) ltac:(unfold STRIDE; lia)). lia. }
  destruct (cvRound_bounds (naive_width f)) as [Hlo Hhi]. fold w in Hlo, Hhi.
  repeat split; try (simpl; lia).
  - exact Hs.
  - exact Hr.
  - exact Hlo.
  - exact Hhi.
  - unfold preprocess_shape. rewrite Hs, Hr. reflexivity.
  - simpl. rewrite Zminus_mod, Z.mod_mod, Z.sub_diag by (unfold STRIDE; lia).
    reflexivity.
  - simpl. destruct (cvRound_bounds (naive_width f)) as [_ Hu]. fold w in Hu.
    apply Qle_trans with (inject_Z w); [|exact Hu].
    unfold Qle, inject_Z. cbn [Qnum Qden]. lia.
Qed.

Lemma C3_cropped_width_alignment_witness :
  0 < shape0 (mkShape 1080 1920) /\ 0 < shape1 (mkShape 1080 1920) /\
  shape0 (mkShape 1080 1920) < 512 * shape1 (mkShape 1080 1920) /\
  exists s r : shape2,
    input_scale (mkShape 1080 1920) = inr (inject_Z IMAGE_HEIGHT / inject_Z 1080)%Q /\
    cv_resize (mkShape 1080 1920) (inject_Z IMAGE_HEIGHT / inject_Z 1080)%Q = inr r /\
    (naive_width (mkShape 1080 1920) - (1 # 2) <= inject_Z (shape1 r)
     <= naive_width (mkShape 1080 1920) + (1 # 2))%Q /\
    preprocess_shape (mkShape 1080 1920) = inr s /\
    shape0 s = IMAGE_HEIGHT /\
    shape1 s mod STRIDE = 0 /\
    0 <= shape1 s <= shape1 r /\
    shape1 r - STRIDE < shape1 s /\
    (inject_Z (shape1 s) <= naive_width (mkShape 1080 1920) + (1 # 2))%Q.
Proof.
  split; [simpl; lia|]. split; [simpl; lia|]. split; [simpl; lia|].
  apply (C3_cropped_width_alignment (mkShape 1080 1920)); simpl; lia.
Defined.

(** ** Lists *)

Lemma nth_map_in {A B : Type} (f : A -> B) (l : list A) (n : nat) (d : A) (d' : B) :
  (n < length l)%nat -> nth n (map f l) d' = f (nth n l d).
Proof.
  intros H. rewrite (nth_indep _ d' (f d)) by (rewrite length_map; exact H).
  apply map_nth.
Qed.

Lemma nth_seq_map {B : Type} (f : nat -> B) (n k : nat) (d : B) :
  (k < n)%nat -> nth k (map f (seq 0 n)) d = f k.
Proof.
  intros H. rewrite (nth_map_in f _ k 0%nat) by (rewrite length_seq; exact H).
  rewrite seq_nth by exact H. reflexivity.
Qed.

Lemma Forall_nth_in {A : Type} (P : A -> Prop) (l : list A) (n : nat) (d : A) :
  Forall P l -> (n < length l)%nat -> P (nth n l d).
Proof.
  intros H Hn. rewrite Forall_forall in H. apply H. apply nth_In. exact Hn.
Qed.

(** ** Claim C9: the normalised tensor *)

Lemma normalize_pixel (px : list Z) (c : nat) :
  length px = 3%nat -> (c < 3)%nat ->
  nth c (map (fun v => v / inject_Z 255)%Q
           (map2 Qminus (map inject_Z px) img_mean)) 0%Q
  = ((inject_Z (nth c px 0%Z) - inject_Z 128) / inject_Z 255)%Q.
Proof.
  intros H Hc.
  destruct px as [|a [|b [|e [|? ?]]]]; try discriminate.
  destruct c as [|[|[|c]]]; try lia; reflexivity.
Qed.

(** C9: for every cropped image of shape (H, W, 3), the preprocessor's output
    has shape (1, 3, H, W), in (batch, channel, height, width) layout, and
    its value at channel [c], row [y], column [x] is (pixel - 128) / 255 for
    the input sample at row [y], column [x], channel [c]. *)
Theorem C9_normalized_tensor (scaled_img : list (list (list Z))) (H W : nat) :
  has_shape3 H W 3 scaled_img ->
  has_shape4 1 3 H W (normalize scaled_img) /\
  forall c y x : nat, (c < 3)%nat -> (y < H)%nat -> (x < W)%nat ->
    nth x (nth y (nth c (nth 0 (normalize scaled_img) []) []) []) 0%Q
    = ((inject_Z (nth c (nth x (nth y scaled_img []) []) 0%Z) - inject_Z 128)
       / inject_Z 255)%Q.
Proof.
  intros [HH Hrows]. split.
  - split; [reflexivity|]. constructor; [|constructor].
    split; [reflexivity|].
    unfold transpose_2_0_1. rewrite Forall_map. apply Forall_forall.
    intros c _. unfold div_255, sub_mean, astype_float32.
    rewrite !length_map. split; [exact HH|].
    rewrite !Forall_map. revert Hrows. apply Forall_impl.
    intros row [HW _]. rewrite !length_map. exact HW.
  - intros c y x Hc Hy Hx.
    assert (Hrow : length (nth y scaled_img []) = W /\
                   Forall (fun px => length px = 3%nat) (nth y scaled_img [])).
    { apply (Forall_nth_in
               (fun row => length row = W /\ Forall (fun px => length px = 3%nat) row)
               scaled_img y [] Hrows). lia. }
    destruct Hrow as [HW Hpx].
    assert (Hp : length (nth x (nth y scaled_img []) []) = 3%nat).
    { apply (Forall_nth_in (fun px => length px = 3%nat) _ x [] Hpx). lia. }
    unfold normalize, expand_dims_0, transpose_2_0_1. cbn [nth].
    rewrite (nth_seq_map _ (length img_mean) c) by exact Hc.
    unfold div_255, sub_mean, astype_float32.
    rewrite !map_map.
    rewrite (nth_map_in _ scaled_img y []) by lia.
    rewrite !map_map.
    rewrite (nth_map_in _ _ x []) by lia.
    apply normalize_pixel; assumption.
Qed.

Lemma C9_normalized_tensor_witness :
  has_shape3 1 2 3 [[[0; 128; 255]; [1; 2; 3]]] /\
  has_shape4 1 3 1 2 (normalize [[[0; 128; 255]; [1; 2; 3]]]) /\
  forall c y x : nat, (c < 3)%nat -> (y < 1)%nat -> (x < 2)%nat ->
    nth x (nth y (nth c (nth 0 (normalize [[[0; 128; 255]; [1; 2; 3]]]) []) []) []) 0%Q
    = ((inject_Z (nth c (nth x (nth y [[[0; 128; 255]; [1; 2; 3]]]%Z []) []) 0%Z)
        - inject_Z 128) / inject_Z 255)%Q.
Proof.
  assert (Hs : has_shape3 1 2 3 [[[0; 128; 255]; [1; 2; 3]]]).
  { split; [reflexivity|]. repeat constructor. }
  split; [exact Hs|].
  exact (C9_normalized_tensor [[[0; 128; 255]; [1; 2; 3]]] 1 2 Hs).
Defined.

(** ** Flattening a list of equally long pieces *)

Lemma flat_map_seq_length {A : Type} (g : nat -> list A) (K : nat) :
  (forall i, length (g i) = K) ->
  forall N s, length (flat_map g (seq s N)) = (N * K)%nat.
Proof.
  intros Hg N. induction N as [|N IH]; intros s; [reflexivity|].
  cbn [seq flat_map]. rewrite length_app, Hg, IH. reflexivity.
Qed.

Lemma flat_map_seq_nth {A : Type} (g : nat -> list A) (K : nat) (d : A) :
  (forall i, length (g i) = K) ->
  forall N s i j, (i < N)%nat -> (j < K)%nat ->
    nth (i * K + j) (flat_map g (seq s N)) d = nth j (g (s + i)%nat) d.
Proof.
  intros Hg N. induction N as [|N IH]; intros s i j Hi Hj; [lia|].
  cbn [seq flat_map]. destruct i as [|i].
  - rewrite Nat.add_0_r. cbn [Nat.mul Nat.add].
    apply app_nth1. rewrite Hg. exact Hj.
  - rewrite app_nth2 by (rewrite Hg; cbn [Nat.mul]; lia).
    rewrite Hg.
    replace (S i * K + j - K)%nat with (i * K + j)%nat by (cbn [Nat.mul]; lia).
    rewrite IH by lia. f_equal. f_equal. lia.
Qed.

(** ** Claim C7: the flattened edge list *)

(** C7: for every number N >= 1 of people and every K-edge template whose
    indices lie in [0, 19), the edge list has exactly N * K entries, entry
    [i * K + j] is the template edge [j] with [19 * i] added to both indices,
    and every index of the list lies in [0, 19 * N). *)
Theorem C7_edge_offsets (SKELETON_EDGES : list edge) (N : nat) :
  (1 <= N)%nat ->
  Forall (fun e => 0 <= fst e < 19 /\ 0 <= snd e < 19) SKELETON_EDGES ->
  let K := length SKELETON_EDGES in
  let edges := make_edges SKELETON_EDGES N in
  length edges = (N * K)%nat /\
  (forall i j, (i < N)%nat -> (j < K)%nat ->
     nth (i * K + j) edges (0, 0)
     = (fst (nth j SKELETON_EDGES (0, 0)) + 19 * Z.of_nat i,
        snd (nth j SKELETON_EDGES (0, 0)) + 19 * Z.of_nat i)) /\
  Forall (fun e => 0 <= fst e < 19 * Z.of_nat N /\ 0 <= snd e < 19 * Z.of_nat N)
         edges.
Proof.
  intros _ Hsk K edges. subst edges.
  pose (g := fun i : nat =>
              map (fun e : edge => (fst e + 19 * Z.of_nat i, snd e + 19 * Z.of_nat i))
                  SKELETON_EDGES).
  change (make_edges SKELETON_EDGES N) with (flat_map g (seq 0 N)).
  assert (Hg : forall i, length (g i) = K) by (intros i; apply length_map).
  split; [apply flat_map_seq_length; exact Hg|]. split.
  - intros i j Hi Hj.
    etransitivity; [exact (flat_map_seq_nth g K (0, 0) Hg N 0%nat i j Hi Hj)|].
    cbn [Nat.add]. unfold g.
    exact (nth_map_in _ SKELETON_EDGES j (0, 0) (0, 0) Hj).
  - apply Forall_forall. intros e He.
    apply in_flat_map in He. destruct He as (i & Hi & He).
    apply in_seq in Hi. unfold g in He. apply in_map_iff in He.
    destruct He as (e0 & <- & He0).
    rewrite Forall_forall in Hsk. specialize (Hsk e0 He0). cbn [fst snd]. lia.
Qed.

Lemma C7_edge_offsets_witness :
  (1 <= 2)%nat /\
  Forall (fun e => 0 <= fst e < 19 /\ 0 <= snd e < 19) [(11, 10); (10, 9); (17, 18)] /\
  let K := length [(11, 10); (10, 9); (17, 18)] in
  let edges := make_edges [(11, 10); (10, 9); (17, 18)] 2 in
  length edges = (2 * K)%nat /\
  (forall i j, (i < 2)%nat -> (j < K)%nat ->
     nth (i * K + j) edges (0, 0)
     = (fst (nth j [(11, 10); (10, 9); (17, 18)] (0, 0)) + 19 * Z.of_nat i,
        snd (nth j [(11, 10); (10, 9); (17, 18)] (0, 0)) + 19 * Z.of_nat i)) /\
  Forall (fun e => 0 <= fst e < 19 * Z.of_nat 2 /\ 0 <= snd e < 19 * Z.of_nat 2)
         edges.
Proof.
  assert (H1 : (1 <= 2)%nat) by lia.
  assert (H2 : Forall (fun e => 0 <= fst e < 19 /\ 0 <= snd e < 19)
                      [(11, 10); (10, 9); (17, 18)]).
  { repeat constructor; simpl; lia. }
  split; [exact H1|]. split; [exact H2|].
  exact (C7_edge_offsets [(11, 10); (10, 9); (17, 18)] 2 H1 H2).
Defined.

(** ** Positions of a buffer of 4-tuples *)

Lemma div_mod_4 (k r : nat) :
  (r < 4)%nat -> ((4 * k + r) / 4 = k /\ (4 * k + r) mod 4 = r)%nat.
Proof.
  intros H. split.
  - symmetry. apply (Nat.div_unique _ 4 k r); lia.
  - symmetry. apply (Nat.mod_unique _ 4 k r); lia.
Qed.

Lemma length_imap {A B : Type} (f : nat -> A -> B) (l : list A) :
  length (imap f l) = length l.
Proof.
  unfold imap. rewrite length_map, length_combine, length_seq. apply Nat.min_id.
Qed.

Lemma nth_imap {A B : Type} (f : nat -> A -> B) (l : list A) (i : nat) (d : A) (d' : B) :
  (i < length l)%nat -> nth i (imap f l) d' = f i (nth i l d).
Proof.
  intros H. unfold imap.
  rewrite (nth_map_in _ _ i (0%nat, d))
    by (rewrite length_combine, length_seq, Nat.min_id; exact H).
  rewrite combine_nth by apply length_seq.
  rewrite seq_nth by exact H. reflexivity.
Qed.

Lemma length_map2 {A B C : Type} (f : A -> B -> C) (u : list A) (v : list B) :
  length u = length v -> length (map2 f u v) = length u.
Proof.
  revert v. induction u as [|a u IH]; intros [|b v] H; try discriminate; [reflexivity|].
  cbn [map2 length]. f_equal. apply IH. injection H as H. exact H.
Qed.

Lemma length_map2_min {A B C : Type} (f : A -> B -> C) (u : list A) (v : list B) :
  length (map2 f u v) = Nat.min (length u) (length v).
Proof.
  revert v. induction u as [|a u IH]; intros [|b v]; try reflexivity.
  cbn [map2 length Nat.min]. f_equal. apply IH.
Qed.

Lemma nth_map2 {A B C : Type} (f : A -> B -> C) (u : list A) (v : list B)
      (i : nat) (da : A) (db : B) (dc : C) :
  length u = length v -> (i < length u)%nat ->
  nth i (map2 f u v) dc = f (nth i u da) (nth i v db).
Proof.
  revert v i. induction u as [|a u IH]; intros [|b v] i H Hi; try discriminate;
    cbn [length] in Hi; [lia|].
  destruct i as [|i]; [reflexivity|].
  cbn [map2 nth]. apply IH; [injection H as H; exact H|lia].
Qed.

Lemma length_slice_step4 (off K : nat) (row : list Q) :
  (off < 4)%nat -> length row = (4 * K)%nat -> length (slice_step4 off row) = K.
Proof.
  intros Ho H. unfold slice_step4. rewrite length_map, length_seq, H.
  symmetry. apply (Nat.div_unique _ 4 K (3 - off)); lia.
Qed.

Lemma nth_slice_step4 (off K k : nat) (row : list Q) :
  (off < 4)%nat -> length row = (4 * K)%nat -> (k < K)%nat ->
  nth k (slice_step4 off row) 0%Q = nth (4 * k + off) row 0%Q.
Proof.
  intros Ho H Hk. unfold slice_step4.
  pose proof (length_slice_step4 off K row Ho H) as HL.
  unfold slice_step4 in HL. rewrite length_map, length_seq in HL. rewrite HL.
  rewrite nth_seq_map by exact Hk. f_equal. lia.
Qed.

Lemma assign_cols4_ok (off K : nat) (vals a : list (list Q)) :
  (off < 4)%nat -> length vals = length a ->
  Forall (fun v => length v = K) vals ->
  Forall (fun r => length r = (4 * K)%nat) a ->
  assign_cols4 off vals a = inr (map2 (put_step4 off) vals a).
Proof.
  intros Ho. revert a.
  induction vals as [|v vals IH]; intros [|r a] HL Hv Ha; try discriminate;
    [reflexivity|].
  inversion Hv as [|? ? Hv1 Hv2]; subst. inversion Ha as [|? ? Ha1 Ha2]; subst.
  cbn [assign_cols4]. unfold assign_step4 at 1.
  rewrite (length_slice_step4 off (length v) r Ho Ha1), Nat.eqb_refl.
  cbn [bind]. rewrite (IH a); [reflexivity|injection HL as HL; exact HL|exact Hv2|exact Ha2].
Qed.

Lemma put_step4_length (off : nat) (vals row : list Q) :
  length (put_step4 off vals row) = length row.
Proof. apply length_imap. Qed.

Lemma put_step4_nth (off : nat) (vals row : list Q) (k r : nat) :
  (r < 4)%nat -> (4 * k + r < length row)%nat ->
  nth (4 * k + r) (put_step4 off vals row) 0%Q
  = if (r =? off)%nat then nth k vals (nth (4 * k + r) row 0%Q)
    else nth (4 * k + r) row 0%Q.
Proof.
  intros Hr H. unfold put_step4. rewrite (nth_imap _ row _ 0%Q) by exact H.
  destruct (div_mod_4 k r Hr) as [-> ->]. reflexivity.
Qed.

(** ** Claim C6: the axis remap *)

Lemma map2_put_step4_lengths (off n : nat) (vals a : list (list Q)) :
  Forall (fun r => length r = n) a ->
  Forall (fun r => length r = n) (map2 (put_step4 off) vals a).
Proof.
  revert a. induction vals as [|v vals IH]; intros [|r a] Ha; try constructor.
  - rewrite put_step4_length. inversion Ha; assumption.
  - apply IH. inversion Ha; assumption.
Qed.

Lemma slices_lengths (off K : nat) (f : list Q -> list Q) (poses : list (list Q)) :
  (off < 4)%nat -> (forall l, length (f l) = length l) ->
  Forall (fun r => length r = (4 * K)%nat) poses ->
  Forall (fun v => length v = K) (map (fun r => f (slice_step4 off r)) poses).
Proof.
  intros Ho Hf H. rewrite Forall_map. revert H. apply Forall_impl.
  intros r Hr. rewrite Hf. apply length_slice_step4; assumption.
Qed.

(** On an array whose rows hold [K] 4-tuples the three assignments succeed. *)
Lemma axis_remap_ok (K : nat) (poses : list (list Q)) :
  Forall (fun r => length r = (4 * K)%nat) poses ->
  axis_remap poses
  = inr (map2 (put_step4 2) (neg (map (slice_step4 1) poses))
          (map2 (put_step4 1) (map (slice_step4 0) poses)
             (map2 (put_step4 0) (neg (map (slice_step4 2) poses)) poses))).
Proof.
  intros H. unfold axis_remap, neg. cbn [fst snd]. rewrite !map_map.
  assert (Hz := slices_lengths 2 K (map Qopp) poses ltac:(lia)
                  (fun l => length_map Qopp l) H).
  assert (Hy := slices_lengths 1 K (map Qopp) poses ltac:(lia)
                  (fun l => length_map Qopp l) H).
  assert (Hx := slices_lengths 0 K (fun l => l) poses ltac:(lia)
                  (fun l => eq_refl) H).
  rewrite (assign_cols4_ok 0 K) by (try rewrite length_map; auto).
  cbn [bind].
  rewrite (assign_cols4_ok 1 K);
    [|lia|rewrite length_map2, !length_map; auto; rewrite length_map; auto
     |exact Hx|apply map2_put_step4_lengths; exact H].
  cbn [bind].
  rewrite (assign_cols4_ok 2 K);
    [reflexivity|lia| |exact Hy|do 2 apply map2_put_step4_lengths; exact H].
  rewrite !length_map2, !length_map; auto; rewrite ?length_map; auto.
  rewrite length_map2; rewrite !length_map; auto.
Qed.

(** The remap keeps the shape of the array. *)
Lemma axis_remap_shape (poses : list (list Q)) :
  Forall (fun pose => length pose = 76%nat) poses ->
  exists out, axis_remap poses = inr out /\ length out = length poses /\
    Forall (fun pose => length pose = 76%nat) out.
Proof.
  intros H. eexists. split; [apply (axis_remap_ok 19 poses H)|]. split.
  - unfold neg. rewrite !length_map2_min, !length_map, !Nat.min_id. reflexivity.
  - do 3 apply map2_put_step4_lengths. exact H.
Qed.

(** C6: for every array of poses of length 76, the remap succeeds, keeps the
    shape, and for every person and every one of the 19 keypoints with
    coordinates (x, y, z) before the remap, the coordinates after it are
    (-z, x, -y); the fourth component is unchanged. *)
Theorem C6_axis_remap (poses_3d : list (list Q)) :
  Forall (fun pose => length pose = 76%nat) poses_3d ->
  exists out,
    axis_remap poses_3d = inr out /\
    length out = length poses_3d /\
    forall p k, (p < length poses_3d)%nat -> (k < 19)%nat ->
      let old := nth p poses_3d [] in
      let new := nth p out [] in
      length new = 76%nat /\
      nth (4 * k) new 0%Q = Qopp (nth (4 * k + 2) old 0%Q) /\
      nth (4 * k + 1) new 0%Q = nth (4 * k) old 0%Q /\
      nth (4 * k + 2) new 0%Q = Qopp (nth (4 * k + 1) old 0%Q) /\
      nth (4 * k + 3) new 0%Q = nth (4 * k + 3) old 0%Q.
Proof.
  intros H.
  assert (H4 : Forall (fun r => length r = (4 * 19)%nat) poses_3d) by exact H.
  eexists. split; [apply (axis_remap_ok 19 poses_3d H4)|].
  assert (L0 : length (map2 (put_step4 0) (neg (map (slice_step4 2) poses_3d)) poses_3d)
               = length poses_3d).
  { rewrite length_map2; unfold neg; rewrite !length_map; reflexivity. }
  assert (L1 : length (map2 (put_step4 1) (map (slice_step4 0) poses_3d)
                  (map2 (put_step4 0) (neg (map (slice_step4 2) poses_3d)) poses_3d))
               = length poses_3d).
  { rewrite length_map2; rewrite ?length_map; auto. }
  split.
  { rewrite length_map2; unfold neg; rewrite ?length_map; auto. }
  intros p k Hp Hk old new.
  assert (Hold : length old = (4 * 19)%nat).
  { apply (Forall_nth_in (fun r => length r = (4 * 19)%nat) poses_3d p [] H4 Hp). }
  assert (Enew : new = put_step4 2 (map Qopp (slice_step4 1 old))
                   (put_step4 1 (slice_step4 0 old)
                      (put_step4 0 (map Qopp (slice_step4 2 old)) old))).
  { unfold new, neg.
    rewrite (nth_map2 _ _ _ p [] [] [])
      by (rewrite ?length_map; auto).
    rewrite (nth_map2 _ _ _ p [] [] [])
      by (rewrite ?length_map; auto).
    rewrite (nth_map2 _ _ _ p [] [] [])
      by (rewrite ?length_map; auto).
    rewrite !map_map.
    rewrite !(nth_map_in _ poses_3d p []) by exact Hp.
    reflexivity. }
  rewrite Enew.
  assert (Sl : forall off, (off < 4)%nat ->
             nth k (slice_step4 off old) 0%Q = nth (4 * k + off) old 0%Q).
  { intros off Ho. apply (nth_slice_step4 off 19 k old Ho Hold Hk). }
  assert (Sn : forall off d, (off < 4)%nat ->
             nth k (map Qopp (slice_step4 off old)) d
             = Qopp (nth (4 * k + off) old 0%Q)).
  { intros off d Ho. rewrite (nth_map_in _ _ k 0%Q)
      by (rewrite (length_slice_step4 off 19 old Ho Hold); exact Hk).
    rewrite Sl by exact Ho. reflexivity. }
  split; [rewrite !put_step4_length; exact Hold|].
  assert (P : forall off vals row r, (r < 4)%nat -> length row = (4 * 19)%nat ->
             nth (4 * k + r) (put_step4 off vals row) 0%Q
             = if (r =? off)%nat then nth k vals (nth (4 * k + r) row 0%Q)
               else nth (4 * k + r) row 0%Q).
  { intros off vals row r Hr Hrow. apply put_step4_nth; [exact Hr|lia]. }
  assert (P0 : forall off vals row, length row = (4 * 19)%nat ->
             nth (4 * k) (put_step4 off vals row) 0%Q
             = if (0 =? off)%nat then nth k vals (nth (4 * k) row 0%Q)
               else nth (4 * k) row 0%Q).
  { intros off vals row Hrow. pose proof (P off vals row 0%nat ltac:(lia) Hrow) as E.
    rewrite Nat.add_0_r in E. exact E. }
  assert (L : forall off vals, length (put_step4 off vals old) = (4 * 19)%nat).
  { intros. rewrite put_step4_length. exact Hold. }
  assert (L' : forall off vals off' vals',
             length (put_step4 off vals (put_step4 off' vals' old)) = (4 * 19)%nat).
  { intros. rewrite put_step4_length. apply L. }
  repeat split.
  - rewrite P0 by apply L'. cbn [Nat.eqb].
    rewrite P0 by apply L. cbn [Nat.eqb].
    rewrite P0 by exact Hold. cbn [Nat.eqb].
    apply Sn. lia.
  - rewrite P by (try apply L'; lia). cbn [Nat.eqb].
    rewrite P by (try apply L; lia). cbn [Nat.eqb].
    rewrite (nth_indep _ _ 0%Q)
      by (rewrite (length_slice_step4 0 19 old ltac:(lia) Hold); exact Hk).
    rewrite Sl by lia. rewrite Nat.add_0_r. reflexivity.
  - rewrite P by (try apply L'; lia). cbn [Nat.eqb].
    apply Sn. lia.
  - rewrite P by (try apply L'; lia). cbn [Nat.eqb].
    rewrite P by (try apply L; lia). cbn [Nat.eqb].
    rewrite P by (try exact Hold; lia). cbn [Nat.eqb]. reflexivity.
Qed.

Lemma C6_axis_remap_witness :
  Forall (fun pose => length pose = 76%nat)
         [map (fun i => inject_Z (Z.of_nat i)) (seq 0 76)] /\
  exists out,
    axis_remap [map (fun i => inject_Z (Z.of_nat i)) (seq 0 76)] = inr out /\
    length out = 1%nat /\
    forall p k, (p < 1)%nat -> (k < 19)%nat ->
      let old := nth p [map (fun i => inject_Z (Z.of_nat i)) (seq 0 76)] [] in
      let new := nth p out [] in
      length new = 76%nat /\
      nth (4 * k) new 0%Q = Qopp (nth (4 * k + 2) old 0%Q) /\
      nth (4 * k + 1) new 0%Q = nth (4 * k) old 0%Q /\
      nth (4 * k + 2) new 0%Q = Qopp (nth (4 * k + 1) old 0%Q) /\
      nth (4 * k + 3) new 0%Q = nth (4 * k + 3) old 0%Q.
Proof.
  assert (H : Forall (fun pose => length pose = 76%nat)
                     [map (fun i => inject_Z (Z.of_nat i)) (seq 0 76)]).
  { constructor; [reflexivity|constructor]. }
  split; [exact H|].
  exact (C6_axis_remap [map (fun i => inject_Z (Z.of_nat i)) (seq 0 76)] H).
Defined.

(** ** Claim C5: [rotate_poses] *)

(** [linalg_inv] returns the inverse of every matrix with a nonzero
    determinant. *)
Lemma linalg_inv_ok (R : mat3) :
  ~ (det3 R == 0)%Q ->
  exists R_inv, linalg_inv R = inr R_inv /\
    mat3_eq (mat3_mul R_inv R) mat3_id /\ mat3_eq (mat3_mul R R_inv) mat3_id.
Proof.
  destruct R as [[[[a b] c] [[d e] f]] [[g h] i]]. intros Hd.
  unfold linalg_inv. cbv zeta.
  destruct (Qeq_bool (det3 _) 0) eqn:E.
  { apply Qeq_bool_iff in E. contradiction. }
  eexists. split; [reflexivity|].
  unfold det3 in *. unfold mat3_eq, mat3_mul, mat3_id.
  repeat split; field; exact Hd.
Qed.

Lemma nth_chunks4 (K k i : nat) (pose : list Q) :
  (k < K)%nat -> (i < 4)%nat ->
  nth i (nth k (chunks 4 K pose) []) 0%Q = nth (4 * k + i) pose 0%Q.
Proof.
  intros Hk Hi. unfold chunks. rewrite nth_seq_map by exact Hk.
  rewrite nth_firstn. replace (i <? 4)%nat with true by (symmetry; apply Nat.ltb_lt; exact Hi).
  rewrite nth_skipn. f_equal. lia.
Qed.

Lemma reshape_rows_of_4 (K : nat) (pose : list Q) :
  length pose = (4 * K)%nat -> reshape_rows_of 4 pose = inr (chunks 4 K pose).
Proof.
  intros H. unfold reshape_rows_of. cbn [Nat.eqb]. rewrite H.
  destruct (div_mod_4 K 0 ltac:(lia)) as [Ed Em]. rewrite Nat.add_0_r in Ed, Em.
  rewrite Em, Ed. reflexivity.
Qed.

Lemma nth_column (j k : nat) (M : list (list Q)) :
  (k < length M)%nat -> nth k (column j M) 0%Q = nth j (nth k M []) 0%Q.
Proof.
  intros H. unfold column.
  exact (nth_map_in (fun r : list Q => nth j r 0%Q) M k [] 0%Q H).
Qed.

(** One pose of [K] keypoints: the buffer returned holds, for every keypoint,
    the product of [R_inv] with the shifted point, then the confidence. *)
Lemma rotate_pose_ok (R_inv : mat3) (t : vec3) (K : nat) (pose : list Q) :
  length pose = (4 * K)%nat ->
  exists new, rotate_pose R_inv t pose = inr new /\
    length new = (4 * K)%nat /\
    forall k, (k < K)%nat ->
      vec3_eq (nth (4 * k) new 0%Q, nth (4 * k + 1) new 0%Q, nth (4 * k + 2) new 0%Q)
              (mat3_apply R_inv
                 (vec3_sub (nth (4 * k) pose 0%Q, nth (4 * k + 1) pose 0%Q,
                            nth (4 * k + 2) pose 0%Q) t)) /\
      nth (4 * k + 3) new 0%Q = nth (4 * k + 3) pose 0%Q.
Proof.
  intros H. unfold rotate_pose. rewrite (reshape_rows_of_4 K pose H). cbn [bind].
  set (m := chunks 4 K pose).
  assert (Lm : length m = K) by (unfold m, chunks; rewrite length_map, length_seq; reflexivity).
  rewrite Lm.
  destruct R_inv as [[[[a b] c] [[d e] f]] [[g h] i]].
  destruct t as [[t0 t1] t2].
  cbn [transpose seq map firstn skipn sub_column vec3_list map2 mat3_rows np_dot app].
  set (S0 := map (fun v => (v - t0)%Q) (column 0 m)).
  set (S1 := map (fun v => (v - t1)%Q) (column 1 m)).
  set (S2 := map (fun v => (v - t2)%Q) (column 2 m)).
  set (M' := [_; _; _; column 3 m]).
  eexists. split; [reflexivity|].
  unfold transpose. rewrite <- flat_map_concat_map.
  assert (Hg : forall j, length (column j M') = 4%nat) by (intros j; reflexivity).
  split.
  { rewrite (flat_map_seq_length _ 4 Hg). lia. }
  intros k Hk.
  assert (E : forall r, (r < 4)%nat ->
            nth (4 * k + r) (flat_map (fun j => column j M') (seq 0 K)) 0%Q
            = nth r (column k M') 0%Q).
  { intros r Hr. replace (4 * k + r)%nat with (k * 4 + r)%nat by lia.
    apply (flat_map_seq_nth (fun j => column j M') 4 0%Q Hg K 0%nat k r Hk Hr). }
  assert (E0 := E 0%nat ltac:(lia)). rewrite Nat.add_0_r in E0.
  rewrite E0, !E by lia.
  assert (C : forall j, (j < 4)%nat ->
            nth k (column j m) 0%Q = nth (4 * k + j) pose 0%Q).
  { intros j Hj. rewrite nth_column by (rewrite Lm; exact Hk).
    apply nth_chunks4; assumption. }
  assert (LS : forall j tj, length (map (fun v => (v - tj)%Q) (column j m)) = K).
  { intros. unfold column. rewrite !length_map. exact Lm. }
  assert (LC : forall j, length (column j m) = K).
  { intros. unfold column. rewrite length_map. exact Lm. }
  assert (S : forall j tj, (j < 4)%nat ->
            nth k (map (fun v => (v - tj)%Q) (column j m)) 0%Q
            = (nth (4 * k + j) pose 0 - tj)%Q).
  { intros j tj Hj. rewrite (nth_map_in _ _ k 0%Q) by (rewrite LC; exact Hk).
    rewrite C by exact Hj. reflexivity. }
  unfold M'. cbn [column map nth].
  rewrite !nth_seq_map by exact Hk.
  unfold S0, S1, S2. cbn [column map nth dotp map2 fold_right].
  rewrite !S by lia. rewrite C by lia. rewrite !Nat.add_0_r.
  split; [|reflexivity].
  unfold vec3_eq, mat3_apply, vec3_sub. repeat split; ring.
Qed.

Lemma for_each_ok {A B : Type} (f : A -> exn + B) (P : A -> B -> Prop) (l : list A) :
  (forall a, In a l -> exists b, f a = inr b /\ P a b) ->
  exists bs, for_each f l = inr bs /\ Forall2 P l bs.
Proof.
  induction l as [|a l IH]; intros H.
  - exists []. split; [reflexivity|constructor].
  - destruct (H a (or_introl eq_refl)) as (b & Hb & Pb).
    destruct IH as (bs & Hbs & Pbs); [intros x Hx; apply H; right; exact Hx|].
    exists (b :: bs). cbn [for_each]. rewrite Hb. cbn [bind]. rewrite Hbs.
    split; [reflexivity|constructor; assumption].
Qed.

Lemma Forall2_nth_pair {A B : Type} (P : A -> B -> Prop) (l : list A) (l' : list B)
      (p : nat) (d : A) (d' : B) :
  Forall2 P l l' -> (p < length l)%nat -> P (nth p l d) (nth p l' d').
Proof.
  intros H. revert p. induction H as [|a b l l' Hab _ IH]; intros p Hp;
    cbn [length] in Hp; [lia|].
  destruct p as [|p]; [exact Hab|]. apply IH. lia.
Qed.

Lemma Forall2_right {A B : Type} (P : B -> Prop) (Q : A -> B -> Prop)
      (l : list A) (l' : list B) :
  (forall a b, Q a b -> P b) -> Forall2 Q l l' -> Forall P l'.
Proof.
  intros H F. induction F; constructor; eauto.
Qed.

(** [rotate_poses] keeps the shape of the array. *)
Lemma rotate_poses_shape (poses : list (list Q)) (R : mat3) (t : vec3) :
  Forall (fun pose => length pose = 76%nat) poses ->
  ~ (det3 R == 0)%Q ->
  exists out, rotate_poses poses R t = inr out /\ length out = length poses /\
    Forall (fun pose => length pose = 76%nat) out.
Proof.
  intros H Hd.
  destruct (linalg_inv_ok R Hd) as (R_inv & Hinv & _).
  destruct (for_each_ok (rotate_pose R_inv t)
              (fun _ new => length new = 76%nat) poses) as (out & Hout & Hall).
  { intros pose Hin. rewrite Forall_forall in H.
    destruct (rotate_pose_ok R_inv t 19 pose (H pose Hin)) as (new & E & L & _).
    exists new. split; [exact E|exact L]. }
  exists out. unfold rotate_poses. rewrite Hinv. cbn [bind].
  split; [exact Hout|]. split.
  - symmetry. exact (Forall2_length Hall).
  - apply (Forall2_right _ _ _ _ (fun _ _ E => E) Hall).
Qed.

(** C5: for every non-empty array of flattened poses of length 76, every 3x3
    matrix R with nonzero determinant and every translation t, [rotate_poses]
    succeeds and keeps the shape of the array; with R_inv the inverse of R,
    the (x, y, z) of every keypoint of every pose becomes
    R_inv . ((x, y, z) - t), and the confidence of every keypoint is
    unchanged. *)
Theorem C5_rotate_poses (poses_3d : list (list Q)) (R : mat3) (t : vec3) :
  poses_3d <> [] ->
  Forall (fun pose => length pose = 76%nat) poses_3d ->
  ~ (det3 R == 0)%Q ->
  exists R_inv out,
    linalg_inv R = inr R_inv /\
    mat3_eq (mat3_mul R_inv R) mat3_id /\
    mat3_eq (mat3_mul R R_inv) mat3_id /\
    rotate_poses poses_3d R t = inr out /\
    length out = length poses_3d /\
    forall p k, (p < length poses_3d)%nat -> (k < 19)%nat ->
      let old := nth p poses_3d [] in
      let new := nth p out [] in
      length new = 76%nat /\
      vec3_eq (nth (4 * k) new 0%Q, nth (4 * k + 1) new 0%Q, nth (4 * k + 2) new 0%Q)
              (mat3_apply R_inv
                 (vec3_sub (nth (4 * k) old 0%Q, nth (4 * k + 1) old 0%Q,
                            nth (4 * k + 2) old 0%Q) t)) /\
      nth (4 * k + 3) new 0%Q = nth (4 * k + 3) old 0%Q.
Proof.
  intros _ H Hd.
  destruct (linalg_inv_ok R Hd) as (R_inv & Hinv & Hl & Hr).
  exists R_inv.
  destruct (for_each_ok (rotate_pose R_inv t)
              (fun pose new =>
                 length new = (4 * 19)%nat /\
                 forall k, (k < 19)%nat ->
                   vec3_eq (nth (4 * k) new 0%Q, nth (4 * k + 1) new 0%Q,
                            nth (4 * k + 2) new 0%Q)
                           (mat3_apply R_inv
                              (vec3_sub (nth (4 * k) pose 0%Q, nth (4 * k + 1) pose 0%Q,
                                         nth (4 * k + 2) pose 0%Q) t)) /\
                   nth (4 * k + 3) new 0%Q = nth (4 * k + 3) pose 0%Q)
              poses_3d) as (out & Hout & Hall).
  { intros pose Hin. rewrite Forall_forall in H.
    destruct (rotate_pose_ok R_inv t 19 pose (H pose Hin)) as (new & E & L & Hk).
    exists new. auto. }
  exists out. unfold rotate_poses. rewrite Hinv. cbn [bind].
  split; [reflexivity|]. split; [exact Hl|]. split; [exact Hr|].
  split; [exact Hout|]. split; [symmetry; exact (Forall2_length Hall)|].
  intros p k Hp Hk.
  pose proof (Forall2_nth_pair _ _ _ p [] [] Hall Hp) as Hrow. cbv beta in Hrow.
  destruct Hrow as [HL HK]. split; [exact HL|]. exact (HK k Hk).
Qed.

Lemma C5_rotate_poses_witness :
  [map (fun i => inject_Z (Z.of_nat i)) (seq 0 76)] <> [] /\
  Forall (fun pose => length pose = 76%nat)
         [map (fun i => inject_Z (Z.of_nat i)) (seq 0 76)] /\
  ~ (det3 ((0, -1, 0), (1, 0, 0), (0, 0, 2)) == 0)%Q /\
  exists R_inv out,
    linalg_inv ((0, -1, 0), (1, 0, 0), (0, 0, 2))%Q = inr R_inv /\
    mat3_eq (mat3_mul R_inv ((0, -1, 0), (1, 0, 0), (0, 0, 2))%Q) mat3_id /\
    mat3_eq (mat3_mul ((0, -1, 0), (1, 0, 0), (0, 0, 2))%Q R_inv) mat3_id /\
    rotate_poses [map (fun i => inject_Z (Z.of_nat i)) (seq 0 76)]
                 ((0, -1, 0), (1, 0, 0), (0, 0, 2))%Q (1, 1, 1)%Q = inr out /\
    length out = 1%nat /\
    forall p k, (p < 1)%nat -> (k < 19)%nat ->
      let old := nth p [map (fun i => inject_Z (Z.of_nat i)) (seq 0 76)] [] in
      let new := nth p out [] in
      length new = 76%nat /\
      vec3_eq (nth (4 * k) new 0%Q, nth (4 * k + 1) new 0%Q, nth (4 * k + 2) new 0%Q)
              (mat3_apply R_inv
                 (vec3_sub (nth (4 * k) old 0%Q, nth (4 * k + 1) old 0%Q,
                            nth (4 * k + 2) old 0%Q) (1, 1, 1)%Q)) /\
      nth (4 * k + 3) new 0%Q = nth (4 * k + 3) old 0%Q.
Proof.
  assert (H1 : [map (fun i => inject_Z (Z.of_nat i)) (seq 0 76)] <> [])
    by discriminate.
  assert (H2 : Forall (fun pose => length pose = 76%nat)
                      [map (fun i => inject_Z (Z.of_nat i)) (seq 0 76)]).
  { constructor; [reflexivity|constructor]. }
  assert (H3 : ~ (det3 ((0, -1, 0), (1, 0, 0), (0, 0, 2)) == 0)%Q).
  { intros E. vm_compute in E. discriminate E. }
  split; [exact H1|]. split; [exact H2|]. split; [exact H3|].
  exact (C5_rotate_poses [map (fun i => inject_Z (Z.of_nat i)) (seq 0 76)]
           ((0, -1, 0), (1, 0, 0), (0, 0, 2))%Q (1, 1, 1)%Q H1 H2 H3).
Defined.

(** ** The loop computations *)

Lemma fst_bindM {A B : Type} (m : M A) (k : A -> M B) :
  fst (bindM m k)
  = fst m ++ match snd m with inl _ => [] | inr a => fst (k a) end.
Proof.
  unfold bindM. destruct (snd m); cbn [fst]; [rewrite app_nil_r|]; reflexivity.
Qed.

Lemma snd_bindM {A B : Type} (m : M A) (k : A -> M B) :
  snd (bindM m k) = match snd m with inl s => inl s | inr a => snd (k a) end.
Proof. unfold bindM. destruct (snd m); reflexivity. Qed.

Section MainFacts.

Variable R : mat3.
Variable t : vec3.
Variable is_video : bool.
Variable rotate3d : bool.
Variable SKELETON_EDGES : list edge.
Variable plot_raises : pose_array -> list edge -> bool.

Local Abbreviation body' := (body R t is_video rotate3d SKELETON_EDGES plot_raises).
Local Abbreviation main_loop' := (main_loop R t is_video rotate3d SKELETON_EDGES plot_raises).
Local Abbreviation render' := (render R t is_video SKELETON_EDGES plot_raises).
Local Abbreviation poll' := (poll rotate3d plot_raises).

(** The body of the loop, stage by stage. *)
Lemma body_eq (frame_id : nat) (it : iteration) (st : state) (keys : list Z) :
  body' frame_id it st keys =
  match frame it with
  | None => ([Fetch frame_id], inl EndOfStream)
  | Some f =>
      match configure st f with
      | (ev1, inl s) => (Fetch frame_id :: ev1, inl s)
      | (ev1, inr st1) =>
          match input_scale f with
          | inl e => (Fetch frame_id :: ev1, inl (Raised e))
          | inr sc =>
              match cv_resize f sc with
              | inl e => (Fetch frame_id :: ev1, inl (Raised e))
              | inr sh =>
                  let st2 := focal st1 f in
                  let head :=
                    Fetch frame_id :: ev1 ++
                    repeat (Infer (1, 3, shape0 (crop_to_stride sh),
                                   shape1 (crop_to_stride sh)))
                           (if is_video then 1 else 5) ++
                    [ParsePoses sc STRIDE (fx st2) is_video] in
                  match render' frame_id (decoded it) with
                  | (ev2, inl s) => (head ++ ev2, inl s)
                  | (ev2, inr scene) =>
                      match show_fps st2 (elapsed it) with
                      | (ev3, inl s) => (head ++ ev2 ++ ev3, inl s)
                      | (ev3, inr st3) =>
                          (head ++ ev2 ++ ev3 ++
                           [if is_video then ImshowFrame else ImwriteFrame] ++
                           fst (poll' st3 scene keys),
                           snd (poll' st3 scene keys))
                      end
                  end
              end
          end
      end
  end.
Proof.
  unfold body, bindM.
  destruct (frame it) as [f|]; [|reflexivity]. cbn.
  destruct (configure st f) as [ev1 [s|st1]]; cbn; [reflexivity|].
  destruct (input_scale f) as [e|sc]; cbn; [rewrite ?app_nil_r; reflexivity|].
  destruct (cv_resize f sc) as [e|sh]; cbn; [rewrite ?app_nil_r; reflexivity|].
  destruct (render' frame_id (decoded it)) as [ev2 [s|scene]]; cbn;
    [rewrite ?app_nil_r, <- ?app_assoc; reflexivity|].
  destruct (show_fps (focal st1 f) (elapsed it)) as [ev3 [s|st3]]; cbn;
    rewrite ?app_nil_r, <- ?app_assoc; reflexivity.
Qed.

Lemma plot_eq (scene : pose_array * list edge) :
  plot plot_raises scene
  = ([Plot (fst scene) (snd scene)],
     if plot_raises (fst scene) (snd scene) then inl (Raised PlotError) else inr tt).
Proof.
  unfold plot, bindM. cbn. destruct (plot_raises _ _); reflexivity.
Qed.

Lemma rotate_loop_eq (scene : pose_array * list edge) (keys : list Z) :
  rotate_loop plot_raises scene keys =
  if plot_raises (fst scene) (snd scene)
  then ([Plot (fst scene) (snd scene)], inl (Raised PlotError))
  else
    match keys with
    | [] => ([Plot (fst scene) (snd scene); ImshowCanvas], inl KeysExhausted)
    | key :: keys' =>
        if (key =? p_code) || (key =? esc_code) || (key =? space_code)
        then ([Plot (fst scene) (snd scene); ImshowCanvas; WaitKey 33 key],
              inr (key, keys'))
        else (Plot (fst scene) (snd scene) :: ImshowCanvas :: WaitKey 33 key
                :: fst (rotate_loop plot_raises scene keys'),
              snd (rotate_loop plot_raises scene keys'))
    end.
Proof.
  destruct keys as [|key keys']; cbn [rotate_loop]; rewrite plot_eq;
    unfold bindM; cbn; destruct (plot_raises _ _); cbn; try reflexivity.
  destruct ((key =? p_code) || (key =? esc_code) || (key =? space_code));
    reflexivity.
Qed.

Lemma poll_eq (st : state) (scene : pose_array * list edge) (keys : list Z) :
  poll' st scene keys =
  match keys with
  | [] => ([], inl KeysExhausted)
  | key :: keys' =>
      if key =? esc_code then ([WaitKey (delay st) key], inl EscPressed)
      else
        let st1 :=
          if key =? p_code then set_delay st (if delay st =? 1 then 0 else 1)
          else st in
        if (delay st1 =? 0) && rotate3d then
          match rotate_loop plot_raises scene keys' with
          | (ev, inl s) => (WaitKey (delay st) key :: ev, inl s)
          | (ev, inr r) =>
              (WaitKey (delay st) key :: ev,
               if fst r =? esc_code then inl EscPressed
               else inr (set_delay st1 1, snd r))
          end
        else ([WaitKey (delay st) key], inr (st1, keys'))
  end.
Proof.
  destruct keys as [|key keys']; [reflexivity|].
  unfold poll, bindM. cbn.
  destruct (key =? esc_code); [reflexivity|]. cbv zeta.
  destruct ((delay _ =? 0) && rotate3d); [|reflexivity].
  destruct (rotate_loop plot_raises scene keys') as [ev [s|r]]; cbn;
    [reflexivity|].
  destruct (fst r =? esc_code); cbn; rewrite ?app_nil_r; reflexivity.
Qed.

Lemma configure_eq (st : state) (f : shape2) :
  configure st f =
  if base_width_calculated st then ([], inr st)
  else
    match base_width f with
    | inl e => ([], inl (Raised e))
    | inr w => ([SetInputShape (1, 3, IMAGE_HEIGHT, w)], inr (set_base_width st w))
    end.
Proof.
  unfold configure. destruct (base_width_calculated st); [reflexivity|].
  destruct (base_width f); reflexivity.
Qed.

Lemma show_fps_eq (st : state) (current_time : Q) :
  show_fps st current_time =
  let m := update_mean_time (mean_time st) current_time in
  if Qeq_bool m 0 then ([], inl (Raised ZeroDivisionError))
  else ([PutText m], inr (set_mean_time st m)).
Proof.
  unfold show_fps, fps_text, bindM. cbn.
  destruct (Qeq_bool _ 0); reflexivity.
Qed.

Lemma render_eq (frame_id : nat) (poses_3d : list (list Q)) :
  render' frame_id poses_3d =
  match transform R t SKELETON_EDGES poses_3d with
  | inl e => ([], inl (Raised e))
  | inr scene =>
      if plot_raises (fst scene) (snd scene)
      then ([Plot (fst scene) (snd scene)], inl (Raised PlotError))
      else ([Plot (fst scene) (snd scene);
             if is_video then ImshowCanvas else ImwriteCanvas frame_id;
             DrawPoses], inr scene)
  end.
Proof.
  unfold render, plot, bindM.
  destruct (transform R t SKELETON_EDGES poses_3d) as [e|scene]; [reflexivity|].
  cbn. destruct (plot_raises _ _); reflexivity.
Qed.

(** The key polling only waits, replots and redisplays. *)
Lemma rotate_loop_ui (scene : pose_array * list edge) (keys : list Z) :
  forallb is_ui_event (fst (rotate_loop plot_raises scene keys)) = true.
Proof.
  induction keys as [|key keys' IH]; rewrite rotate_loop_eq;
    destruct (plot_raises _ _); try reflexivity.
  destruct ((key =? p_code) || (key =? esc_code) || (key =? space_code));
    [reflexivity|]. cbn [fst forallb is_ui_event andb]. exact IH.
Qed.

Lemma poll_ui (st : state) (scene : pose_array * list edge) (keys : list Z) :
  forallb is_ui_event (fst (poll' st scene keys)) = true.
Proof.
  rewrite poll_eq. destruct keys as [|key keys']; [reflexivity|].
  destruct (key =? esc_code); [reflexivity|]. cbv zeta.
  destruct ((delay _ =? 0) && rotate3d); [|reflexivity].
  pose proof (rotate_loop_ui scene keys') as H.
  destruct (rotate_loop plot_raises scene keys') as [ev [s|r]]; exact H.
Qed.

Lemma ui_observations (l : list event) :
  forallb is_ui_event l = true ->
  input_shapes l = [] /\ blob_shapes l = [] /\ focal_lengths l = [] /\
  mean_times l = [] /\ fetches l = [].
Proof.
  induction l as [|e l IH]; intros H; [repeat split|].
  cbn [forallb] in H. apply andb_prop in H. destruct H as [He Hl].
  destruct (IH Hl) as (H1 & H2 & H3 & H4 & H5).
  unfold input_shapes, blob_shapes, focal_lengths, mean_times, fetches in *.
  destruct e; try discriminate He; cbn [flat_map app];
    rewrite ?H1, ?H2, ?H3, ?H4, ?H5; repeat split.
Qed.

(** The key polling changes nothing but [delay]. *)
Lemma poll_next (st st' : state) (scene : pose_array * list edge) (keys keys' : list Z) :
  snd (poll' st scene keys) = inr (st', keys') ->
  st' = set_delay st (delay st') /\
  (delay st = 0 \/ delay st = 1 -> delay st' = 0 \/ delay st' = 1) /\
  (rotate3d = true -> delay st' = 1 \/ delay st' = delay st).
Proof.
  rewrite poll_eq. destruct keys as [|key keys0]; [discriminate|].
  destruct (key =? esc_code); [discriminate|]. cbv zeta.
  set (st1 := if key =? p_code
              then set_delay st (if delay st =? 1 then 0 else 1) else st).
  assert (H1 : forall d, set_delay st1 d = set_delay st d)
    by (intros d; unfold st1; destruct (key =? p_code); reflexivity).
  assert (H2 : delay st = 0 \/ delay st = 1 -> delay st1 = 0 \/ delay st1 = 1).
  { unfold st1. destruct (key =? p_code); cbn [delay set_delay]; [|tauto].
    destruct (delay st =? 1); lia. }
  assert (H3 : delay st1 <> 0 -> delay st1 = 1 \/ delay st1 = delay st).
  { unfold st1. destruct (key =? p_code); cbn [delay set_delay]; [|tauto].
    destruct (delay st =? 1); lia. }
  assert (Hid : st1 = set_delay st1 (delay st1)) by (destruct st1; reflexivity).
  destruct ((delay st1 =? 0) && rotate3d) eqn:E.
  - destruct (rotate_loop plot_raises scene keys0) as [ev [s|r]];
      cbn [snd]; [discriminate|].
    destruct (fst r =? esc_code); [discriminate|].
    intros H. injection H as <- <-. cbn [delay set_delay].
    split; [apply H1|]. split; intros; [right|left]; reflexivity.
  - cbn [snd]. intros H. injection H as <- <-.
    split; [rewrite <- H1; exact Hid|]. split; [exact H2|].
    intros Hr. rewrite Hr, andb_true_r in E. apply Z.eqb_neq in E.
    apply H3. exact E.
Qed.

Lemma input_shapes_app (a b : list event) : input_shapes (a ++ b) = input_shapes a ++ input_shapes b.
Proof. apply flat_map_app. Qed.

Lemma input_shapes_cons (e : event) (l : list event) : input_shapes (e :: l) = input_shapes [e] ++ input_shapes l.
Proof. apply (input_shapes_app [e] l). Qed.

Lemma input_shapes_poll (st : state) (scene : pose_array * list edge) (keys : list Z) :
  input_shapes (fst (poll' st scene keys)) = [].
Proof. apply (ui_observations _ (poll_ui st scene keys)). Qed.

Lemma blob_shapes_app (a b : list event) : blob_shapes (a ++ b) = blob_shapes a ++ blob_shapes b.
Proof. apply flat_map_app. Qed.

Lemma blob_shapes_cons (e : event) (l : list event) : blob_shapes (e :: l) = blob_shapes [e] ++ blob_shapes l.
Proof. apply (blob_shapes_app [e] l). Qed.

Lemma blob_shapes_poll (st : state) (scene : pose_array * list edge) (keys : list Z) :
  blob_shapes (fst (poll' st scene keys)) = [].
Proof. apply (ui_observations _ (poll_ui st scene keys)). Qed.

Lemma focal_lengths_app (a b : list event) : focal_lengths (a ++ b) = focal_lengths a ++ focal_lengths b.
Proof. apply flat_map_app. Qed.

Lemma focal_lengths_cons (e : event) (l : list event) : focal_lengths (e :: l) = focal_lengths [e] ++ focal_lengths l.
Proof. apply (focal_lengths_app [e] l). Qed.

Lemma focal_lengths_poll (st : state) (scene : pose_array * list edge) (keys : list Z) :
  focal_lengths (fst (poll' st scene keys)) = [].
Proof. apply (ui_observations _ (poll_ui st scene keys)). Qed.

Lemma mean_times_app (a b : list event) : mean_times (a ++ b) = mean_times a ++ mean_times b.
Proof. apply flat_map_app. Qed.

Lemma mean_times_cons (e : event) (l : list event) : mean_times (e :: l) = mean_times [e] ++ mean_times l.
Proof. apply (mean_times_app [e] l). Qed.

Lemma mean_times_poll (st : state) (scene : pose_array * list edge) (keys : list Z) :
  mean_times (fst (poll' st scene keys)) = [].
Proof. apply (ui_observations _ (poll_ui st scene keys)). Qed.

Lemma fetches_app (a b : list event) : fetches (a ++ b) = fetches a ++ fetches b.
Proof. apply flat_map_app. Qed.

Lemma fetches_cons (e : event) (l : list event) : fetches (e :: l) = fetches [e] ++ fetches l.
Proof. apply (fetches_app [e] l). Qed.

Lemma fetches_poll (st : state) (scene : pose_array * list edge) (keys : list Z) :
  fetches (fst (poll' st scene keys)) = [].
Proof. apply (ui_observations _ (poll_ui st scene keys)). Qed.

Create Rewrite HintDb obs.

#[local] Hint Rewrite input_shapes_app blob_shapes_app focal_lengths_app mean_times_app
  fetches_app input_shapes_poll blob_shapes_poll focal_lengths_poll
  mean_times_poll fetches_poll app_nil_r : obs.

Lemma focal_set_base_width (st : state) (w : Z) (f : shape2) :
  focal (set_base_width st w) f = set_base_width (focal st f) w.
Proof. unfold focal. cbn [fx set_base_width]. destruct (Qlt_le_dec _ _); reflexivity. Qed.

Lemma focal_mean_time (st : state) (f : shape2) :
  mean_time (focal st f) = mean_time st.
Proof. unfold focal. destruct (Qlt_le_dec _ _); reflexivity. Qed.

Lemma focal_delay (st : state) (f : shape2) : delay (focal st f) = delay st.
Proof. unfold focal. destruct (Qlt_le_dec _ _); reflexivity. Qed.

Lemma focal_base_width (st : state) (f : shape2) :
  base_width_calculated (focal st f) = base_width_calculated st /\
  IMAGE_WIDTH (focal st f) = IMAGE_WIDTH st.
Proof. unfold focal. destruct (Qlt_le_dec _ _); split; reflexivity. Qed.

(** What one iteration shows to the collaborators. *)
Lemma body_obs (frame_id : nat) (it : iteration) (st : state) (keys : list Z) :
  let ev := fst (body' frame_id it st keys) in
  fetches ev = [frame_id] /\
  match frame it with
  | None => input_shapes ev = [] /\ blob_shapes ev = [] /\
            focal_lengths ev = [] /\ mean_times ev = []
  | Some f =>
      input_shapes ev
      = (if base_width_calculated st then []
         else match base_width f with
              | inl _ => []
              | inr w => [(1, 3, IMAGE_HEIGHT, w)]
              end) /\
      (forall s, In s (blob_shapes ev) ->
         exists sh, preprocess_shape f = inr sh /\ s = (1, 3, shape0 sh, shape1 sh)) /\
      (forall v, In v (focal_lengths ev) -> v = fx (focal st f)) /\
      (forall m, In m (mean_times ev) ->
         m = update_mean_time (mean_time st) (elapsed it) /\ Qeq_bool m 0 = false) /\
      (length (mean_times ev) <= 1)%nat
  end.
Proof.
  cbv zeta. rewrite body_eq.
  destruct (frame it) as [f|]; [|repeat split].
  rewrite configure_eq.
  assert (Hpre : forall sc sh, input_scale f = inr sc -> cv_resize f sc = inr sh ->
            preprocess_shape f = inr (crop_to_stride sh)).
  { intros sc sh H1 H2. unfold preprocess_shape. rewrite H1, H2. reflexivity. }
  destruct (base_width_calculated st); [|destruct (base_width f) as [e|w]].
  all: destruct (input_scale f) as [e1|sc] eqn:Esc;
    [|destruct (cv_resize f sc) as [e2|sh] eqn:Esh;
      [|specialize (Hpre sc sh eq_refl Esh)]].
  all: rewrite ?focal_set_base_width; cbn [fx set_base_width].
  all: try rewrite render_eq.
  all: try match goal with
           | |- context [transform _ _ _ ?d] =>
               destruct (transform R t SKELETON_EDGES d) as [e3|scene];
               [|destruct (plot_raises (fst scene) (snd scene))]
           end.
  all: try rewrite show_fps_eq; cbv zeta; cbn [mean_time set_base_width].
  all: try match goal with
           | |- context [Qeq_bool ?m 0] => destruct (Qeq_bool m 0) eqn:Em
           end.
  all: cbv zeta; cbn [fst]; destruct is_video; cbn [repeat];
    autorewrite with obs; cbn.
  all: repeat split; try lia.
  all: try (intros x Hx; cbn in Hx;
            repeat (destruct Hx as [Hx|Hx]; [subst x|]); try contradiction;
            eauto; fail).
  all: rewrite ?focal_mean_time in *.
  all: repeat match goal with
              | H : _ \/ _ |- _ => destruct H as [H|H]
              | H : False |- _ => contradiction
              end.
  all: subst; eauto.
Qed.

(** What an iteration that reaches the next one leaves in the state. *)
Lemma body_next (frame_id : nat) (it : iteration) (st st' : state)
      (keys keys' : list Z) :
  snd (body' frame_id it st keys) = inr (st', keys') ->
  exists f sc sh,
    frame it = Some f /\ input_scale f = inr sc /\ cv_resize f sc = inr sh /\
    fx st' = fx (focal st f) /\
    mean_time st' = update_mean_time (mean_time st) (elapsed it) /\
    Qeq_bool (mean_time st') 0 = false /\
    mean_times (fst (body' frame_id it st keys)) = [mean_time st'] /\
    focal_lengths (fst (body' frame_id it st keys)) = [fx st'] /\
    base_width_calculated st' = true /\
    (if base_width_calculated st then IMAGE_WIDTH st' = IMAGE_WIDTH st
     else exists w, base_width f = inr w /\ IMAGE_WIDTH st' = Some w) /\
    (delay st = 0 \/ delay st = 1 -> delay st' = 0 \/ delay st' = 1) /\
    (rotate3d = true -> delay st' = 1 \/ delay st' = delay st).
Proof.
  rewrite body_eq.
  destruct (frame it) as [f|]; [|discriminate].
  rewrite configure_eq.
  destruct (base_width_calculated st) eqn:Ecalc;
    [|destruct (base_width f) as [e|w] eqn:Ew; [discriminate|]].
  all: destruct (input_scale f) as [e1|sc] eqn:Esc; [discriminate|].
  all: destruct (cv_resize f sc) as [e2|sh] eqn:Esh; [discriminate|].
  all: cbv beta iota zeta; rewrite render_eq;
    destruct (transform _ _ _ _) as [e3|scene]; [discriminate|];
    destruct (plot_raises (fst scene) (snd scene)); [discriminate|].
  all: cbv beta iota zeta; rewrite show_fps_eq; cbv zeta;
    rewrite ?focal_set_base_width; cbn [mean_time set_base_width];
    rewrite focal_mean_time;
    destruct (Qeq_bool (update_mean_time (mean_time st) (elapsed it)) 0) eqn:Em;
    [discriminate|].
  all: cbn [fst snd]; intros H; destruct (poll_next _ _ _ _ _ H) as (E & Hd1 & Hd2).
  all: exists f, sc, sh.
  all: cbn [delay set_mean_time set_base_width] in Hd1, Hd2;
    rewrite focal_delay in Hd1, Hd2.
  all: rewrite E; cbn [fx mean_time base_width_calculated IMAGE_WIDTH
                       set_delay set_mean_time set_base_width].
  all: destruct (focal_base_width st f) as [Eb Ei]; rewrite ?Eb, ?Ei, ?Ecalc.
  all: destruct is_video; cbn [repeat]; autorewrite with obs; cbn.
  all: repeat split; eauto.
Qed.

(** ** The loop *)

Lemma main_loop_cons (frame_id : nat) (it : iteration) (its : list iteration)
      (st : state) (keys : list Z) :
  main_loop' frame_id (it :: its) st keys =
  match snd (body' frame_id it st keys) with
  | inl s => ([(st, fst (body' frame_id it st keys))], s)
  | inr (st', keys') =>
      ((st, fst (body' frame_id it st keys))
         :: fst (main_loop' (S frame_id) its st' keys'),
       snd (main_loop' (S frame_id) its st' keys'))
  end.
Proof.
  cbn [main_loop]. cbv zeta.
  destruct (snd (body' frame_id it st keys)) as [s|[st' keys']]; reflexivity.
Qed.

(** A property of the state that every completed iteration preserves holds at
    the head of every iteration. *)
Lemma main_loop_invariant (P : state -> Prop) :
  (forall frame_id it st keys st' keys',
     P st -> snd (body' frame_id it st keys) = inr (st', keys') -> P st') ->
  forall its frame_id st keys,
    P st -> Forall (fun e => P (fst e)) (fst (main_loop' frame_id its st keys)).
Proof.
  intros Hstep its. induction its as [|it its IH]; intros frame_id st keys HP.
  - constructor.
  - rewrite main_loop_cons.
    destruct (snd (body' frame_id it st keys)) as [s|[st' keys']] eqn:E;
      cbn [fst]; constructor; try exact HP; [constructor|].
    apply IH. exact (Hstep _ _ _ _ _ _ HP E).
Qed.

(** Every recorded iteration is a run of the body on the frame of the same
    index. *)
Lemma main_loop_entry (its : list iteration) :
  forall frame_id st keys i sti evi,
    nth_error (fst (main_loop' frame_id its st keys)) i = Some (sti, evi) ->
    exists it keysi,
      nth_error its i = Some it /\
      evi = fst (body' (frame_id + i) it sti keysi).
Proof.
  induction its as [|it its IH]; intros frame_id st keys i sti evi H.
  - destruct i; discriminate H.
  - rewrite main_loop_cons in H.
    destruct (snd (body' frame_id it st keys)) as [s|[st' keys']] eqn:E;
      cbn [fst] in H; destruct i as [|i]; cbn [nth_error] in H.
    + injection H as <- <-. exists it, keys. rewrite Nat.add_0_r. split; reflexivity.
    + destruct i; discriminate H.
    + injection H as <- <-. exists it, keys. rewrite Nat.add_0_r. split; reflexivity.
    + destruct (IH _ _ _ _ _ _ H) as (it' & keysi & H1 & H2).
      exists it', keysi. split; [exact H1|].
      rewrite H2. f_equal. f_equal. lia.
Qed.

Lemma trace_cons (st : state) (ev : list event) (h : list (state * list event)) :
  trace ((st, ev) :: h) = ev ++ trace h.
Proof. reflexivity. Qed.

Lemma in_trace (e : event) (h : list (state * list event)) :
  In e (trace h) -> exists st ev, In (st, ev) h /\ In e ev.
Proof.
  unfold trace. intros H. apply in_concat in H. destruct H as (l & Hl & He).
  apply in_map_iff in Hl. destruct Hl as ([st ev] & <- & Hin).
  exists st, ev. split; assumption.
Qed.

Lemma in_flat_map_trace {A : Type} (v : A) (g : event -> list A)
      (h : list (state * list event)) :
  In v (flat_map g (trace h)) ->
  exists st ev, In (st, ev) h /\ In v (flat_map g ev).
Proof.
  intros H. apply in_flat_map in H. destruct H as (e & He & Hv).
  destruct (in_trace e h He) as (st & ev & Hin & Hev).
  exists st, ev. split; [exact Hin|]. apply in_flat_map. exists e. split; assumption.
Qed.

Lemma cv_resize_pos (f sh : shape2) (s : Q) :
  cv_resize f s = inr sh -> 0 < shape0 f /\ 0 < shape1 f.
Proof.
  unfold cv_resize.
  destruct (shape0 f <=? 0) eqn:E0; [discriminate|].
  destruct (shape1 f <=? 0) eqn:E1; [discriminate|].
  intros _. apply Z.leb_gt in E0, E1. lia.
Qed.

Lemma focal_initial (f : shape2) :
  focal initial_state f = set_fx initial_state ((8 # 10) * inject_Z (shape1 f))%Q.
Proof.
  unfold focal. destruct (Qlt_le_dec (fx initial_state) 0) as [_|H]; [reflexivity|].
  exfalso. revert H. cbn [fx initial_state]. unfold Qle. cbn. lia.
Qed.

Lemma focal_known (st : state) (f : shape2) :
  ~ (fx st < 0)%Q -> focal st f = st.
Proof.
  intros H. unfold focal. destruct (Qlt_le_dec (fx st) 0); [contradiction|reflexivity].
Qed.

(** ** Claim C10: the focal length *)

(** C10: in every run whose first frame is [f0], every call of the pose
    decoder receives the focal length 0.8 * (width of [f0]); at the head of
    every later iteration the stored focal length is that value and the
    assignment of line 147 no longer changes the state, whatever the width of
    the frame at hand. *)
Theorem C10_focal_length_fixed (it0 : iteration) (rest : list iteration)
        (keys : list Z) (f0 : shape2) :
  frame it0 = Some f0 ->
  let h := fst (main R t is_video rotate3d SKELETON_EDGES plot_raises
                     (it0 :: rest) keys) in
  let fx0 := ((8 # 10) * inject_Z (shape1 f0))%Q in
  Forall (fun v => v = fx0) (focal_lengths (trace h)) /\
  forall i st ev, nth_error h (S i) = Some (st, ev) ->
    fx st = fx0 /\ forall f, focal st f = st.
Proof.
  intros Hf h fx0. subst h. unfold main. rewrite main_loop_cons.
  pose proof (body_obs 0 it0 initial_state keys) as Hobs. cbv zeta in Hobs.
  rewrite Hf in Hobs. destruct Hobs as (_ & _ & _ & Hfl & _).
  rewrite focal_initial in Hfl. cbn [fx set_fx] in Hfl. fold fx0 in Hfl.
  destruct (snd (body' 0 it0 initial_state keys)) as [s|[st' keys']] eqn:E;
    cbn [fst].
  - split.
    + rewrite trace_cons. unfold trace. cbn [map concat]. rewrite app_nil_r.
      apply Forall_forall. exact Hfl.
    + intros i st ev H. destruct i; discriminate H.
  - destruct (body_next _ _ _ _ _ _ E)
      as (f & sc & sh & Hf' & _ & Hsh & Hfx & _).
    rewrite Hf in Hf'. injection Hf' as <-.
    rewrite focal_initial in Hfx. cbn [fx set_fx] in Hfx. fold fx0 in Hfx.
    assert (Hpos : ~ (fx0 < 0)%Q).
    { destruct (cv_resize_pos _ _ _ Hsh) as [_ Hw]. unfold fx0.
      apply Qle_not_lt. apply Qmult_le_0_compat; [discriminate|].
      unfold Qle. cbn. lia. }
    assert (Hinv : Forall (fun e => fx (fst e) = fx0)
                     (fst (main_loop' 1 rest st' keys'))).
    { apply (main_loop_invariant (fun st => fx st = fx0)); [|exact Hfx].
      intros fid it st ks st2 ks2 HP Hstep.
      destruct (body_next _ _ _ _ _ _ Hstep) as (f & _ & _ & _ & _ & _ & Hfx2 & _).
      rewrite Hfx2, focal_known; [exact HP|rewrite HP; exact Hpos]. }
    split.
    + rewrite trace_cons. apply Forall_forall. intros v Hv.
      rewrite focal_lengths_app in Hv. apply in_app_or in Hv.
      destruct Hv as [Hv|Hv]; [exact (Hfl v Hv)|].
      destruct (in_flat_map_trace v _ _ Hv) as (st & ev & Hin & Hv').
      rewrite Forall_forall in Hinv. pose proof (Hinv _ Hin) as HP. cbn [fst] in HP.
      destruct (In_nth_error _ _ Hin) as (n & Hn).
      destruct (main_loop_entry _ _ _ _ _ _ _ Hn) as (it & ks & _ & Hev).
      pose proof (body_obs (1 + n) it st ks) as Hobs. cbv zeta in Hobs.
      rewrite <- Hev in Hobs. destruct Hobs as (_ & Hobs).
      destruct (frame it) as [f|].
      * destruct Hobs as (_ & _ & Hfl' & _).
        rewrite (Hfl' v Hv'), focal_known; [exact HP|rewrite HP; exact Hpos].
      * destruct Hobs as (_ & _ & Hnil & _).
        unfold focal_lengths in Hnil. rewrite Hnil in Hv'. contradiction.
    + intros i st ev H. cbn [nth_error] in H.
      rewrite Forall_forall in Hinv.
      pose proof (Hinv _ (nth_error_In _ _ H)) as HP. cbn [fst] in HP.
      split; [exact HP|]. intros f'. apply focal_known. rewrite HP. exact Hpos.
Qed.

(** ** Claim C2: the input width of the engine *)



(** ** Claim C4: the smoothed frame time *)

(** The estimates drawn during a run follow the update rule from sample to
    sample, starting from the estimate in the state, and none of them is
    zero. *)
Lemma mean_times_chain (its : list iteration) :
  forall frame_id st keys i v,
    nth_error (mean_times (trace (fst (main_loop' frame_id its st keys)))) i = Some v ->
    exists s,
      nth_error (map elapsed its) i = Some s /\
      Qeq_bool v 0 = false /\
      match i with
      | O => v = update_mean_time (mean_time st) s
      | S j =>
          exists prev,
            nth_error (mean_times (trace (fst (main_loop' frame_id its st keys)))) j
            = Some prev /\
            Qeq_bool prev 0 = false /\
            v = update_mean_time prev s
      end.
Proof.
  induction its as [|it its IH]; intros frame_id st keys i v H.
  - destruct i; discriminate H.
  - rewrite main_loop_cons in H |- *.
    pose proof (body_obs frame_id it st keys) as Hobs. cbv zeta in Hobs.
    destruct Hobs as (_ & Hobs).
    destruct (snd (body' frame_id it st keys)) as [s|[st' keys']] eqn:E;
      cbn [fst] in H |- *; rewrite trace_cons, mean_times_app in H |- *.
    + unfold trace in H. cbn [map concat mean_times flat_map] in H.
      rewrite app_nil_r in H.
      destruct (frame it) as [f|].
      * destruct Hobs as (_ & _ & _ & Hm & Hlen).
        destruct (mean_times (fst (body' frame_id it st keys))) as [|m [|m' l]];
          [destruct i; discriminate H| |cbn [length] in Hlen; lia].
        destruct i as [|[|i]]; try discriminate H. injection H as ->.
        destruct (Hm v (or_introl eq_refl)) as [Hv Hz].
        exists (elapsed it). repeat split; assumption.
      * destruct Hobs as (_ & _ & _ & Hnil). rewrite Hnil in H.
        destruct i; discriminate H.
    + destruct (body_next _ _ _ _ _ _ E)
        as (f & sc & sh & Hfr & Hsc & Hsh & Hfx & Hmt & Hnz & Hmts & _).
      rewrite Hmts in H |- *. cbn [app] in H |- *.
      destruct i as [|i]; cbn [nth_error] in H.
      * injection H as <-. exists (elapsed it). repeat split; assumption.
      * destruct (IH _ _ _ _ _ H) as (s & Hs & Hz & Hi).
        exists s. split; [exact Hs|]. split; [exact Hz|].
        destruct i as [|j].
        -- exists (mean_time st'). cbn [nth_error]. repeat split; assumption.
        -- destruct Hi as (prev & Hp & Hpz & Hv).
           exists prev. cbn [nth_error]. repeat split; assumption.
Qed.


(** ** Claim C8: a frame without poses *)



Lemma update_mean_time_pos (m s : Q) :
  (0 <= m)%Q -> (0 < s)%Q -> (0 < update_mean_time m s)%Q.
Proof.
  intros Hm Hs. unfold update_mean_time.
  destruct (Qeq_bool m 0) eqn:E; [exact Hs|].
  apply Qeq_bool_neq in E. lra.
Qed.


(** ** Claim C1: the paused playback *)

Lemma rotate_loop_fetches (scene : pose_array * list edge) (keys : list Z) :
  fetches (fst (rotate_loop plot_raises scene keys)) = [].
Proof. apply (ui_observations _ (rotate_loop_ui scene keys)). Qed.

(** C1, amended.
    (a) Every iteration of the loop fetches one frame, whatever the delay.
    (b) Without the rotate option and with delay 0, the poll is one blocking
        wait: escape leaves the loop, 'p' sets the delay back to 1, every
        other key leaves the state as it is, and the loop goes on to the next
        iteration, which fetches the next frame.
    (c) With the rotate option the delay is 1 at the head of every iteration;
        the pause is spent inside the poll, which fetches no frame; in its
        re-render loop a key other than 'p', escape and space is ignored,
        'p' and space both end the loop with the delay back at 1, and escape
        leaves the main loop. *)
Theorem C1_paused_playback :
  (forall frame_id it st keys,
     fetches (fst (body' frame_id it st keys)) = [frame_id]) /\
  (rotate3d = false ->
   forall st scene key keys, delay st = 0 ->
     (key = esc_code ->
      poll' st scene (key :: keys) = ([WaitKey 0 key], inl EscPressed)) /\
     (key = p_code ->
      poll' st scene (key :: keys) = ([WaitKey 0 key], inr (set_delay st 1, keys))) /\
     (key <> esc_code -> key <> p_code ->
      poll' st scene (key :: keys) = ([WaitKey 0 key], inr (st, keys)))) /\
  (rotate3d = true ->
   (forall its keys,
      Forall (fun e => delay (fst e) = 1)
             (fst (main R t is_video rotate3d SKELETON_EDGES plot_raises its keys))) /\
   (forall st scene keys, fetches (fst (poll' st scene keys)) = []) /\
   (forall st scene keys, delay st = 1 ->
      poll' st scene (p_code :: keys)
      = (WaitKey 1 p_code :: fst (rotate_loop plot_raises scene keys),
         match snd (rotate_loop plot_raises scene keys) with
         | inl s => inl s
         | inr r => if fst r =? esc_code then inl EscPressed
                    else inr (set_delay st 1, snd r)
         end)) /\
   (forall scene key keys,
      plot_raises (fst scene) (snd scene) = false ->
      key <> p_code -> key <> esc_code -> key <> space_code ->
      rotate_loop plot_raises scene (key :: keys)
      = (Plot (fst scene) (snd scene) :: ImshowCanvas :: WaitKey 33 key
           :: fst (rotate_loop plot_raises scene keys),
         snd (rotate_loop plot_raises scene keys))) /\
   (forall scene key keys,
      plot_raises (fst scene) (snd scene) = false ->
      key = p_code \/ key = esc_code \/ key = space_code ->
      rotate_loop plot_raises scene (key :: keys)
      = ([Plot (fst scene) (snd scene); ImshowCanvas; WaitKey 33 key],
         inr (key, keys)))).
Proof.
  split; [|split].
  - intros frame_id it st keys.
    pose proof (body_obs frame_id it st keys) as H. cbv zeta in H. apply H.
  - intros Hr st scene key keys Hd. rewrite poll_eq, Hr, Hd.
    repeat split.
    + intros ->. reflexivity.
    + intros ->. reflexivity.
    + intros H1 H2. apply Z.eqb_neq in H1, H2. rewrite H1, H2. cbv zeta.
      rewrite Hd. cbn [Z.eqb andb]. reflexivity.
  - intros Hr. split; [|split; [|split; [|split]]].
    + intros its keys. unfold main.
      apply (main_loop_invariant (fun st => delay st = 1)); [|reflexivity].
      intros fid it st ks st' ks' HP Hstep.
      destruct (body_next _ _ _ _ _ _ Hstep)
        as (f & sc & sh & _ & _ & _ & _ & _ & _ & _ & _ & _ & _ & _ & Hd).
      destruct (Hd Hr) as [H|H]; [exact H|rewrite H; exact HP].
    + intros st scene keys. apply fetches_poll.
    + intros st scene keys Hd. rewrite poll_eq, Hr, Hd.
      cbn [Z.eqb p_code esc_code]. cbv zeta. cbn [delay set_delay Z.eqb andb].
      destruct (rotate_loop plot_raises scene keys) as [ev [s|r]]; reflexivity.
    + intros scene key keys Hp H1 H2 H3. rewrite rotate_loop_eq, Hp.
      apply Z.eqb_neq in H1, H2, H3. rewrite H1, H2, H3. reflexivity.
    + intros scene key keys Hp H. rewrite rotate_loop_eq, Hp.
      replace ((key =? p_code) || (key =? esc_code) || (key =? space_code))
        with true; [reflexivity|].
      symmetry. destruct H as [ -> | [ -> | -> ] ]; reflexivity.
Qed.

(** ** Runs that complete *)

Lemma for_each_map {A B : Type} (f : A -> exn + B) (g : A -> B) (l : list A) :
  (forall a, In a l -> f a = inr (g a)) -> for_each f l = inr (map g l).
Proof.
  induction l as [|a l IH]; intros H; [reflexivity|].
  cbn [for_each map]. rewrite (H a (or_introl eq_refl)). cbn [bind].
  rewrite IH by (intros x Hx; apply H; right; exact Hx). reflexivity.
Qed.

Lemma drop_confidence_ok (poses : list (list Q)) :
  Forall (fun pose => length pose = 76%nat) poses ->
  drop_confidence poses
  = inr (map (fun row => map (firstn 3) (chunks 4 19 row)) poses).
Proof.
  intros H. unfold drop_confidence. apply for_each_map.
  intros row Hin. rewrite Forall_forall in H.
  unfold reshape_into. rewrite (H row Hin). reflexivity.
Qed.

(** On a non-empty array of well-shaped poses and invertible extrinsics the
    transformer succeeds, and yields one entry per person and the edges of as
    many people. *)
Lemma transform_ok (poses : list (list Q)) :
  ~ (det3 R == 0)%Q -> poses <> [] ->
  Forall (fun pose => length pose = 76%nat) poses ->
  exists scene,
    transform R t SKELETON_EDGES poses
    = inr (Scene scene, make_edges SKELETON_EDGES (length poses)) /\
    length scene = length poses.
Proof.
  intros Hd Hne H. unfold transform.
  destruct poses as [|p0 ps]; [contradiction|]. cbn [length Nat.eqb].
  destruct (rotate_poses_shape (p0 :: ps) R t H Hd) as (out & Hout & Hlen & Hrows).
  rewrite Hout. cbn [bind].
  destruct (axis_remap_shape out Hrows) as (out2 & Hout2 & Hlen2 & Hrows2).
  rewrite Hout2. cbn [bind].
  rewrite (drop_confidence_ok out2 Hrows2). cbn [bind].
  eexists. split.
  - rewrite length_map, Hlen2, Hlen. reflexivity.
  - rewrite length_map, Hlen2, Hlen. reflexivity.
Qed.

(** With invertible extrinsics and a plotter that does not raise, an
    iteration on well-formed inputs during which no key is pressed reaches
    the next iteration. *)
Lemma body_completes (frame_id : nat) (it : iteration) (st : state) (keys : list Z) :
  ~ (det3 R == 0)%Q -> (forall poses edges, plot_raises poses edges = false) ->
  well_formed it -> (0 <= mean_time st)%Q -> delay st = 1 ->
  exists st',
    snd (body' frame_id it st (-1 :: keys)) = inr (st', keys) /\
    delay st' = 1 /\ (0 <= mean_time st')%Q.
Proof.
  intros Hd Hplot (f & Hf & H0 & H1 & H2 & Hposes & Hs) Hm Hdelay.
  rewrite body_eq, Hf, configure_eq.
  destruct (cv_resize_ok f H0 H1 H2) as (sc & Hsc & Hsh & _).
  destruct (base_width_total f ltac:(lia)) as (w & Hw & _).
  rewrite Hw, Hsc.
  assert (Htr : exists scene, transform R t SKELETON_EDGES (decoded it) = inr scene).
  { destruct (decoded it) as [|p0 ps] eqn:E; [eexists; reflexivity|].
    destruct (transform_ok (p0 :: ps) Hd ltac:(discriminate) Hposes) as (sc3 & E3 & _).
    eexists. exact E3. }
  destruct Htr as (scene & Htr).
  pose proof (update_mean_time_pos _ _ Hm Hs) as Hpos.
  assert (Hfps : forall st1, mean_time st1 = mean_time st ->
            show_fps st1 (elapsed it)
            = ([PutText (update_mean_time (mean_time st) (elapsed it))],
               inr (set_mean_time st1 (update_mean_time (mean_time st) (elapsed it))))).
  { intros st1 E. rewrite show_fps_eq, E. cbv zeta.
    destruct (Qeq_bool _ 0) eqn:Ez; [|reflexivity].
    apply Qeq_bool_iff in Ez. rewrite Ez in Hpos. exfalso. revert Hpos. apply Qlt_irrefl. }
  destruct (base_width_calculated st); cbv beta iota zeta;
    rewrite Hsh; cbv beta iota zeta; rewrite render_eq, Htr, Hplot;
    cbv beta iota zeta;
    rewrite Hfps by (rewrite ?focal_set_base_width; cbn [mean_time set_base_width];
                     apply focal_mean_time);
    cbn [snd]; rewrite poll_eq;
    cbn [Z.eqb esc_code p_code delay set_mean_time];
    rewrite ?focal_set_base_width; cbn [delay set_base_width];
    rewrite focal_delay, Hdelay; cbn [Z.eqb andb];
    eexists; (split; [reflexivity|]);
    cbn [delay mean_time set_mean_time set_base_width];
    rewrite ?focal_delay; (split; [exact Hdelay|apply Qlt_le_weak; exact Hpos]).
Qed.

(** A run on well-formed inputs during which no key is pressed processes
    every frame, draws one estimate per frame and ends with the frame
    stream. *)
Lemma main_loop_completes (its : list iteration) :
  ~ (det3 R == 0)%Q -> (forall poses edges, plot_raises poses edges = false) ->
  Forall well_formed its ->
  forall frame_id st,
    (0 <= mean_time st)%Q -> delay st = 1 ->
    let r := main_loop' frame_id its st (repeat (-1) (length its)) in
    snd r = IteratorExhausted /\
    length (fst r) = length its /\
    length (mean_times (trace (fst r))) = length its.
Proof.
  intros Hd Hplot Hwf. induction Hwf as [|it its Hit _ IH]; intros frame_id st Hm Hdelay.
  - repeat split.
  - cbv zeta. cbn [length repeat]. rewrite main_loop_cons.
    destruct (body_completes frame_id it st (repeat (-1) (length its))
                Hd Hplot Hit Hm Hdelay) as (st' & E & Hd' & Hm').
    destruct (body_next _ _ _ _ _ _ E)
      as (f & sc & sh & _ & _ & _ & _ & _ & _ & Hmts & _).
    rewrite E. cbn [fst snd].
    destruct (IH (S frame_id) st' Hm' Hd') as (I1 & I2 & I3).
    split; [exact I1|]. split; [cbn [length]; rewrite I2; reflexivity|].
    rewrite trace_cons, mean_times_app, Hmts, length_app, I3. reflexivity.
Qed.

(** C4: in every run, the first smoothed estimate equals the first sample
    exactly, and every later estimate equals 0.95 times the previous estimate
    plus 0.05 times the new sample; and a run on well-formed inputs during
    which no key is pressed yields one estimate per sample. *)
Theorem C4_fps_moving_average (its : list iteration) (keys : list Z) :
  let vals := mean_times (trace (fst (main R t is_video rotate3d SKELETON_EDGES
                                            plot_raises its keys))) in
  (forall i v, nth_error vals i = Some v ->
     exists s,
       nth_error (map elapsed its) i = Some s /\
       (i = 0%nat -> v = s) /\
       (forall j, i = S j ->
          exists prev, nth_error vals j = Some prev /\
            v = (prev * (95 # 100) + s * (5 # 100))%Q)) /\
  (~ (det3 R == 0)%Q -> (forall poses edges, plot_raises poses edges = false) ->
   Forall well_formed its -> keys = repeat (-1) (length its) ->
   length vals = length its).
Proof.
  intros vals. split.
  - intros i v H.
    destruct (mean_times_chain its 0 initial_state keys i v H) as (s & Hs & _ & Hi).
    exists s. split; [exact Hs|]. split.
    + intros ->. exact Hi.
    + intros j ->. destruct Hi as (prev & Hp & Hpz & Hv).
      exists prev. split; [exact Hp|].
      rewrite Hv. unfold update_mean_time. rewrite Hpz. reflexivity.
  - intros Hd Hplot Hwf ->. unfold vals, main.
    apply (main_loop_completes its Hd Hplot Hwf 0 initial_state);
      [apply Qle_refl|reflexivity].
Qed.

(** * Further properties of the loop *)

Lemma plots_app (a b : list event) : plots (a ++ b) = plots a ++ plots b.
Proof. apply flat_map_app. Qed.

Lemma waits_app (a b : list event) : waits (a ++ b) = waits a ++ waits b.
Proof. apply flat_map_app. Qed.

(** The re-render loop waits 33 ticks at a time and replots the scene it was
    given. *)
Lemma rotate_loop_waits_plots (scene : pose_array * list edge) (keys : list Z) :
  Forall (fun d => d = 33) (waits (fst (rotate_loop plot_raises scene keys))) /\
  Forall (fun x => x = scene) (plots (fst (rotate_loop plot_raises scene keys))).
Proof.
  assert (Hs : (fst scene, snd scene) = scene) by (destruct scene; reflexivity).
  induction keys as [|key keys' IH]; rewrite rotate_loop_eq;
    destruct (plot_raises _ _); cbn [fst waits plots flat_map app];
    try (split; repeat constructor; exact Hs).
  destruct ((key =? p_code) || (key =? esc_code) || (key =? space_code));
    cbn [fst waits plots flat_map app].
  - split; repeat constructor; exact Hs.
  - destruct IH as [IH1 IH2]. split; constructor; auto.
Qed.

(** When the re-render loop returns a key, the last thing it did was to read
    that key, and the key is one of the three that end the loop. *)
Lemma rotate_loop_returns (scene : pose_array * list edge) (keys : list Z)
      (r : Z * list Z) :
  snd (rotate_loop plot_raises scene keys) = inr r ->
  (exists pre, fst (rotate_loop plot_raises scene keys) = pre ++ [WaitKey 33 (fst r)]) /\
  (fst r = p_code \/ fst r = esc_code \/ fst r = space_code).
Proof.
  induction keys as [|key keys' IH]; rewrite rotate_loop_eq;
    destruct (plot_raises _ _); cbn [fst snd]; try discriminate.
  destruct ((key =? p_code) || (key =? esc_code) || (key =? space_code)) eqn:E;
    cbn [fst snd].
  - intros H. injection H as <-. cbn [fst]. split.
    + exists [Plot (fst scene) (snd scene); ImshowCanvas]. reflexivity.
    + apply orb_true_iff in E. destruct E as [E|E];
        [apply orb_true_iff in E; destruct E as [E|E]|];
        apply Z.eqb_eq in E; auto.
  - intros H. destruct (IH H) as ((pre & Hpre) & Hk). split; [|exact Hk].
    exists (Plot (fst scene) (snd scene) :: ImshowCanvas :: WaitKey 33 key :: pre).
    rewrite Hpre. reflexivity.
Qed.

Lemma rotate_loop_stops (scene : pose_array * list edge) (keys : list Z) (s : stop) :
  snd (rotate_loop plot_raises scene keys) = inl s ->
  s = KeysExhausted \/ s = Raised PlotError.
Proof.
  induction keys as [|key keys' IH]; rewrite rotate_loop_eq;
    destruct (plot_raises _ _); cbn [snd];
    try (intros H; injection H as <-; auto; fail).
  destruct ((key =? p_code) || (key =? esc_code) || (key =? space_code));
    cbn [snd]; [discriminate|exact IH].
Qed.

(** How the poll can leave the loop. *)
Lemma poll_stops (st : state) (scene : pose_array * list edge) (keys : list Z)
      (s : stop) :
  snd (poll' st scene keys) = inl s ->
  match s with
  | KeysExhausted | Raised PlotError => True
  | EscPressed => exists pre d, fst (poll' st scene keys) = pre ++ [WaitKey d esc_code]
  | _ => False
  end.
Proof.
  rewrite poll_eq. destruct keys as [|key keys']; cbn [fst snd].
  { intros H. injection H as <-. exact I. }
  destruct (key =? esc_code) eqn:Ek; cbn [fst snd].
  { intros H. injection H as <-. apply Z.eqb_eq in Ek. subst key.
    exists [], (delay st). reflexivity. }
  cbv zeta. destruct ((delay _ =? 0) && rotate3d); cbn [fst snd]; [|discriminate].
  pose proof (rotate_loop_stops scene keys') as Hs.
  pose proof (rotate_loop_returns scene keys') as Hr.
  destruct (rotate_loop plot_raises scene keys') as [ev [s'|r]]; cbn [fst snd] in *.
  - intros H. injection H as <-. destruct (Hs s' eq_refl) as [-> | ->]; exact I.
  - destruct (fst r =? esc_code) eqn:Er; [|discriminate].
    intros H. injection H as <-. apply Z.eqb_eq in Er.
    destruct (Hr r eq_refl) as ((pre & Hpre) & _).
    exists (WaitKey (delay st) key :: pre), 33. rewrite Hpre, Er. reflexivity.
Qed.

Lemma poll_waits_plots (st : state) (scene : pose_array * list edge) (keys : list Z) :
  Forall (fun d => d = delay st \/ d = 33) (waits (fst (poll' st scene keys))) /\
  Forall (fun x => x = scene) (plots (fst (poll' st scene keys))).
Proof.
  rewrite poll_eq. destruct keys as [|key keys']; [split; constructor|].
  destruct (key =? esc_code); [split; repeat constructor; auto|]. cbv zeta.
  destruct ((delay _ =? 0) && rotate3d);
    [|split; repeat constructor; auto].
  destruct (rotate_loop_waits_plots scene keys') as [Hw Hp].
  destruct (rotate_loop plot_raises scene keys') as [ev [s|r]];
    cbn [fst waits plots flat_map app] in *.
  all: split; [constructor; [auto|]|exact Hp].
  all: revert Hw; apply Forall_impl; auto.
Qed.

Lemma ends_with_app (a l : list event) (e : event) :
  ends_with l e -> ends_with (a ++ l) e.
Proof. intros (pre & ->). exists (a ++ pre). apply app_assoc. Qed.

Lemma ends_with_cons (x : event) (l : list event) (e : event) :
  ends_with l e -> ends_with (x :: l) e.
Proof. apply (ends_with_app [x]). Qed.

(** How one iteration can leave the loop. *)
Lemma body_stops (frame_id : nat) (it : iteration) (st : state) (keys : list Z)
      (s : stop) :
  snd (body' frame_id it st keys) = inl s ->
  match s with
  | IteratorExhausted => False
  | EndOfStream => frame it = None /\ fst (body' frame_id it st keys) = [Fetch frame_id]
  | EscPressed => exists d, ends_with (fst (body' frame_id it st keys)) (WaitKey d esc_code)
  | _ => True
  end.
Proof.
  rewrite body_eq.
  destruct (frame it) as [f|]; [|intros H; injection H as <-; split; reflexivity].
  rewrite configure_eq.
  destruct (base_width_calculated st); [|destruct (base_width f) as [e|w]].
  all: cbv beta iota zeta; try (intros H; injection H as <-; exact I).
  all: destruct (input_scale f) as [e1|sc];
    [intros H; injection H as <-; exact I|].
  all: destruct (cv_resize f sc) as [e2|sh];
    [intros H; injection H as <-; exact I|].
  all: cbv beta iota zeta; rewrite render_eq;
    destruct (transform _ _ _ _) as [e3|scene];
    [intros H; injection H as <-; exact I|];
    destruct (plot_raises (fst scene) (snd scene));
    [intros H; injection H as <-; exact I|].
  all: cbv beta iota zeta; rewrite show_fps_eq; cbv zeta;
    destruct (Qeq_bool _ 0); [intros H; injection H as <-; exact I|].
  all: cbv beta iota zeta; cbn [fst snd]; intros H;
    pose proof (poll_stops _ _ _ _ H) as Hp;
    destruct s as [| | |e|]; try exact I; try contradiction.
  all: destruct Hp as (pre & d & Hpre); exists d;
    repeat first [apply ends_with_cons | apply ends_with_app];
    exists pre; exact Hpre.
Qed.

Lemma trace_single (st : state) (ev : list event) : trace [(st, ev)] = ev.
Proof. unfold trace. cbn [map concat snd]. apply app_nil_r. Qed.

(** ** Line 127: the frames are fetched in order *)

Lemma main_loop_fetches (its : list iteration) :
  forall frame_id st keys,
    fetches (trace (fst (main_loop' frame_id its st keys)))
    = seq frame_id (length (fst (main_loop' frame_id its st keys))) /\
    (length (fst (main_loop' frame_id its st keys)) <= length its)%nat.
Proof.
  induction its as [|it its IH]; intros frame_id st keys.
  - split; [reflexivity|cbn; lia].
  - rewrite main_loop_cons.
    pose proof (body_obs frame_id it st keys) as Hobs. cbv zeta in Hobs.
    destruct Hobs as (Hf & _).
    destruct (snd (body' frame_id it st keys)) as [s|[st' keys']]; cbn [fst length].
    + rewrite trace_single, Hf. split; [reflexivity|lia].
    + destruct (IH (S frame_id) st' keys') as [I1 I2].
      rewrite trace_cons, fetches_app, Hf, I1. split; [reflexivity|lia].
Qed.

(** X1: in every run the frames are fetched one per iteration, in the order of
    the stream and starting with frame 0, each exactly once, and no more
    iterations are started than the stream has frames. *)
Theorem frames_fetched_in_order (its : list iteration) (keys : list Z) :
  let h := fst (main R t is_video rotate3d SKELETON_EDGES plot_raises its keys) in
  fetches (trace h) = seq 0 (length h) /\ (length h <= length its)%nat.
Proof. apply main_loop_fetches. Qed.

(** ** Lines 129-130, 220-221 and 236-237: how a run ends *)

Lemma main_loop_stop (its : list iteration) :
  forall frame_id st keys,
    let r := main_loop' frame_id its st keys in
    match snd r with
    | IteratorExhausted => length (fst r) = length its
    | EndOfStream =>
        exists i it,
          length (fst r) = S i /\ nth_error its i = Some it /\ frame it = None /\
          ends_with (trace (fst r)) (Fetch (frame_id + i))
    | EscPressed => exists d, ends_with (trace (fst r)) (WaitKey d esc_code)
    | _ => True
    end.
Proof.
  induction its as [|it its IH]; intros frame_id st keys; cbv zeta.
  - reflexivity.
  - rewrite main_loop_cons.
    pose proof (body_stops frame_id it st keys) as Hb.
    destruct (snd (body' frame_id it st keys)) as [s|[st' keys']]; cbn [fst snd].
    + specialize (Hb s eq_refl). rewrite trace_single.
      destruct s as [| | |e|]; try exact I; try contradiction.
      * destruct Hb as [Hn He]. exists 0%nat, it.
        rewrite Nat.add_0_r, He. repeat split; try assumption. exists []. reflexivity.
      * exact Hb.
    + specialize (IH (S frame_id) st' keys'). cbv zeta in IH.
      destruct (snd (main_loop' (S frame_id) its st' keys')) as [| | |e|];
        try exact I.
      * cbn [length]. rewrite IH. reflexivity.
      * destruct IH as (i & it' & Hl & Hn & Hf & He).
        exists (S i), it'. cbn [length nth_error]. rewrite Hl.
        repeat split; try assumption.
        rewrite trace_cons. apply ends_with_app.
        replace (frame_id + S i)%nat with (S frame_id + i)%nat by lia. exact He.
      * destruct IH as (d & He). exists d. rewrite trace_cons.
        apply ends_with_app. exact He.
Qed.

(** X2: a run that ends because escape was pressed ends with the wait that read
    the escape code: nothing is fetched, computed or drawn after it. *)
Theorem escape_ends_the_run (its : list iteration) (keys : list Z) :
  let r := main R t is_video rotate3d SKELETON_EDGES plot_raises its keys in
  snd r = EscPressed ->
  exists d, ends_with (trace (fst r)) (WaitKey d esc_code).
Proof.
  intros r H. pose proof (main_loop_stop its 0 initial_state keys) as Hs.
  cbv zeta in Hs. unfold r, main in *. rewrite H in Hs. exact Hs.
Qed.

(** X3: a run ends with the stream in two ways.  When the reader yields [None]
    the run ends at once: that frame is the last one fetched and nothing
    follows the fetch.  When the reader is exhausted, every frame of the
    stream went through a complete iteration. *)
Theorem stream_ends_the_run (its : list iteration) (keys : list Z) :
  let r := main R t is_video rotate3d SKELETON_EDGES plot_raises its keys in
  (snd r = EndOfStream ->
   exists i it,
     length (fst r) = S i /\ nth_error its i = Some it /\ frame it = None /\
     ends_with (trace (fst r)) (Fetch i)) /\
  (snd r = IteratorExhausted -> length (fst r) = length its).
Proof.
  intros r. pose proof (main_loop_stop its 0 initial_state keys) as Hs.
  cbv zeta in Hs. unfold r, main in *. split; intros H; rewrite H in Hs; exact Hs.
Qed.

Lemma no_rows (f : shape2) :
  if shape0 f =? 0
  then base_width f = inl ZeroDivisionError /\ input_scale f = inl ZeroDivisionError
  else exists w sc, base_width f = inr w /\ input_scale f = inr sc.
Proof.
  unfold base_width, input_scale. destruct (shape0 f =? 0); [split; reflexivity|].
  eexists _, _. split; reflexivity.
Qed.

(** What one iteration asks of the window system, of the plotter and of the
    engine. *)
Lemma body_ui (frame_id : nat) (it : iteration) (st : state) (keys : list Z) :
  let ev := fst (body' frame_id it st keys) in
  Forall (fun d => d = delay st \/ d = 33) (waits ev) /\
  Forall (fun x => transform R t SKELETON_EDGES (decoded it) = inr x) (plots ev) /\
  blob_shapes ev
  = match frame it with
    | None => []
    | Some f =>
        match preprocess_shape f with
        | inl _ => []
        | inr sh => repeat (1, 3, shape0 sh, shape1 sh) (if is_video then 1 else 5)%nat
        end
    end.
Proof.
  cbv zeta. rewrite body_eq.
  destruct (frame it) as [f|]; [|repeat split; constructor].
  rewrite configure_eq. unfold preprocess_shape.
  pose proof (no_rows f) as Hrows.
  destruct (shape0 f =? 0).
  { destruct Hrows as [-> ->].
    destruct (base_width_calculated st); repeat split; constructor. }
  destruct Hrows as (w & sc & -> & ->).
  assert (Hd : forall st0, delay (focal st0 f) = delay st0) by (intros; apply focal_delay).
  destruct (cv_resize f sc) as [e2|sh];
    [destruct (base_width_calculated st); repeat split; constructor|].
  destruct (transform R t SKELETON_EDGES (decoded it)) as [e3|[p es]] eqn:Etr.
  { destruct (base_width_calculated st); cbv beta iota zeta;
      rewrite render_eq, Etr; cbn [fst]; destruct is_video; cbn [repeat];
      autorewrite with obs; rewrite ?plots_app, ?waits_app; cbn;
      repeat split; constructor. }
  assert (PW : forall st3, delay st3 = delay st ->
             Forall (fun d => d = delay st \/ d = 33)
                    (waits (fst (poll' st3 (p, es) keys)))).
  { intros st3 E. destruct (poll_waits_plots st3 (p, es) keys) as [A _].
    rewrite E in A. exact A. }
  assert (PP : forall st3,
             Forall (fun x => @inr exn _ (p, es) = inr x)
                    (plots (fst (poll' st3 (p, es) keys)))).
  { intros st3. destruct (poll_waits_plots st3 (p, es) keys) as [_ A].
    revert A. apply Forall_impl. intros x ->. reflexivity. }
  destruct (base_width_calculated st); cbv beta iota zeta;
    rewrite render_eq, Etr; cbn [fst snd];
    destruct (plot_raises p es); cbv beta iota zeta;
    try (rewrite show_fps_eq; cbv zeta; destruct (Qeq_bool _ 0));
    cbv beta iota zeta; cbn [fst].
  all: destruct is_video; cbn [repeat];
    autorewrite with obs; rewrite ?plots_app, ?waits_app;
    cbn [plots waits blob_shapes flat_map app].
  all: repeat split; repeat (constructor; [reflexivity|]);
    try constructor.
  all: try (apply PW; cbn [delay set_mean_time];
            rewrite ?focal_set_base_width; cbn [delay set_base_width]; apply Hd).
  all: apply PP.
Qed.

(** ** Lines 113 and 219-239: the delay *)

(** X4: in every run the delay is 0 or 1 at the head of every iteration, and
    every wait for a key lasts 0 (blocking), 1 or 33 ticks. *)
Theorem delay_is_zero_or_one (its : list iteration) (keys : list Z) :
  let h := fst (main R t is_video rotate3d SKELETON_EDGES plot_raises its keys) in
  Forall (fun e => delay (fst e) = 0 \/ delay (fst e) = 1) h /\
  Forall (fun d => d = 0 \/ d = 1 \/ d = 33) (waits (trace h)).
Proof.
  intros h.
  assert (Hinv : Forall (fun e => delay (fst e) = 0 \/ delay (fst e) = 1) h).
  { unfold h, main.
    apply (main_loop_invariant (fun st => delay st = 0 \/ delay st = 1));
      [|right; reflexivity].
    intros fid it st ks st' ks' HP Hstep.
    destruct (body_next _ _ _ _ _ _ Hstep)
      as (f & sc & sh & _ & _ & _ & _ & _ & _ & _ & _ & _ & _ & Hd & _).
    exact (Hd HP). }
  split; [exact Hinv|].
  apply Forall_forall. intros d Hd.
  destruct (in_flat_map_trace d _ _ Hd) as (st & ev & Hin & Hd').
  rewrite Forall_forall in Hinv. pose proof (Hinv _ Hin) as HP. cbn [fst] in HP.
  destruct (In_nth_error _ _ Hin) as (n & Hn).
  destruct (main_loop_entry _ _ _ _ _ _ _ Hn) as (it & ks & _ & Hev).
  pose proof (body_ui (0 + n) it st ks) as Hui. cbv zeta in Hui.
  rewrite <- Hev in Hui. destruct Hui as (Hw & _).
  rewrite Forall_forall in Hw. destruct (Hw d Hd') as [E|E]; lia.
Qed.

(** ** Lines 198 and 233: what is plotted *)

(** X5: every call of the plotter during an iteration, the first one and the
    replots of the re-render loop alike, receives the poses and edges that
    the transformer computed for the frame of that iteration. *)
Theorem plots_show_the_scene_of_the_frame (its : list iteration) (keys : list Z) :
  let h := fst (main R t is_video rotate3d SKELETON_EDGES plot_raises its keys) in
  forall i st ev, nth_error h i = Some (st, ev) ->
    exists it, nth_error its i = Some it /\
      forall scene, In scene (plots ev) ->
        transform R t SKELETON_EDGES (decoded it) = inr scene.
Proof.
  intros h i st ev H. unfold h, main in H.
  destruct (main_loop_entry _ _ _ _ _ _ _ H) as (it & ks & Hit & Hev).
  exists it. split; [exact Hit|].
  pose proof (body_ui (0 + i) it st ks) as Hui. cbv zeta in Hui.
  rewrite <- Hev in Hui. destruct Hui as (_ & Hp & _).
  rewrite Forall_forall in Hp. exact Hp.
Qed.

(** ** Lines 155-169: how often a frame is sent to the engine *)

(** X6: a frame that cannot be preprocessed is not sent to the engine at all; a
    frame that can is sent once in video mode and five times in image mode,
    each time as a blob of the shape of its own cropped image. *)
Theorem frames_sent_to_the_engine (its : list iteration) (keys : list Z) :
  let h := fst (main R t is_video rotate3d SKELETON_EDGES plot_raises its keys) in
  forall i st ev, nth_error h i = Some (st, ev) ->
    exists it, nth_error its i = Some it /\
      blob_shapes ev
      = match frame it with
        | None => []
        | Some f =>
            match preprocess_shape f with
            | inl _ => []
            | inr sh =>
                repeat (1, 3, shape0 sh, shape1 sh) (if is_video then 1 else 5)%nat
            end
        end.
Proof.
  intros h i st ev H. unfold h, main in H.
  destruct (main_loop_entry _ _ _ _ _ _ _ H) as (it & ks & Hit & Hev).
  exists it. split; [exact Hit|].
  pose proof (body_ui (0 + i) it st ks) as Hui. cbv zeta in Hui.
  rewrite <- Hev in Hui. apply Hui.
Qed.

(** An iteration that leaves the loop is the last one, and its reason is the
    reason of the run. *)
Lemma main_loop_last (its : list iteration) :
  forall frame_id st keys i sti evi,
    nth_error (fst (main_loop' frame_id its st keys)) i = Some (sti, evi) ->
    exists it keysi,
      nth_error its i = Some it /\
      evi = fst (body' (frame_id + i) it sti keysi) /\
      forall s, snd (body' (frame_id + i) it sti keysi) = inl s ->
        snd (main_loop' frame_id its st keys) = s /\
        length (fst (main_loop' frame_id its st keys)) = S i.
Proof.
  induction its as [|it its IH]; intros frame_id st keys i sti evi H.
  - destruct i; discriminate H.
  - rewrite main_loop_cons in H |- *.
    destruct (snd (body' frame_id it st keys)) as [s0|[st' keys']] eqn:E;
      cbn [fst snd] in H |- *; destruct i as [|i]; cbn [nth_error] in H.
    + injection H as <- <-. exists it, keys. rewrite Nat.add_0_r.
      split; [reflexivity|]. split; [reflexivity|].
      intros s Hs. rewrite E in Hs. injection Hs as <-. split; reflexivity.
    + destruct i; discriminate H.
    + injection H as <- <-. exists it, keys. rewrite Nat.add_0_r.
      split; [reflexivity|]. split; [reflexivity|].
      intros s Hs. rewrite E in Hs. discriminate Hs.
    + destruct (IH _ _ _ _ _ _ H) as (it' & keysi & H1 & H2 & H3).
      exists it', keysi. split; [exact H1|].
      replace (frame_id + S i)%nat with (S frame_id + i)%nat by lia.
      split; [exact H2|].
      intros s Hs. destruct (H3 s Hs) as [A B]. split; [exact A|].
      cbn [length]. rewrite B. reflexivity.
Qed.

(** ** Lines 132-141: a frame that cannot be preprocessed *)

(** X7: when the run reaches a frame whose preprocessing raises, the run ends in
    that iteration with that exception; for that frame nothing is sent to the
    engine, no pose is decoded, nothing is plotted and no key is polled. *)
Theorem preprocess_failure_ends_the_run (its : list iteration) (keys : list Z)
        (i : nat) (st : state) (ev : list event) (it : iteration) (f : shape2)
        (e : exn) :
  let r := main R t is_video rotate3d SKELETON_EDGES plot_raises its keys in
  nth_error (fst r) i = Some (st, ev) ->
  nth_error its i = Some it -> frame it = Some f ->
  preprocess_shape f = inl e ->
  snd r = Raised e /\ length (fst r) = S i /\
  blob_shapes ev = [] /\ focal_lengths ev = [] /\ plots ev = [] /\ waits ev = [].
Proof.
  intros r H Hit Hf Hpre. unfold r, main in *.
  destruct (main_loop_last _ _ _ _ _ _ _ H) as (it' & ks & Hit' & Hev & Hlast).
  rewrite Hit in Hit'. injection Hit' as <-.
  assert (Hb : snd (body' (0 + i) it st ks) = inl (Raised e) /\
               blob_shapes ev = [] /\ focal_lengths ev = [] /\
               plots ev = [] /\ waits ev = []).
  { rewrite Hev. rewrite body_eq, Hf, configure_eq.
    unfold preprocess_shape in Hpre.
    pose proof (no_rows f) as Hrows.
    destruct (shape0 f =? 0).
    - destruct Hrows as [Hw Hsc]. rewrite Hsc in Hpre. injection Hpre as <-.
      rewrite Hw, Hsc. destruct (base_width_calculated st); repeat split.
    - destruct Hrows as (w & sc & Hw & Hsc). rewrite Hsc in Hpre.
      rewrite Hw, Hsc.
      destruct (cv_resize f sc) as [e2|sh]; [|discriminate Hpre].
      injection Hpre as <-. destruct (base_width_calculated st); repeat split. }
  destruct Hb as (Hs & Hrest). destruct (Hlast _ Hs) as [A B].
  split; [exact A|]. split; [exact B|]. exact Hrest.
Qed.

(** ** Lines 132-136: the engine is configured first *)

(** X8: in a run whose first frame has rows, the first two events are the fetch
    of frame 0 and the configuration of the input shape of the engine:
    nothing is sent to the engine and no pose is decoded before it. *)
Theorem engine_configured_first (it0 : iteration) (rest : list iteration)
        (keys : list Z) (f0 : shape2) :
  frame it0 = Some f0 -> shape0 f0 <> 0 ->
  let h := fst (main R t is_video rotate3d SKELETON_EDGES plot_raises
                     (it0 :: rest) keys) in
  exists w0 tl,
    base_width f0 = inr w0 /\
    trace h = Fetch 0 :: SetInputShape (1, 3, IMAGE_HEIGHT, w0) :: tl.
Proof.
  intros Hf Hrows h.
  pose proof (no_rows f0) as Hn.
  destruct (shape0 f0 =? 0) eqn:E0; [apply Z.eqb_eq in E0; contradiction|].
  destruct Hn as (w0 & sc & Hw & Hsc).
  exists w0.
  assert (Hb : exists tl, fst (body' 0 it0 initial_state keys)
                          = Fetch 0 :: SetInputShape (1, 3, IMAGE_HEIGHT, w0) :: tl).
  { rewrite body_eq, Hf, configure_eq. cbn [base_width_calculated initial_state].
    rewrite Hw, Hsc.
    destruct (cv_resize f0 sc) as [e2|sh]; [eexists; reflexivity|].
    cbv beta iota zeta.
    destruct (render' 0 (decoded it0)) as [ev2 [s|scene]]; [eexists; reflexivity|].
    destruct (show_fps _ _) as [ev3 [s|st3]]; eexists; reflexivity. }
  destruct Hb as (tl & Hb).
  subst h. unfold main. rewrite main_loop_cons.
  destruct (snd (body' 0 it0 initial_state keys)) as [s|[st' keys']]; cbn [fst].
  - exists tl. split; [exact Hw|]. rewrite trace_single. exact Hb.
  - eexists. split; [exact Hw|]. rewrite trace_cons, Hb. reflexivity.
Qed.

(** ** Lines 207-210: the smoothed time stays within the samples *)

(** One step of the average, computed in doubles, lands within a relative
    2^-50 of the exact step (three roundings and the rounded constants); any
    such value stays in the interval of the samples widened by a relative
    2^-40, once the previous value is there. *)
Lemma smoothing_absorbs_rounding (lo hi m s m' : Q) :
  (0 <= lo)%Q ->
  (lo * (1 - (1 # 2 ^ 40)) <= m <= hi * (1 + (1 # 2 ^ 40)))%Q ->
  (lo <= s <= hi)%Q ->
  (Qabs (m' - update_mean_time m s) <= update_mean_time m s * (1 # 2 ^ 50))%Q ->
  (lo * (1 - (1 # 2 ^ 40)) <= m' <= hi * (1 + (1 # 2 ^ 40)))%Q.
Proof.
  intros Hlo [M1 M2] [S1 S2] H.
  apply Qabs_Qle_condition in H. destruct H as [H1 H2].
  change (1 # 2 ^ 40)%Q with (1 # 1099511627776)%Q in *.
  change (1 # 2 ^ 50)%Q with (1 # 1125899906842624)%Q in *.
  unfold update_mean_time in *.
  destruct (Qeq_bool m 0); split; nra.
Qed.

(** X9: in every run whose measured times all lie between [lo >= 0] and [hi],
    every smoothed time drawn lies between [lo] and [hi] as well, up to the
    rounding of the doubles: the exact average lies in [[lo, hi]], and the
    stated interval leaves a relative 2^-40 on either side, which the
    rounding errors of line 210, damped by the factor 0.95 at every frame,
    never fill. *)
Theorem mean_time_within_samples (its : list iteration) (keys : list Z) (lo hi : Q) :
  (0 <= lo)%Q ->
  Forall (fun it => (lo <= elapsed it <= hi)%Q) its ->
  Forall (fun v => (lo * (1 - (1 # 2 ^ 40)) <= v <= hi * (1 + (1 # 2 ^ 40)))%Q)
         (mean_times (trace (fst (main R t is_video rotate3d SKELETON_EDGES
                                       plot_raises its keys)))).
Proof.
  intros Hlo Hs.
  set (vals := mean_times _).
  assert (Hi : forall i v, nth_error vals i = Some v -> (lo <= v <= hi)%Q).
  { induction i as [|j IH]; intros v H;
      destruct (mean_times_chain its 0 initial_state keys _ v H) as (s & Hes & _ & Hv);
      assert (Hb : (lo <= s <= hi)%Q).
    1, 3: (apply nth_error_In in Hes; apply in_map_iff in Hes;
           destruct Hes as (it & <- & Hin); rewrite Forall_forall in Hs;
           exact (Hs it Hin)).
    - rewrite Hv. exact Hb.
    - destruct Hv as (prev & Hp & Hz & ->).
      specialize (IH prev Hp). unfold update_mean_time. rewrite Hz. lra. }
  apply Forall_forall. intros v Hv.
  destruct (In_nth_error _ _ Hv) as (i & Hn). destruct (Hi i v Hn) as [A B].
  change (1 # 2 ^ 40)%Q with (1 # 1099511627776)%Q.
  split; lra.
Qed.

(** ** Lines 207-211: a measured time of zero on the first frame *)

(** X10: when the time measured for the first frame is zero, the smoothed time
    stays at its initial zero and the FPS text raises [ZeroDivisionError]:
    on an otherwise good frame the run ends in the first iteration, after
    the 3D scene has been plotted, without any FPS text and without polling
    a key. *)
Theorem zero_time_on_first_frame (it0 : iteration) (rest : list iteration)
        (keys : list Z) (f0 : shape2) (scene : pose_array * list edge) :
  frame it0 = Some f0 ->
  0 < shape0 f0 -> 0 < shape1 f0 -> shape0 f0 < 512 * shape1 f0 ->
  transform R t SKELETON_EDGES (decoded it0) = inr scene ->
  plot_raises (fst scene) (snd scene) = false ->
  (elapsed it0 == 0)%Q ->
  let r := main R t is_video rotate3d SKELETON_EDGES plot_raises (it0 :: rest) keys in
  snd r = Raised ZeroDivisionError /\
  length (fst r) = 1%nat /\
  plots (trace (fst r)) = [scene] /\
  mean_times (trace (fst r)) = [] /\
  waits (trace (fst r)) = [].
Proof.
  intros Hf H0 H1 H2 Htr Hplot Hz r. unfold r, main. rewrite main_loop_cons.
  destruct (cv_resize_ok f0 H0 H1 H2) as (sc & Hsc & Hsh & _).
  destruct (base_width_total f0 ltac:(lia)) as (w & Hw & _).
  assert (Hs : (fst scene, snd scene) = scene) by (destruct scene; reflexivity).
  assert (Hb : body' 0 it0 initial_state keys
               = (Fetch 0 :: [SetInputShape (1, 3, IMAGE_HEIGHT, w)] ++
                  repeat (Infer (1, 3, shape0 (crop_to_stride
                                                 (mkShape IMAGE_HEIGHT
                                                    (cvRound (naive_width f0)))),
                                 shape1 (crop_to_stride
                                           (mkShape IMAGE_HEIGHT
                                              (cvRound (naive_width f0))))))
                         (if is_video then 1 else 5)%nat ++
                  [ParsePoses sc STRIDE
                     (fx (focal (set_base_width initial_state w) f0)) is_video] ++
                  [Plot (fst scene) (snd scene);
                   if is_video then ImshowCanvas else ImwriteCanvas 0;
                   DrawPoses] ++ [],
                  inl (Raised ZeroDivisionError))).
  { rewrite body_eq, Hf, configure_eq. cbn [base_width_calculated initial_state].
    rewrite Hw, Hsc, Hsh. cbv beta iota zeta.
    rewrite render_eq, Htr, Hplot. cbv beta iota zeta.
    rewrite show_fps_eq. cbv zeta. rewrite focal_mean_time.
    cbn [mean_time set_base_width initial_state].
    assert (E : Qeq_bool (update_mean_time 0 (elapsed it0)) 0 = true).
    { apply Qeq_bool_iff. unfold update_mean_time. cbn [Qeq_bool].
      change (Qeq_bool 0 0) with true. cbv iota. exact Hz. }
    rewrite E. destruct is_video; reflexivity. }
  rewrite Hb. cbn [fst snd]. rewrite trace_single.
  split; [reflexivity|]. split; [reflexivity|].
  destruct is_video; cbn [repeat app plots mean_times waits flat_map];
    rewrite Hs; repeat split.
Qed.

End MainFacts.

(** ** Concrete runs *)

(** C1, as stated, fails: without the rotate option, three frames and the
    keys 'p', 'a', escape.  The pause key is read after frame 0; frame 1 and
    frame 2 are then fetched although the delay is 0 at the head of their
    iterations, the second of them after the unknown key 'a'. *)
Lemma C1_frame_fetched_while_frozen :
  let it := mkIteration (Some (mkShape 256 448)) [] (1 # 10) in
  let h := fst (main mat3_id (0, 0, 0)%Q true false [(0, 1); (1, 2)]
                     (fun _ _ => false) [it; it; it] [p_code; 97; esc_code]) in
  ~ (forall i st ev, nth_error h i = Some (st, ev) ->
       delay st = 0 -> fetches ev = []).
Proof.
  intros it h H. pose proof (H 2%nat) as H2. vm_compute in H2.
  specialize (H2 _ _ eq_refl eq_refl). discriminate H2.
Qed.



Lemma C4_fps_moving_average_witness :
  let its := [mkIteration (Some (mkShape 256 448)) [] (1 # 10);
              mkIteration (Some (mkShape 256 448)) [] (3 # 10)] in
  let vals := mean_times (trace (fst (main mat3_id (0, 0, 0)%Q true false
                                           [(0, 1); (1, 2)] (fun _ _ => false)
                                           its [-1; -1]))) in
  nth_error vals 1 = Some ((1 # 10) * (95 # 100) + (3 # 10) * (5 # 100))%Q /\
  exists s,
    nth_error (map elapsed its) 1 = Some s /\
    exists prev, nth_error vals 0 = Some prev /\
      ((1 # 10) * (95 # 100) + (3 # 10) * (5 # 100) = prev * (95 # 100) + s * (5 # 100))%Q.
Proof.
  intros its vals.
  assert (H : nth_error vals 1 = Some ((1 # 10) * (95 # 100) + (3 # 10) * (5 # 100))%Q)
    by reflexivity.
  split; [exact H|].
  destruct (proj1 (C4_fps_moving_average mat3_id (0, 0, 0)%Q true false
                     [(0, 1); (1, 2)] (fun _ _ => false) its [-1; -1]) 1%nat _ H)
    as (s & Hs & _ & Hj).
  exists s. split; [exact Hs|]. exact (Hj 0%nat eq_refl).
Defined.


Lemma C10_focal_length_fixed_witness :
  let it0 := mkIteration (Some (mkShape 256 448)) [] (1 # 10) in
  let it1 := mkIteration (Some (mkShape 256 320)) [] (1 # 10) in
  let h := fst (main mat3_id (0, 0, 0)%Q true false [(0, 1); (1, 2)]
                     (fun _ _ => false) [it0; it1] [-1; -1]) in
  frame it0 = Some (mkShape 256 448) /\
  length (focal_lengths (trace h)) = 2%nat /\
  Forall (fun v => v = ((8 # 10) * inject_Z 448)%Q) (focal_lengths (trace h)).
Proof.
  intros it0 it1 h. split; [reflexivity|]. split; [reflexivity|].
  exact (proj1 (C10_focal_length_fixed mat3_id (0, 0, 0)%Q true false
                  [(0, 1); (1, 2)] (fun _ _ => false) it0 [it1] [-1; -1]
                  (mkShape 256 448) eq_refl)).
Defined.

(** The width configured on the engine and the width of the blob can differ
    on the first frame itself: line 134 truncates the scaled width where
    [cv2.resize] rounds it.  A frame of 768 x 1343 configures a width of 440
    and yields a blob of 448 columns. *)
Lemma first_frame_blob_wider_than_input_shape :
  base_width (mkShape 768 1343) = inr 440 /\
  preprocess_shape (mkShape 768 1343) = inr (mkShape 256 448).
Proof. split; vm_compute; reflexivity. Qed.

(** The configured width is not always the scaled width rounded down to a
    multiple of the stride: for a frame of 784 x 784 the scaled width is
    exactly 256, its double is 255.99999999999997, and the width configured
    is 248; for a frame of 392 x 686 the scaled width is 448 and the width
    configured is 440. *)
Lemma base_width_one_stride_below :
  (naive_width (mkShape 784 784) == 256)%Q /\
  base_width (mkShape 784 784) = inr 248 /\
  (naive_width (mkShape 392 686) == 448)%Q /\
  base_width (mkShape 392 686) = inr 440.
Proof. repeat split; vm_compute; reflexivity. Qed.

(** * Further properties of the transformer *)

(** ** The remap and the rotation, keypoint by keypoint *)

Lemma axis_remap_pointwise (K : nat) (poses : list (list Q)) :
  Forall (fun r => length r = (4 * K)%nat) poses ->
  exists out,
    axis_remap poses = inr out /\
    length out = length poses /\
    Forall (fun r => length r = (4 * K)%nat) out /\
    forall p k, (p < length poses)%nat -> (k < K)%nat ->
      nth (4 * k) (nth p out []) 0%Q = Qopp (nth (4 * k + 2) (nth p poses []) 0%Q) /\
      nth (4 * k + 1) (nth p out []) 0%Q = nth (4 * k) (nth p poses []) 0%Q /\
      nth (4 * k + 2) (nth p out []) 0%Q = Qopp (nth (4 * k + 1) (nth p poses []) 0%Q) /\
      nth (4 * k + 3) (nth p out []) 0%Q = nth (4 * k + 3) (nth p poses []) 0%Q.
Proof.
  intros H.
  eexists. split; [apply (axis_remap_ok K poses H)|].
  split; [unfold neg; rewrite !length_map2_min, !length_map, !Nat.min_id; reflexivity|].
  split; [do 3 apply map2_put_step4_lengths; exact H|].
  intros p k Hp Hk.
  set (old := nth p poses []).
  assert (Hold : length old = (4 * K)%nat).
  { apply (Forall_nth_in (fun r => length r = (4 * K)%nat) poses p [] H Hp). }
  assert (Enew : nth p (map2 (put_step4 2) (neg (map (slice_step4 1) poses))
                          (map2 (put_step4 1) (map (slice_step4 0) poses)
                             (map2 (put_step4 0) (neg (map (slice_step4 2) poses))
                                poses))) []
                 = put_step4 2 (map Qopp (slice_step4 1 old))
                     (put_step4 1 (slice_step4 0 old)
                        (put_step4 0 (map Qopp (slice_step4 2 old)) old))).
  { unfold neg.
    rewrite (nth_map2 _ _ _ p [] [] [])
      by (rewrite ?length_map2_min, ?length_map, ?Nat.min_id; auto).
    rewrite (nth_map2 _ _ _ p [] [] [])
      by (rewrite ?length_map2_min, ?length_map, ?Nat.min_id; auto).
    rewrite (nth_map2 _ _ _ p [] [] [])
      by (rewrite ?length_map2_min, ?length_map, ?Nat.min_id; auto).
    rewrite !map_map.
    rewrite !(nth_map_in _ poses p []) by exact Hp.
    reflexivity. }
  rewrite Enew.
  assert (Sl : forall off, (off < 4)%nat ->
             nth k (slice_step4 off old) 0%Q = nth (4 * k + off) old 0%Q).
  { intros off Ho. apply (nth_slice_step4 off K k old Ho Hold Hk). }
  assert (Sn : forall off d, (off < 4)%nat ->
             nth k (map Qopp (slice_step4 off old)) d
             = Qopp (nth (4 * k + off) old 0%Q)).
  { intros off d Ho. rewrite (nth_map_in _ _ k 0%Q)
      by (rewrite (length_slice_step4 off K old Ho Hold); exact Hk).
    rewrite Sl by exact Ho. reflexivity. }
  assert (P : forall off vals row r, (r < 4)%nat -> length row = (4 * K)%nat ->
             nth (4 * k + r) (put_step4 off vals row) 0%Q
             = if (r =? off)%nat then nth k vals (nth (4 * k + r) row 0%Q)
               else nth (4 * k + r) row 0%Q).
  { intros off vals row r Hr Hrow. apply put_step4_nth; [exact Hr|lia]. }
  assert (P0 : forall off vals row, length row = (4 * K)%nat ->
             nth (4 * k) (put_step4 off vals row) 0%Q
             = if (0 =? off)%nat then nth k vals (nth (4 * k) row 0%Q)
               else nth (4 * k) row 0%Q).
  { intros off vals row Hrow. pose proof (P off vals row 0%nat ltac:(lia) Hrow) as E.
    rewrite Nat.add_0_r in E. exact E. }
  assert (L : forall off vals, length (put_step4 off vals old) = (4 * K)%nat).
  { intros. rewrite put_step4_length. exact Hold. }
  assert (L' : forall off vals off' vals',
             length (put_step4 off vals (put_step4 off' vals' old)) = (4 * K)%nat).
  { intros. rewrite put_step4_length. apply L. }
  repeat split.
  - rewrite P0 by apply L'. cbn [Nat.eqb].
    rewrite P0 by apply L. cbn [Nat.eqb].
    rewrite P0 by exact Hold. cbn [Nat.eqb].
    apply Sn. lia.
  - rewrite P by (try apply L'; lia). cbn [Nat.eqb].
    rewrite P by (try apply L; lia). cbn [Nat.eqb].
    rewrite (nth_indep _ _ 0%Q)
      by (rewrite (length_slice_step4 0 K old ltac:(lia) Hold); exact Hk).
    rewrite Sl by lia. rewrite Nat.add_0_r. reflexivity.
  - rewrite P by (try apply L'; lia). cbn [Nat.eqb].
    apply Sn. lia.
  - rewrite P by (try apply L'; lia). cbn [Nat.eqb].
    rewrite P by (try apply L; lia). cbn [Nat.eqb].
    rewrite P by (try exact Hold; lia). cbn [Nat.eqb]. reflexivity.
Qed.

Lemma rotate_poses_pointwise (K : nat) (poses : list (list Q)) (R R_inv : mat3)
      (t : vec3) :
  Forall (fun r => length r = (4 * K)%nat) poses ->
  linalg_inv R = inr R_inv ->
  exists out,
    rotate_poses poses R t = inr out /\
    length out = length poses /\
    Forall (fun r => length r = (4 * K)%nat) out /\
    forall p k, (p < length poses)%nat -> (k < K)%nat ->
      vec3_eq (keypoint_xyz out p k)
              (mat3_apply R_inv (vec3_sub (keypoint_xyz poses p k) t)) /\
      nth (4 * k + 3) (nth p out []) 0%Q = nth (4 * k + 3) (nth p poses []) 0%Q.
Proof.
  intros H Hinv.
  destruct (for_each_ok (rotate_pose R_inv t)
              (fun pose new =>
                 length new = (4 * K)%nat /\
                 forall k, (k < K)%nat ->
                   vec3_eq (nth (4 * k) new 0%Q, nth (4 * k + 1) new 0%Q,
                            nth (4 * k + 2) new 0%Q)
                           (mat3_apply R_inv
                              (vec3_sub (nth (4 * k) pose 0%Q, nth (4 * k + 1) pose 0%Q,
                                         nth (4 * k + 2) pose 0%Q) t)) /\
                   nth (4 * k + 3) new 0%Q = nth (4 * k + 3) pose 0%Q)
              poses) as (out & Hout & Hall).
  { intros pose Hin. rewrite Forall_forall in H.
    destruct (rotate_pose_ok R_inv t K pose (H pose Hin)) as (new & E & L & Hk).
    exists new. auto. }
  exists out. unfold rotate_poses. rewrite Hinv. cbn [bind].
  split; [exact Hout|]. split; [symmetry; exact (Forall2_length Hall)|].
  split.
  - apply (Forall2_right _ _ _ _ (fun _ _ E => proj1 E) Hall).
  - intros p k Hp Hk.
    pose proof (Forall2_nth_pair _ _ _ p [] [] Hall Hp) as Hrow. cbv beta in Hrow.
    destruct Hrow as [_ HK]. exact (HK k Hk).
Qed.

Lemma length_chunks {A : Type} (size count : nat) (l : list A) :
  length (chunks size count l) = count.
Proof. unfold chunks. rewrite length_map, length_seq. reflexivity. Qed.

(** The first three numbers of the [k]-th group of four. *)
Lemma firstn_3_chunk (K k : nat) (row : list Q) :
  length row = (4 * K)%nat -> (k < K)%nat ->
  firstn 3 (nth k (chunks 4 K row) [])
  = [nth (4 * k) row 0%Q; nth (4 * k + 1) row 0%Q; nth (4 * k + 2) row 0%Q].
Proof.
  intros H Hk. unfold chunks. rewrite nth_seq_map by exact Hk.
  assert (E : forall i, nth (4 * k + i) row 0%Q = nth i (skipn (k * 4) row) 0%Q).
  { intros i. rewrite nth_skipn. f_equal. lia. }
  pose proof (E 0%nat) as E0. rewrite Nat.add_0_r in E0. rewrite E0, !E.
  assert (L : length (skipn (k * 4) row) = (4 * K - k * 4)%nat)
    by (rewrite length_skipn, H; reflexivity).
  destruct (skipn (k * 4) row) as [|a [|b [|c [|d r]]]]; cbn [length] in L; try lia.
  reflexivity.
Qed.

(** ** Lines 184-197 as a whole *)

(** X11: for at least one detected person, poses of length 76 and invertible
    extrinsics, the transformer succeeds; the scene holds one entry of 19
    keypoints per person; keypoint [k] of person [p] is (-z, x, -y), where
    (x, y, z) is R_inv . (point - t) for the decoder's point; and the edge
    list is the template replicated once per person. *)
Theorem transform_scene (R : mat3) (t : vec3) (SKELETON_EDGES : list edge)
        (poses_3d : list (list Q)) :
  poses_3d <> [] ->
  Forall (fun pose => length pose = 76%nat) poses_3d ->
  ~ (det3 R == 0)%Q ->
  exists R_inv scene,
    linalg_inv R = inr R_inv /\
    transform R t SKELETON_EDGES poses_3d
    = inr (Scene scene, make_edges SKELETON_EDGES (length poses_3d)) /\
    length scene = length poses_3d /\
    forall p, (p < length poses_3d)%nat ->
      length (nth p scene []) = 19%nat /\
      forall k, (k < 19)%nat ->
        exists x y z,
          nth k (nth p scene []) [] = [Qopp z; x; Qopp y] /\
          vec3_eq (x, y, z)
                  (mat3_apply R_inv (vec3_sub (keypoint_xyz poses_3d p k) t)).
Proof.
  intros Hne H Hd.
  destruct (linalg_inv_ok R Hd) as (R_inv & Hinv & _).
  assert (H4 : Forall (fun r => length r = (4 * 19)%nat) poses_3d) by exact H.
  destruct (rotate_poses_pointwise 19 poses_3d R R_inv t H4 Hinv)
    as (out1 & E1 & L1 & S1 & P1).
  destruct (axis_remap_pointwise 19 out1 S1) as (out2 & E2 & L2 & S2 & P2).
  exists R_inv, (map (fun row => map (firstn 3) (chunks 4 19 row)) out2).
  split; [exact Hinv|].
  assert (Et : transform R t SKELETON_EDGES poses_3d
               = inr (Scene (map (fun row => map (firstn 3) (chunks 4 19 row)) out2),
                      make_edges SKELETON_EDGES (length poses_3d))).
  { unfold transform. destruct poses_3d as [|p0 ps]; [contradiction|].
    cbn [length Nat.eqb]. rewrite E1. cbn [bind]. rewrite E2. cbn [bind].
    rewrite (drop_confidence_ok out2 S2). cbn [bind].
    rewrite length_map, L2, L1. reflexivity. }
  split; [exact Et|]. split; [rewrite length_map, L2, L1; reflexivity|].
  intros p Hp.
  rewrite (nth_map_in _ out2 p []) by (rewrite L2, L1; exact Hp).
  split; [rewrite length_map; apply length_chunks|].
  intros k Hk.
  assert (Hrow : length (nth p out2 []) = (4 * 19)%nat).
  { apply (Forall_nth_in (fun r => length r = (4 * 19)%nat) out2 p [] S2).
    rewrite L2, L1. exact Hp. }
  rewrite (nth_map_in _ _ k []) by (rewrite length_chunks; exact Hk).
  rewrite (firstn_3_chunk 19 k _ Hrow Hk).
  destruct (P2 p k ltac:(rewrite L1; exact Hp) Hk) as (Q0 & Q1 & Q2 & _).
  destruct (P1 p k Hp Hk) as (V & _).
  exists (nth (4 * k) (nth p out1 []) 0%Q),
         (nth (4 * k + 1) (nth p out1 []) 0%Q),
         (nth (4 * k + 2) (nth p out1 []) 0%Q).
  split; [rewrite Q0, Q1, Q2; reflexivity|exact V].
Qed.

Lemma transform_scene_witness :
  [map (fun i => inject_Z (Z.of_nat i)) (seq 0 76)] <> [] /\
  Forall (fun pose => length pose = 76%nat)
         [map (fun i => inject_Z (Z.of_nat i)) (seq 0 76)] /\
  ~ (det3 ((0, -1, 0), (1, 0, 0), (0, 0, 2)) == 0)%Q /\
  exists scene,
    transform ((0, -1, 0), (1, 0, 0), (0, 0, 2))%Q (1, 1, 1)%Q [(0, 1); (1, 2)]
              [map (fun i => inject_Z (Z.of_nat i)) (seq 0 76)]
    = inr (Scene scene, make_edges [(0, 1); (1, 2)] 1) /\
    length scene = 1%nat.
Proof.
  assert (H1 : [map (fun i => inject_Z (Z.of_nat i)) (seq 0 76)] <> [])
    by discriminate.
  assert (H2 : Forall (fun pose => length pose = 76%nat)
                      [map (fun i => inject_Z (Z.of_nat i)) (seq 0 76)]).
  { constructor; [reflexivity|constructor]. }
  assert (H3 : ~ (det3 ((0, -1, 0), (1, 0, 0), (0, 0, 2)) == 0)%Q).
  { intros E. vm_compute in E. discriminate E. }
  split; [exact H1|]. split; [exact H2|]. split; [exact H3|].
  destruct (transform_scene ((0, -1, 0), (1, 0, 0), (0, 0, 2))%Q (1, 1, 1)%Q
              [(0, 1); (1, 2)] _ H1 H2 H3) as (R_inv & scene & _ & Et & Ls & _).
  exists scene. split; [exact Et|exact Ls].
Defined.

(** ** Lines 194-197: edges stay within one person *)

(** X12: for a template whose indices lie in [0, 19), both ends of every edge of
    the flattened list lie in the block of 19 keypoints of one and the same
    person: no bone links two people.  With no person the list is empty. *)
Theorem edges_within_person (SKELETON_EDGES : list edge) (N : nat) :
  Forall (fun e => 0 <= fst e < 19 /\ 0 <= snd e < 19) SKELETON_EDGES ->
  make_edges SKELETON_EDGES 0 = [] /\
  forall e, In e (make_edges SKELETON_EDGES N) ->
    exists i, (i < N)%nat /\
      19 * Z.of_nat i <= fst e < 19 * Z.of_nat i + 19 /\
      19 * Z.of_nat i <= snd e < 19 * Z.of_nat i + 19 /\
      fst e / 19 = snd e / 19.
Proof.
  intros Hsk. split; [reflexivity|].
  intros e He. unfold make_edges in He.
  apply in_flat_map in He. destruct He as (i & Hi & He).
  apply in_seq in Hi. apply in_map_iff in He. destruct He as (e0 & <- & He0).
  rewrite Forall_forall in Hsk. specialize (Hsk e0 He0). cbn [fst snd].
  exists i. split; [lia|]. split; [lia|]. split; [lia|].
  transitivity (Z.of_nat i).
  - symmetry. apply (Z.div_unique _ 19 _ (fst e0)); lia.
  - apply (Z.div_unique _ 19 _ (snd e0)); lia.
Qed.

Lemma edges_within_person_witness :
  Forall (fun e => 0 <= fst e < 19 /\ 0 <= snd e < 19) [(11, 10); (10, 9); (17, 18)] /\
  forall e, In e (make_edges [(11, 10); (10, 9); (17, 18)] 2) ->
    exists i, (i < 2)%nat /\
      19 * Z.of_nat i <= fst e < 19 * Z.of_nat i + 19 /\
      19 * Z.of_nat i <= snd e < 19 * Z.of_nat i + 19 /\
      fst e / 19 = snd e / 19.
Proof.
  assert (H : Forall (fun e => 0 <= fst e < 19 /\ 0 <= snd e < 19)
                     [(11, 10); (10, 9); (17, 18)]).
  { repeat constructor; simpl; lia. }
  split; [exact H|].
  exact (proj2 (edges_within_person [(11, 10); (10, 9); (17, 18)] 2 H)).
Defined.

(** ** Lines 187-191: the remap keeps distances *)

(** X13: the remap changes no distance: for any two keypoints of an array of poses
    of [K] keypoints each, the squared distance between them is the same
    before and after.  It also keeps the shape and the confidences. *)
Theorem axis_remap_isometry (K : nat) (poses_3d : list (list Q)) :
  Forall (fun pose => length pose = (4 * K)%nat) poses_3d ->
  exists out,
    axis_remap poses_3d = inr out /\
    length out = length poses_3d /\
    Forall (fun pose => length pose = (4 * K)%nat) out /\
    forall p k p' k',
      (p < length poses_3d)%nat -> (k < K)%nat ->
      (p' < length poses_3d)%nat -> (k' < K)%nat ->
      (sq_dist (keypoint_xyz out p k) (keypoint_xyz out p' k')
       == sq_dist (keypoint_xyz poses_3d p k) (keypoint_xyz poses_3d p' k'))%Q.
Proof.
  intros H.
  destruct (axis_remap_pointwise K poses_3d H) as (out & E & L & S & P).
  exists out. split; [exact E|]. split; [exact L|]. split; [exact S|].
  intros p k p' k' Hp Hk Hp' Hk'.
  destruct (P p k Hp Hk) as (A0 & A1 & A2 & _).
  destruct (P p' k' Hp' Hk') as (B0 & B1 & B2 & _).
  unfold keypoint_xyz, sq_dist. rewrite A0, A1, A2, B0, B1, B2. ring.
Qed.

Lemma axis_remap_isometry_witness :
  Forall (fun pose => length pose = (4 * 2)%nat)
         [map inject_Z [1; 2; 3; 9; 4; 5; 6; 8]%Z] /\
  exists out,
    axis_remap [map inject_Z [1; 2; 3; 9; 4; 5; 6; 8]%Z] = inr out /\
    (sq_dist (keypoint_xyz out 0 0) (keypoint_xyz out 0 1)
     == sq_dist (keypoint_xyz [map inject_Z [1; 2; 3; 9; 4; 5; 6; 8]%Z] 0 0)
                (keypoint_xyz [map inject_Z [1; 2; 3; 9; 4; 5; 6; 8]%Z] 0 1))%Q.
Proof.
  assert (H : Forall (fun pose => length pose = (4 * 2)%nat)
                     [map inject_Z [1; 2; 3; 9; 4; 5; 6; 8]%Z]).
  { constructor; [reflexivity|constructor]. }
  split; [exact H|].
  destruct (axis_remap_isometry 2 _ H) as (out & E & _ & _ & D).
  exists out. split; [exact E|].
  apply (D 0%nat 0%nat 0%nat 1%nat); simpl; lia.
Defined.

(** ** Lines 74-81: undoing [rotate_poses] *)

Lemma vec3_eq_trans (u v w : vec3) : vec3_eq u v -> vec3_eq v w -> vec3_eq u w.
Proof.
  destruct u as [[u0 u1] u2], v as [[v0 v1] v2], w as [[w0 w1] w2].
  unfold vec3_eq. intros (A & B & C) (D & E & F).
  repeat split; etransitivity; eassumption.
Qed.

Lemma det3_mul (A B : mat3) : (det3 (mat3_mul A B) == det3 A * det3 B)%Q.
Proof.
  destruct A as [[[[a b] c] [[d e] f]] [[g h] i]].
  destruct B as [[[[a' b'] c'] [[d' e'] f']] [[g' h'] i']].
  unfold det3, mat3_mul. ring.
Qed.

Lemma det3_comp (A B : mat3) : mat3_eq A B -> (det3 A == det3 B)%Q.
Proof.
  destruct A as [[[[a b] c] [[d e] f]] [[g h] i]].
  destruct B as [[[[a' b'] c'] [[d' e'] f']] [[g' h'] i']].
  unfold mat3_eq, det3. intros (H1 & H2 & H3 & H4 & H5 & H6 & H7 & H8 & H9).
  rewrite H1, H2, H3, H4, H5, H6, H7, H8, H9. reflexivity.
Qed.

(** The inverse of an invertible matrix is invertible. *)
Lemma det3_inverse (R R_inv : mat3) :
  mat3_eq (mat3_mul R_inv R) mat3_id -> ~ (det3 R_inv == 0)%Q.
Proof.
  intros H E. apply det3_comp in H. rewrite det3_mul, E in H.
  revert H. unfold mat3_id, det3. intros H. ring_simplify in H.
  discriminate H.
Qed.

Lemma round_trip_point (R_inv R2 : mat3) (t p m : vec3) :
  mat3_eq (mat3_mul R2 R_inv) mat3_id ->
  vec3_eq m (mat3_apply R_inv (vec3_sub p t)) ->
  vec3_eq (mat3_apply R2 (vec3_sub m (vec3_opp (mat3_apply R_inv t)))) p.
Proof.
  destruct R_inv as [[[[a b] c] [[d e] f]] [[g h] i]].
  destruct R2 as [[[[a' b'] c'] [[d' e'] f']] [[g' h'] i']].
  destruct t as [[t0 t1] t2], p as [[p0 p1] p2], m as [[m0 m1] m2].
  unfold mat3_eq, mat3_mul, mat3_id, vec3_eq, mat3_apply, vec3_sub, vec3_opp.
  intros (H1 & H2 & H3 & H4 & H5 & H6 & H7 & H8 & H9) (M0 & M1 & M2).
  rewrite M0, M1, M2. repeat split.
  - transitivity ((a' * a + b' * d + c' * g) * p0 + (a' * b + b' * e + c' * h) * p1
                  + (a' * c + b' * f + c' * i) * p2)%Q; [ring|].
    rewrite H1, H2, H3. ring.
  - transitivity ((d' * a + e' * d + f' * g) * p0 + (d' * b + e' * e + f' * h) * p1
                  + (d' * c + e' * f + f' * i) * p2)%Q; [ring|].
    rewrite H4, H5, H6. ring.
  - transitivity ((g' * a + h' * d + i' * g) * p0 + (g' * b + h' * e + i' * h) * p1
                  + (g' * c + h' * f + i' * i) * p2)%Q; [ring|].
    rewrite H7, H8, H9. ring.
Qed.

Lemma mat3_apply_comp (M : mat3) (u v w : vec3) :
  vec3_eq u v ->
  vec3_eq (mat3_apply M (vec3_sub u w)) (mat3_apply M (vec3_sub v w)).
Proof.
  destruct M as [[[[a b] c] [[d e] f]] [[g h] i]].
  destruct u as [[u0 u1] u2], v as [[v0 v1] v2], w as [[w0 w1] w2].
  unfold vec3_eq, mat3_apply, vec3_sub. intros (A & B & C).
  rewrite A, B, C. repeat split; reflexivity.
Qed.

(** X14: [rotate_poses] is undone by [rotate_poses] with the inverse extrinsics:
    for poses of [K] keypoints and an invertible R with inverse R_inv,
    rotating by (R, t) and then by (R_inv, - R_inv . t) succeeds and gives
    back every point, with its confidence. *)
Theorem rotate_poses_round_trip (K : nat) (poses_3d : list (list Q)) (R : mat3)
        (t : vec3) :
  Forall (fun pose => length pose = (4 * K)%nat) poses_3d ->
  ~ (det3 R == 0)%Q ->
  exists R_inv mid out,
    linalg_inv R = inr R_inv /\
    rotate_poses poses_3d R t = inr mid /\
    rotate_poses mid R_inv (vec3_opp (mat3_apply R_inv t)) = inr out /\
    length out = length poses_3d /\
    forall p k, (p < length poses_3d)%nat -> (k < K)%nat ->
      vec3_eq (keypoint_xyz out p k) (keypoint_xyz poses_3d p k) /\
      nth (4 * k + 3) (nth p out []) 0%Q = nth (4 * k + 3) (nth p poses_3d []) 0%Q.
Proof.
  intros H Hd.
  destruct (linalg_inv_ok R Hd) as (R_inv & Hinv & Hl & _).
  destruct (linalg_inv_ok R_inv (det3_inverse R R_inv Hl)) as (R2 & Hinv2 & Hl2 & _).
  destruct (rotate_poses_pointwise K poses_3d R R_inv t H Hinv)
    as (mid & E1 & L1 & S1 & P1).
  destruct (rotate_poses_pointwise K mid R_inv R2 (vec3_opp (mat3_apply R_inv t))
              S1 Hinv2) as (out & E2 & L2 & S2 & P2).
  exists R_inv, mid, out.
  split; [exact Hinv|]. split; [exact E1|]. split; [exact E2|].
  split; [rewrite L2, L1; reflexivity|].
  intros p k Hp Hk.
  destruct (P1 p k Hp Hk) as (V1 & C1).
  destruct (P2 p k ltac:(rewrite L1; exact Hp) Hk) as (V2 & C2).
  split; [|rewrite C2, C1; reflexivity].
  eapply vec3_eq_trans; [exact V2|].
  apply (round_trip_point R_inv R2 t _ _ Hl2 V1).
Qed.

Lemma rotate_poses_round_trip_witness :
  Forall (fun pose => length pose = (4 * 2)%nat)
         [map inject_Z [1; 2; 3; 9; 4; 5; 6; 8]%Z] /\
  ~ (det3 ((0, -1, 0), (1, 0, 0), (0, 0, 2)) == 0)%Q /\
  exists R_inv mid out,
    linalg_inv ((0, -1, 0), (1, 0, 0), (0, 0, 2))%Q = inr R_inv /\
    rotate_poses [map inject_Z [1; 2; 3; 9; 4; 5; 6; 8]%Z]
                 ((0, -1, 0), (1, 0, 0), (0, 0, 2))%Q (1, 1, 1)%Q = inr mid /\
    rotate_poses mid R_inv (vec3_opp (mat3_apply R_inv (1, 1, 1)%Q)) = inr out /\
    vec3_eq (keypoint_xyz out 0 1)
            (keypoint_xyz [map inject_Z [1; 2; 3; 9; 4; 5; 6; 8]%Z] 0 1).
Proof.
  assert (H : Forall (fun pose => length pose = (4 * 2)%nat)
                     [map inject_Z [1; 2; 3; 9; 4; 5; 6; 8]%Z]).
  { constructor; [reflexivity|constructor]. }
  assert (Hd : ~ (det3 ((0, -1, 0), (1, 0, 0), (0, 0, 2)) == 0)%Q).
  { intros E. vm_compute in E. discriminate E. }
  split; [exact H|]. split; [exact Hd|].
  destruct (rotate_poses_round_trip 2 _ ((0, -1, 0), (1, 0, 0), (0, 0, 2))%Q
              (1, 1, 1)%Q H Hd) as (R_inv & mid & out & E0 & E1 & E2 & _ & P).
  exists R_inv, mid, out. split; [exact E0|]. split; [exact E1|]. split; [exact E2|].
  apply (P 0%nat 1%nat); simpl; lia.
Defined.

(** ** Lines 75 and 184-186: extrinsics without an inverse *)

(** A matrix with a zero row is singular, and its inversion raises. *)
Lemma linalg_inv_zero_row (R : mat3) :
  has_zero_row R -> linalg_inv R = inl LinAlgError.
Proof.
  destruct R as [[[[a b] c] [[d e] f]] [[g h] i]]. intros H.
  assert (D : (det3 (a, b, c, (d, e, f), (g, h, i)) == 0)%Q).
  { unfold det3. cbn [has_zero_row vec3_eq] in H.
    destruct H as [(A & B & C)|[(A & B & C)|(A & B & C)]];
      rewrite A, B, C; ring. }
  unfold linalg_inv. cbv zeta.
  apply Qeq_bool_iff in D.
  match goal with
  | |- (if ?b then _ else _) = _ =>
      replace b with true by (symmetry; exact D); reflexivity
  end.
Qed.

(** X15: when a row of R is zero, the inversion of R raises [LinAlgError],
    and [rotate_poses] raises it on every array, the empty one included,
    since the inverse is taken before the loop.  The main loop calls
    [rotate_poses] only when a pose was detected: a frame without poses is
    transformed as usual, a frame with poses raises before anything is
    drawn. *)
Theorem extrinsics_with_zero_row (R : mat3) (t : vec3) (is_video : bool)
        (SKELETON_EDGES : list edge)
        (plot_raises : pose_array -> list edge -> bool) :
  has_zero_row R ->
  (forall poses_3d, rotate_poses poses_3d R t = inl LinAlgError) /\
  transform R t SKELETON_EDGES [] = inr (Decoded [], []) /\
  (forall poses_3d, poses_3d <> [] ->
     transform R t SKELETON_EDGES poses_3d = inl LinAlgError) /\
  (forall frame_id poses_3d, poses_3d <> [] ->
     render R t is_video SKELETON_EDGES plot_raises frame_id poses_3d
     = ([], inl (Raised LinAlgError))).
Proof.
  intros H. pose proof (linalg_inv_zero_row R H) as Hi.
  assert (Hr : forall poses_3d, rotate_poses poses_3d R t = inl LinAlgError).
  { intros poses_3d. unfold rotate_poses. rewrite Hi. reflexivity. }
  assert (Ht : forall poses_3d, poses_3d <> [] ->
             transform R t SKELETON_EDGES poses_3d = inl LinAlgError).
  { intros [|p0 ps] Hne; [contradiction|].
    unfold transform. cbn [length Nat.eqb]. rewrite Hr. reflexivity. }
  split; [exact Hr|]. split; [reflexivity|]. split; [exact Ht|].
  intros frame_id poses_3d Hne.
  rewrite render_eq, (Ht poses_3d Hne). reflexivity.
Qed.

Lemma extrinsics_with_zero_row_witness :
  has_zero_row ((1, 2, 3), (0, 0, 0), (4, 5, 6))%Q /\
  rotate_poses [] ((1, 2, 3), (0, 0, 0), (4, 5, 6))%Q (0, 0, 0)%Q
  = inl LinAlgError /\
  render ((1, 2, 3), (0, 0, 0), (4, 5, 6))%Q (0, 0, 0)%Q true [(0, 1)]
         (fun _ _ => false) 0 [map inject_Z [1; 2; 3; 9]%Z]
  = ([], inl (Raised LinAlgError)).
Proof.
  assert (H : has_zero_row ((1, 2, 3), (0, 0, 0), (4, 5, 6))%Q).
  { right. left. repeat split; reflexivity. }
  split; [exact H|].
  destruct (extrinsics_with_zero_row ((1, 2, 3), (0, 0, 0), (4, 5, 6))%Q
              (0, 0, 0)%Q true [(0, 1)] (fun _ _ => false) H)
    as (Hr & _ & _ & Hrender).
  split; [apply Hr|]. apply Hrender. discriminate.
Defined.

(** ** Lines 77 and 193: the length of a pose *)

Lemma mod_76 (L : nat) :
  (L mod 76 = 0 <-> L mod 4 = 0 /\ L mod 19 = 0)%nat.
Proof.
  pose proof (Nat.div_mod_eq L 76) as E76.
  pose proof (Nat.div_mod_eq L 4) as E4.
  pose proof (Nat.div_mod_eq L 19) as E19.
  pose proof (Nat.mod_upper_bound L 76 ltac:(lia)) as B76.
  pose proof (Nat.mod_upper_bound L 4 ltac:(lia)) as B4.
  pose proof (Nat.mod_upper_bound L 19 ltac:(lia)) as B19.
  split.
  - intros H. rewrite H in E76. split.
    + symmetry. apply (Nat.mod_unique L 4 (19 * (L / 76)) 0); lia.
    + symmetry. apply (Nat.mod_unique L 19 (4 * (L / 76)) 0); lia.
  - intros [H4 H19]. rewrite H4 in E4. rewrite H19 in E19.
    symmetry. apply (Nat.mod_unique L 76 (5 * (L / 19) - L / 4) 0); lia.
Qed.

Lemma for_each_fails {A B : Type} (f : A -> exn + B) (e : exn) (a : A) (l : list A) :
  f a = inl e -> for_each f (a :: l) = inl e.
Proof. intros H. cbn [for_each]. rewrite H. reflexivity. Qed.

(** X16: for at least one person, rows of one length [L] and invertible
    extrinsics, the transformer succeeds exactly when [L] is a multiple of 76
    and raises [ValueError] otherwise: at the reshape of [rotate_poses] when
    [L] is not a multiple of 4, at the reshape to 19 keypoints when it is not
    a multiple of 19. *)
Theorem transform_pose_length (R : mat3) (t : vec3) (SKELETON_EDGES : list edge)
        (L : nat) (poses_3d : list (list Q)) :
  poses_3d <> [] ->
  Forall (fun pose => length pose = L) poses_3d ->
  ~ (det3 R == 0)%Q ->
  ((L mod 76 = 0)%nat ->
   exists scene,
     transform R t SKELETON_EDGES poses_3d
     = inr (Scene scene, make_edges SKELETON_EDGES (length poses_3d)) /\
     length scene = length poses_3d) /\
  ((L mod 76 <> 0)%nat -> transform R t SKELETON_EDGES poses_3d = inl ValueError).
Proof.
  intros Hne H Hd.
  destruct (linalg_inv_ok R Hd) as (R_inv & Hinv & _).
  destruct poses_3d as [|p0 ps]; [contradiction|].
  assert (Hp0 : length p0 = L) by exact (Forall_inv H).
  unfold transform. cbn [length Nat.eqb].
  destruct (Nat.eq_dec (L mod 4) 0) as [E4|E4].
  - pose proof (Nat.div_mod_eq L 4) as EL. rewrite E4, Nat.add_0_r in EL.
    assert (H4 : Forall (fun r => length r = (4 * (L / 4))%nat) (p0 :: ps)).
    { revert H. apply Forall_impl. intros r Hr. rewrite Hr. exact EL. }
    destruct (rotate_poses_pointwise (L / 4) (p0 :: ps) R R_inv t H4 Hinv)
      as (out1 & E1 & L1 & S1 & _).
    destruct (axis_remap_pointwise (L / 4) out1 S1) as (out2 & E2 & L2 & S2 & _).
    rewrite E1. cbn [bind]. rewrite E2. cbn [bind].
    assert (S2' : Forall (fun r => length r = L) out2).
    { revert S2. apply Forall_impl. intros r Hr. rewrite Hr. symmetry. exact EL. }
    destruct (Nat.eq_dec (L mod 19) 0) as [E19|E19].
    + assert (Ed : drop_confidence out2
                   = inr (map (fun row => map (firstn 3) (chunks (L / 19) 19 row)) out2)).
      { unfold drop_confidence. apply for_each_map. intros row Hin.
        rewrite Forall_forall in S2'. unfold reshape_into.
        rewrite (S2' row Hin), E19. reflexivity. }
      rewrite Ed. cbn [bind]. split.
      * intros _. eexists. split; [|rewrite length_map, L2, L1; reflexivity].
        rewrite length_map, L2, L1. reflexivity.
      * intros Hn. exfalso. apply Hn. apply mod_76. split; assumption.
    + split.
      * intros H76. apply mod_76 in H76. destruct H76 as [_ H19]. contradiction.
      * intros _. destruct out2 as [|r0 rs]; [cbn [length] in L2, L1; lia|].
        unfold drop_confidence.
        rewrite (for_each_fails _ ValueError); [reflexivity|].
        unfold reshape_into. pose proof (Forall_inv S2') as Hr0.
        cbv beta in Hr0. rewrite Hr0.
        apply Nat.eqb_neq in E19. cbn [Nat.eqb]. rewrite E19. reflexivity.
  - split.
    + intros H76. apply mod_76 in H76. destruct H76 as [H4 _]. contradiction.
    + intros _. unfold rotate_poses. rewrite Hinv. cbn [bind].
      rewrite (for_each_fails _ ValueError); [reflexivity|].
      unfold rotate_pose, reshape_rows_of. cbn [Nat.eqb]. rewrite Hp0.
      apply Nat.eqb_neq in E4. rewrite E4. reflexivity.
Qed.

Lemma transform_pose_length_witness :
  [map inject_Z [1; 2; 3; 9; 4; 5; 6; 8]%Z] <> [] /\
  Forall (fun pose => length pose = 8%nat) [map inject_Z [1; 2; 3; 9; 4; 5; 6; 8]%Z] /\
  ~ (det3 mat3_id == 0)%Q /\
  transform mat3_id (0, 0, 0)%Q [(0, 1)] [map inject_Z [1; 2; 3; 9; 4; 5; 6; 8]%Z]
  = inl ValueError.
Proof.
  assert (H1 : [map inject_Z [1; 2; 3; 9; 4; 5; 6; 8]%Z] <> []) by discriminate.
  assert (H2 : Forall (fun pose => length pose = 8%nat)
                      [map inject_Z [1; 2; 3; 9; 4; 5; 6; 8]%Z]).
  { constructor; [reflexivity|constructor]. }
  assert (H3 : ~ (det3 mat3_id == 0)%Q).
  { intros E. vm_compute in E. discriminate E. }
  split; [exact H1|]. split; [exact H2|]. split; [exact H3|].
  apply (proj2 (transform_pose_length mat3_id (0, 0, 0)%Q [(0, 1)] 8 _ H1 H2 H3)).
  discriminate.
Defined.

(** * Further properties of the preprocessor and of the FPS read-out *)

(** ** Lines 132-144: the configured width against the width of the blob *)

(** X17: for a frame the preprocessor accepts, with fewer than 2^42 columns,
    the blob built from the frame is exactly as wide as the input shape
    configured from the same frame, or wider by exactly one stride; it is
    never narrower.  Line 134 truncates a double where [cv2.resize] rounds:
    a frame of 768 x 1343 and a frame of 784 x 784 both give a blob one
    stride wider than the configured width. *)
Theorem blob_width_vs_input_width (f : shape2) :
  0 < shape0 f -> 0 < shape1 f < 2 ^ 42 -> shape0 f < 512 * shape1 f ->
  exists w0 s,
    base_width f = inr w0 /\
    preprocess_shape f = inr s /\
    (shape1 s = w0 \/ shape1 s = w0 + STRIDE).
Proof.
  intros H0 [H1 H1'] H2.
  destruct (base_width_spec f H0 ltac:(lia)) as (w0 & Hw & Hmod & Hlo & Hhi).
  destruct (cv_resize_ok f H0 H1 H2) as (sc & Hsc & Hr & _).
  destruct (cvRound_bounds (naive_width f)) as [Rlo Rhi].
  set (r := cvRound (naive_width f)) in *.
  exists w0, (crop_to_stride (mkShape IMAGE_HEIGHT r)).
  split; [exact Hw|]. split; [unfold preprocess_shape; rewrite Hsc, Hr; reflexivity|].
  assert (B1 : w0 < r + 1).
  { apply inject_Z_lt_inv. rewrite inject_Z_succ. lra. }
  assert (B2 : r < w0 + 9).
  { apply inject_Z_lt_inv. rewrite inject_Z_plus.
    unfold STRIDE in Hhi. change (inject_Z 8) with 8%Q in Hhi.
    change (inject_Z 9) with 9%Q. lra. }
  cbn [crop_to_stride shape1]. unfold STRIDE in *.
  pose proof (Z.div_mod r 8 ltac:(lia)) as Er.
  pose proof (Z.mod_pos_bound r 8 ltac:(lia)) as Br.
  pose proof (Z.div_mod w0 8 ltac:(lia)) as Ew. rewrite Hmod in Ew.
  lia.
Qed.

Lemma blob_width_vs_input_width_witness :
  0 < shape0 (mkShape 784 784) /\ 0 < shape1 (mkShape 784 784) < 2 ^ 42 /\
  shape0 (mkShape 784 784) < 512 * shape1 (mkShape 784 784) /\
  base_width (mkShape 784 784) = inr 248 /\
  preprocess_shape (mkShape 784 784) = inr (mkShape 256 256) /\
  exists w0 s,
    base_width (mkShape 784 784) = inr w0 /\
    preprocess_shape (mkShape 784 784) = inr s /\
    (shape1 s = w0 \/ shape1 s = w0 + STRIDE).
Proof.
  split; [simpl; lia|]. split; [simpl; lia|]. split; [simpl; lia|].
  split; [vm_compute; reflexivity|]. split; [vm_compute; reflexivity|].
  apply (blob_width_vs_input_width (mkShape 784 784)); simpl; lia.
Defined.

(** ** Lines 143-144: frames narrower than the stride *)

(** X18: for a frame the preprocessor accepts, the blob is empty (width 0) exactly
    when the resized image has fewer columns than the stride; this is the
    case whenever the naive scaled width is below 7.5, and never when it is
    above 7.5. *)
Theorem narrow_frame_gives_empty_blob (f : shape2) :
  0 < shape0 f -> 0 < shape1 f -> shape0 f < 512 * shape1 f ->
  exists sc r s,
    input_scale f = inr sc /\ cv_resize f sc = inr r /\
    preprocess_shape f = inr s /\
    (shape1 s = 0 <-> shape1 r < STRIDE) /\
    ((naive_width f < 15 # 2)%Q -> shape1 s = 0) /\
    ((15 # 2 < naive_width f)%Q -> STRIDE <= shape1 s).
Proof.
  intros H0 H1 H2.
  destruct (cv_resize_ok f H0 H1 H2) as (sc & Hsc & Hr & Hpos).
  destruct (cvRound_bounds (naive_width f)) as [Rlo Rhi].
  set (r := cvRound (naive_width f)) in *.
  exists sc, (mkShape IMAGE_HEIGHT r), (crop_to_stride (mkShape IMAGE_HEIGHT r)).
  split; [exact Hsc|]. split; [exact Hr|].
  split; [unfold preprocess_shape; rewrite Hsc, Hr; reflexivity|].
  cbn [crop_to_stride shape1]. unfold STRIDE.
  pose proof (Z.div_mod r 8 ltac:(lia)) as Er.
  pose proof (Z.mod_pos_bound r 8 ltac:(lia)) as Br.
  split; [split; intros; lia|]. split.
  - intros Hn. assert (B : r < 8).
    { apply inject_Z_lt_inv. change (inject_Z 8) with 8%Q. lra. }
    lia.
  - intros Hn. assert (B : 7 < r).
    { apply inject_Z_lt_inv. change (inject_Z 7) with 7%Q. lra. }
    lia.
Qed.

Lemma narrow_frame_gives_empty_blob_witness :
  0 < shape0 (mkShape 256 5) /\ 0 < shape1 (mkShape 256 5) /\
  shape0 (mkShape 256 5) < 512 * shape1 (mkShape 256 5) /\
  (naive_width (mkShape 256 5) < 15 # 2)%Q /\
  exists s, preprocess_shape (mkShape 256 5) = inr s /\ shape1 s = 0.
Proof.
  assert (Hn : (naive_width (mkShape 256 5) < 15 # 2)%Q) by reflexivity.
  split; [simpl; lia|]. split; [simpl; lia|]. split; [simpl; lia|].
  split; [exact Hn|].
  destruct (narrow_frame_gives_empty_blob (mkShape 256 5))
    as (sc & r & s & _ & _ & Hs & _ & Hz & _); try (simpl; lia).
  exists s. split; [exact Hs|exact (Hz Hn)].
Defined.

(** ** Lines 133-141: frames the preprocessor rejects *)

Lemma cvRound_small (x : Q) : (0 <= x)%Q -> (x < 1 # 2)%Q -> cvRound x = 0.
Proof.
  intros H0 H1. destruct (cvRound_bounds x) as [Rlo Rhi].
  assert (B1 : -1 < cvRound x).
  { apply inject_Z_lt_inv. change (inject_Z (-1)) with (-1)%Q. lra. }
  assert (B2 : cvRound x < 1).
  { apply inject_Z_lt_inv. change (inject_Z 1) with 1%Q. lra. }
  lia.
Qed.

(** X19: which frames can be preprocessed.  Among the frames with non-negative
    dimensions: a frame without rows raises [ZeroDivisionError], at line 133
    as well as at line 138; a frame more than 512 times as tall as wide
    (a frame without columns included) raises the OpenCV error, its resized
    image being empty; a frame less than 512 times as tall as wide is
    accepted. *)
Theorem preprocess_domain (f : shape2) :
  0 <= shape0 f -> 0 <= shape1 f ->
  (shape0 f = 0 ->
   base_width f = inl ZeroDivisionError /\
   preprocess_shape f = inl ZeroDivisionError) /\
  (0 < shape0 f -> 512 * shape1 f < shape0 f ->
   preprocess_shape f = inl CvError) /\
  (0 < shape0 f -> shape0 f < 512 * shape1 f ->
   exists s, preprocess_shape f = inr s).
Proof.
  intros H0 H1. split; [|split].
  - intros E. unfold base_width, preprocess_shape, input_scale. rewrite E.
    split; reflexivity.
  - intros Hp Ht. unfold preprocess_shape, input_scale.
    destruct (shape0 f =? 0) eqn:E; [lia|].
    unfold cv_resize.
    replace (shape0 f <=? 0) with false by (symmetry; apply Z.leb_gt; lia).
    destruct (shape1 f <=? 0) eqn:E1; [reflexivity|]. apply Z.leb_gt in E1.
    cbn [orb].
    destruct (Qle_bool _ 0); [reflexivity|].
    assert (Hn : shape0 f <> 0) by lia.
    rewrite (cvRound_comp _ _ (scaled_width_naive f Hn)).
    rewrite (cvRound_small (naive_width f)); [reflexivity| |].
    + unfold naive_width. apply Qle_shift_div_l; [apply inject_Z_pos; exact Hp|].
      unfold IMAGE_HEIGHT, Qle, Qmult, inject_Z. cbn [Qnum Qden]. lia.
    + unfold naive_width. apply Qlt_shift_div_r; [apply inject_Z_pos; exact Hp|].
      unfold IMAGE_HEIGHT, Qlt, Qmult, inject_Z. cbn [Qnum Qden]. lia.
  - intros Hp Ht. assert (Hw : 0 < shape1 f) by lia.
    destruct (cv_resize_ok f Hp Hw Ht) as (sc & Hsc & Hr & _).
    eexists. unfold preprocess_shape. rewrite Hsc, Hr. reflexivity.
Qed.

Lemma preprocess_domain_witness :
  0 <= shape0 (mkShape 2000 3) /\ 0 <= shape1 (mkShape 2000 3) /\
  0 < shape0 (mkShape 2000 3) /\
  512 * shape1 (mkShape 2000 3) < shape0 (mkShape 2000 3) /\
  preprocess_shape (mkShape 2000 3) = inl CvError.
Proof.
  split; [simpl; lia|]. split; [simpl; lia|]. split; [simpl; lia|].
  split; [simpl; lia|].
  apply (preprocess_domain (mkShape 2000 3)); simpl; lia.
Defined.

(** ** Lines 149-152: the range of the normalised tensor *)

Lemma normalize_value (scaled_img : list (list (list Z))) (H W c y x : nat) :
  has_shape3 H W 3 scaled_img ->
  (c < 3)%nat -> (y < H)%nat -> (x < W)%nat ->
  length (nth x (nth y scaled_img []) []) = 3%nat /\
  nth x (nth y (nth c (nth 0 (normalize scaled_img) []) []) []) 0%Q
  = ((inject_Z (nth c (nth x (nth y scaled_img []) []) 0%Z) - inject_Z 128)
     / inject_Z 255)%Q.
Proof.
  intros [HH Hrows] Hc Hy Hx.
  assert (Hrow : length (nth y scaled_img []) = W /\
                 Forall (fun px => length px = 3%nat) (nth y scaled_img [])).
  { apply (Forall_nth_in
             (fun row => length row = W /\ Forall (fun px => length px = 3%nat) row)
             scaled_img y [] Hrows). lia. }
  destruct Hrow as [HW Hpx].
  assert (Hp : length (nth x (nth y scaled_img []) []) = 3%nat).
  { apply (Forall_nth_in (fun px => length px = 3%nat) _ x [] Hpx). lia. }
  split; [exact Hp|].
  unfold normalize, expand_dims_0, transpose_2_0_1. cbn [nth].
  rewrite (nth_seq_map _ (length img_mean) c) by exact Hc.
  unfold div_255, sub_mean, astype_float32.
  rewrite !map_map.
  rewrite (nth_map_in _ scaled_img y []) by lia.
  rewrite !map_map.
  rewrite (nth_map_in _ _ x []) by lia.
  apply normalize_pixel; assumption.
Qed.

(** X20: for an image of 8-bit samples, every exact quotient
    (sample - 128) / 255 of the normalised tensor lies between -128/255 and
    127/255.  The entries of the real tensor are the float32 roundings of
    these quotients, within 2^-24 of them: every value that close lies
    between -128/255 - 2^-24 and 127/255 + 2^-24, and 255 * value + 128 is
    within 2^-16 of the sample, which is therefore recovered by rounding to
    the nearest integer. *)
Theorem normalize_range (scaled_img : list (list (list Z))) (H W : nat) :
  has_shape3 H W 3 scaled_img ->
  Forall (Forall (Forall (fun v => 0 <= v <= 255))) scaled_img ->
  forall c y x : nat, (c < 3)%nat -> (y < H)%nat -> (x < W)%nat ->
    let v := nth x (nth y (nth c (nth 0 (normalize scaled_img) []) []) []) 0%Q in
    let p := nth c (nth x (nth y scaled_img []) []) 0%Z in
    forall v' : Q, (Qabs (v' - v) <= 1 # 2 ^ 24)%Q ->
      (- (128 # 255) - (1 # 2 ^ 24) <= v' <= (127 # 255) + (1 # 2 ^ 24))%Q /\
      (Qabs (v' * inject_Z 255 + inject_Z 128 - inject_Z p) <= 1 # 2 ^ 16)%Q.
Proof.
  intros Hs Hb c y x Hc Hy Hx v p v' Hv'.
  destruct (normalize_value scaled_img H W c y x Hs Hc Hy Hx) as [Hp Hv].
  subst v. rewrite Hv in Hv'. clear Hv.
  set (px := nth x (nth y scaled_img []) []) in *.
  assert (Hrange : 0 <= nth c px 0%Z <= 255).
  { destruct Hs as [HH Hrows].
    assert (Hrow : length (nth y scaled_img []) = W).
    { apply (Forall_nth_in
               (fun row => length row = W /\ Forall (fun px => length px = 3%nat) row)
               scaled_img y [] Hrows). lia. }
    pose proof (Forall_nth_in _ scaled_img y [] Hb ltac:(lia)) as Hy'.
    pose proof (Forall_nth_in _ _ x [] Hy' ltac:(lia)) as Hx'.
    apply (Forall_nth_in _ _ c 0%Z Hx'). fold px. lia. }
  subst p. set (p := nth c px 0%Z) in *.
  assert (Q0 : (0 <= inject_Z p)%Q) by (unfold Qle, inject_Z; cbn [Qnum Qden]; lia).
  assert (Q1 : (inject_Z p <= 255)%Q) by (unfold Qle, inject_Z; cbn [Qnum Qden]; lia).
  change (inject_Z 128) with 128%Q in *. change (inject_Z 255) with 255%Q in *.
  set (q := inject_Z p) in *. clearbody q.
  assert (E : ((q - 128) / 255 == (q - 128) * (1 # 255))%Q) by field.
  rewrite E in Hv'. clear E.
  apply Qabs_Qle_condition in Hv'. destruct Hv' as [V1 V2].
  change (1 # 2 ^ 24)%Q with (1 # 16777216)%Q in *.
  change (1 # 2 ^ 16)%Q with (1 # 65536)%Q.
  split; [split; lra|].
  apply Qabs_Qle_condition. split; lra.
Qed.

Lemma normalize_range_witness :
  let img := [[[0; 128; 255]; [1; 2; 3]]]%Z in
  let v := nth 0 (nth 0 (nth 0 (nth 0 (normalize img) []) []) []) 0%Q in
  let v' := (- (8421505 # 2 ^ 24))%Q in
  has_shape3 1 2 3 img /\
  Forall (Forall (Forall (fun v => 0 <= v <= 255))) img /\
  (Qabs (v' - v) <= 1 # 2 ^ 24)%Q /\
  (v' < - (128 # 255))%Q /\
  (- (128 # 255) - (1 # 2 ^ 24) <= v' <= (127 # 255) + (1 # 2 ^ 24))%Q /\
  (Qabs (v' * inject_Z 255 + inject_Z 128 - inject_Z 0) <= 1 # 2 ^ 16)%Q.
Proof.
  intros img v v'.
  assert (Hs : has_shape3 1 2 3 img).
  { split; [reflexivity|]. repeat constructor. }
  assert (Hb : Forall (Forall (Forall (fun v => 0 <= v <= 255))) img).
  { repeat constructor; lia. }
  assert (Hv : (Qabs (v' - v) <= 1 # 2 ^ 24)%Q) by (vm_compute; discriminate).
  split; [exact Hs|]. split; [exact Hb|]. split; [exact Hv|].
  split; [vm_compute; reflexivity|].
  apply (normalize_range img 1 2 Hs Hb 0%nat 0%nat 0%nat
           ltac:(lia) ltac:(lia) ltac:(lia) v' Hv).
Defined.

(** ** Line 211: the FPS read-out *)

Lemma eps64_two :
  (1 - (1 # 2 ^ 51) <= (1 - eps64) * (1 - eps64) /\
   (1 + eps64) * (1 + eps64) <= 1 + (1 # 2 ^ 51))%Q.
Proof. split; vm_compute; discriminate. Qed.

(** X21: for a smoothed time in the range of the normal doubles, the number
    drawn after 'FPS: ' is a non-negative multiple of one tenth: the rate
    1 / mean_time truncated to one decimal, up to the rounding of the
    quotient and of the product to doubles, which moves the truncated value
    by a relative 2^-51 at most.  The rounding can carry the read-out above
    the rate: the double nearest to 0.1 gives 10.0 though its rate is below
    10.  For a smoothed time of zero the division raises. *)
Theorem fps_text_truncates (mean_time : Q) :
  ((1 # 2 ^ 1000 <= mean_time <= inject_Z (2 ^ 1000))%Q ->
   exists n : Z,
     fps_text mean_time = inr (inject_Z n / inject_Z 10)%Q /\
     0 <= n /\
     (inject_Z n / inject_Z 10 <= 1 / mean_time * (1 + (1 # 2 ^ 51)))%Q /\
     (1 / mean_time * (1 - (1 # 2 ^ 51)) < inject_Z n / inject_Z 10 + (1 # 10))%Q) /\
  ((mean_time == 0)%Q -> fps_text mean_time = inl ZeroDivisionError).
Proof.
  split.
  - intros [Hlo _].
    assert (Hm : (0 < mean_time)%Q).
    { apply Qlt_le_trans with (1 # 2 ^ 1000)%Q; [reflexivity|exact Hlo]. }
    unfold fps_text.
    destruct (Qeq_bool mean_time 0) eqn:E.
    { apply Qeq_bool_iff in E. rewrite E in Hm. exfalso. revert Hm. apply Qlt_irrefl. }
    assert (Hu : (0 < 1 / mean_time)%Q).
    { apply Qlt_shift_div_l; [exact Hm|]. lra. }
    set (u := (1 / mean_time)%Q) in *. clearbody u.
    cbv zeta. change (inject_Z 10) with 10%Q.
    assert (E1 : (0 <= 1 - eps64)%Q) by (unfold eps64; discriminate).
    pose proof (fl64_bounds u ltac:(lra)) as [B1 B2].
    assert (Bp : (u * 10 * (1 - eps64) <= fl64 u * 10 <= u * 10 * (1 + eps64))%Q)
      by (split; lra).
    pose proof (near_fl64 (u * 10) _ _ _ ltac:(lra) E1 Bp) as [C1 C2].
    set (y := fl64 (fl64 u * 10)) in *. clearbody y.
    destruct eps64_two as [F1 F2].
    assert (D1 : (u * 10 * (1 - (1 # 2 ^ 51)) <= y)%Q).
    { eapply Qle_trans; [|exact C1].
      rewrite !(Qmult_comm (u * 10)). apply Qmult_le_compat_r; [exact F1|lra]. }
    assert (D2 : (y <= u * 10 * (1 + (1 # 2 ^ 51)))%Q).
    { eapply Qle_trans; [exact C2|].
      rewrite !(Qmult_comm (u * 10)). apply Qmult_le_compat_r; [exact F2|lra]. }
    assert (Hy : (0 <= y)%Q).
    { assert (0 <= u * 10 * (1 - (1 # 2 ^ 51)))%Q
        by (apply Qmult_le_0_compat; [lra|discriminate]).
      lra. }
    exists (py_int y). split; [reflexivity|].
    rewrite (py_int_nonneg _ Hy).
    destruct (Qfloor_bounds y) as [Fl Fu].
    set (n := inject_Z (Qfloor y)) in *.
    assert (D : (n / 10 == n * (1 # 10))%Q) by field.
    split.
    + apply inject_Z_le_inv. change (inject_Z 0) with 0%Q. fold n.
      assert (B : (-1 < n)%Q) by lra.
      assert (B' : -1 < Qfloor y).
      { apply inject_Z_lt_inv. change (inject_Z (-1)) with (-1)%Q. exact B. }
      unfold n, Qle, inject_Z. cbn [Qnum Qden]. lia.
    + rewrite D. change (1 # 2 ^ 51)%Q with (1 # 2251799813685248)%Q in *.
      split; lra.
  - intros E. unfold fps_text. apply Qeq_bool_iff in E. rewrite E. reflexivity.
Qed.

(** The double nearest to 0.1: its rate is below 10, the read-out is 10.0. *)
Lemma fps_text_truncates_witness :
  let m := (3602879701896397 # 2 ^ 55)%Q in
  (1 # 2 ^ 1000 <= m <= inject_Z (2 ^ 1000))%Q /\
  fps_text m = inr (inject_Z 100 / inject_Z 10)%Q /\
  (1 / m < inject_Z 100 / inject_Z 10)%Q /\
  exists n : Z,
    fps_text m = inr (inject_Z n / inject_Z 10)%Q /\
    (inject_Z n / inject_Z 10 <= 1 / m * (1 + (1 # 2 ^ 51)))%Q /\
    (1 / m * (1 - (1 # 2 ^ 51)) < inject_Z n / inject_Z 10 + (1 # 10))%Q.
Proof.
  intros m.
  assert (H : (1 # 2 ^ 1000 <= m <= inject_Z (2 ^ 1000))%Q).
  { split; vm_compute; discriminate. }
  split; [exact H|].
  split; [vm_compute; reflexivity|].
  split; [vm_compute; reflexivity|].
  destruct (proj1 (fps_text_truncates m) H) as (n & E & _ & Hl & Hu).
  exists n. split; [exact E|]. split; [exact Hl|exact Hu].
Defined.

(** ** Concrete runs of the loop *)

(** Three good frames and the keys 'p', 'a', escape: the run ends on the
    escape key. *)
Lemma escape_ends_the_run_witness :
  let it := mkIteration (Some (mkShape 256 448)) [] (1 # 10) in
  let r := main mat3_id (0, 0, 0)%Q true false [(0, 1); (1, 2)]
                (fun _ _ => false) [it; it; it] [p_code; 97; esc_code] in
  snd r = EscPressed /\
  exists d, ends_with (trace (fst r)) (WaitKey d esc_code).
Proof.
  intros it r.
  assert (H : snd r = EscPressed) by reflexivity.
  split; [exact H|].
  exact (escape_ends_the_run mat3_id (0, 0, 0)%Q true false [(0, 1); (1, 2)]
           (fun _ _ => false) [it; it; it] [p_code; 97; esc_code] H).
Defined.

(** A good frame followed by an empty one: the run ends with the stream. *)
Lemma stream_ends_the_run_witness :
  let its := [mkIteration (Some (mkShape 256 448)) [] (1 # 10);
              mkIteration None [] 0%Q] in
  let r := main mat3_id (0, 0, 0)%Q true false [(0, 1); (1, 2)]
                (fun _ _ => false) its [-1] in
  snd r = EndOfStream /\
  exists i it,
    length (fst r) = S i /\ nth_error its i = Some it /\ frame it = None /\
    ends_with (trace (fst r)) (Fetch i).
Proof.
  intros its r.
  assert (H : snd r = EndOfStream) by reflexivity.
  split; [exact H|].
  exact (proj1 (stream_ends_the_run mat3_id (0, 0, 0)%Q true false
                  [(0, 1); (1, 2)] (fun _ _ => false) its [-1]) H).
Defined.

(** One person in a paused video with the rotate option: the scene is
    plotted once by the main path and twice by the re-render loop. *)
Lemma plots_show_the_scene_of_the_frame_witness :
  let its := [mkIteration (Some (mkShape 256 448))
                          [map (fun i => inject_Z (Z.of_nat i)) (seq 0 76)]
                          (1 # 10)] in
  let h := fst (main mat3_id (0, 0, 0)%Q true true [(0, 1); (1, 2)]
                     (fun _ _ => false) its [p_code; 97; space_code]) in
  let e := hd (initial_state, []) h in
  nth_error h 0 = Some (fst e, snd e) /\
  length (plots (snd e)) = 3%nat /\
  exists it, nth_error its 0 = Some it /\
    forall scene, In scene (plots (snd e)) ->
      transform mat3_id (0, 0, 0)%Q [(0, 1); (1, 2)] (decoded it) = inr scene.
Proof.
  intros its h e.
  assert (H : nth_error h 0 = Some (fst e, snd e)) by (vm_compute; reflexivity).
  split; [exact H|]. split; [vm_compute; reflexivity|].
  exact (plots_show_the_scene_of_the_frame mat3_id (0, 0, 0)%Q true true
           [(0, 1); (1, 2)] (fun _ _ => false) its [p_code; 97; space_code]
           0%nat (fst e) (snd e) H).
Defined.

(** A single image: the frame is sent to the engine five times. *)
Lemma frames_sent_to_the_engine_witness :
  let its := [mkIteration (Some (mkShape 256 448)) [] (1 # 10)] in
  let h := fst (main mat3_id (0, 0, 0)%Q false false [(0, 1); (1, 2)]
                     (fun _ _ => false) its [-1]) in
  let e := hd (initial_state, []) h in
  nth_error h 0 = Some (fst e, snd e) /\
  blob_shapes (snd e) = repeat (1, 3, 256, 448) 5.
Proof.
  intros its h e.
  assert (H : nth_error h 0 = Some (fst e, snd e)) by (vm_compute; reflexivity).
  split; [exact H|].
  destruct (frames_sent_to_the_engine mat3_id (0, 0, 0)%Q false false
              [(0, 1); (1, 2)] (fun _ _ => false) its [-1]
              0%nat (fst e) (snd e) H) as (it & Hit & Hb).
  injection Hit as <-. exact Hb.
Defined.

(** A good frame followed by a frame without rows: the second iteration
    raises [ZeroDivisionError] and ends the run. *)
Lemma preprocess_failure_ends_the_run_witness :
  let it1 := mkIteration (Some (mkShape 0 448)) [] (1 # 10) in
  let its := [mkIteration (Some (mkShape 256 448)) [] (1 # 10); it1] in
  let r := main mat3_id (0, 0, 0)%Q true false [(0, 1); (1, 2)]
                (fun _ _ => false) its [-1; -1] in
  let e := nth 1 (fst r) (initial_state, []) in
  nth_error (fst r) 1 = Some (fst e, snd e) /\
  nth_error its 1 = Some it1 /\
  frame it1 = Some (mkShape 0 448) /\
  preprocess_shape (mkShape 0 448) = inl ZeroDivisionError /\
  snd r = Raised ZeroDivisionError /\ length (fst r) = 2%nat /\
  blob_shapes (snd e) = [] /\ waits (snd e) = [].
Proof.
  intros it1 its r e.
  assert (H : nth_error (fst r) 1 = Some (fst e, snd e)) by (vm_compute; reflexivity).
  assert (Hp : preprocess_shape (mkShape 0 448) = inl ZeroDivisionError)
    by reflexivity.
  split; [exact H|]. split; [reflexivity|]. split; [reflexivity|].
  split; [exact Hp|].
  destruct (preprocess_failure_ends_the_run mat3_id (0, 0, 0)%Q true false
              [(0, 1); (1, 2)] (fun _ _ => false) its [-1; -1] 1%nat
              (fst e) (snd e) it1 (mkShape 0 448) ZeroDivisionError
              H eq_refl eq_refl Hp) as (A & B & C & _ & _ & D).
  split; [exact A|]. split; [exact B|]. split; [exact C|exact D].
Defined.

(** A first frame of 784 x 784: the double of the scaled width is
    255.99999999999997 and the engine is configured with width 248, right
    after the fetch. *)
Lemma engine_configured_first_witness :
  let it0 := mkIteration (Some (mkShape 784 784)) [] (1 # 10) in
  let h := fst (main mat3_id (0, 0, 0)%Q true false [(0, 1); (1, 2)]
                     (fun _ _ => false) [it0; it0] [-1; -1]) in
  frame it0 = Some (mkShape 784 784) /\
  shape0 (mkShape 784 784) <> 0 /\
  base_width (mkShape 784 784) = inr 248 /\
  exists tl, trace h = Fetch 0 :: SetInputShape (1, 3, IMAGE_HEIGHT, 248) :: tl.
Proof.
  intros it0 h.
  assert (H0 : shape0 (mkShape 784 784) <> 0) by (simpl; lia).
  assert (E : base_width (mkShape 784 784) = inr 248) by (vm_compute; reflexivity).
  split; [reflexivity|]. split; [exact H0|]. split; [exact E|].
  destruct (engine_configured_first mat3_id (0, 0, 0)%Q true false
              [(0, 1); (1, 2)] (fun _ _ => false) it0 [it0] [-1; -1]
              (mkShape 784 784) eq_refl H0) as (w0 & tl & Hw & Ht).
  rewrite E in Hw. injection Hw as <-. exists tl. exact Ht.
Defined.

(** Measured times of 1/10 and 3/10 of a second: both smoothed times lie
    between them. *)
Lemma mean_time_within_samples_witness :
  let its := [mkIteration (Some (mkShape 256 448)) [] (1 # 10);
              mkIteration (Some (mkShape 256 448)) [] (3 # 10)] in
  let vals := mean_times (trace (fst (main mat3_id (0, 0, 0)%Q true false
                                           [(0, 1); (1, 2)] (fun _ _ => false)
                                           its [-1; -1]))) in
  (0 <= 1 # 10)%Q /\
  Forall (fun it => ((1 # 10) <= elapsed it <= (3 # 10))%Q) its /\
  length vals = 2%nat /\
  Forall (fun v => ((1 # 10) * (1 - (1 # 2 ^ 40)) <= v
                    <= (3 # 10) * (1 + (1 # 2 ^ 40)))%Q) vals.
Proof.
  intros its vals.
  assert (H0 : (0 <= 1 # 10)%Q) by discriminate.
  assert (H : Forall (fun it => ((1 # 10) <= elapsed it <= (3 # 10))%Q) its).
  { repeat constructor; unfold Qle; simpl; lia. }
  split; [exact H0|]. split; [exact H|]. split; [reflexivity|].
  exact (mean_time_within_samples mat3_id (0, 0, 0)%Q true false [(0, 1); (1, 2)]
           (fun _ _ => false) its [-1; -1] (1 # 10) (3 # 10) H0 H).
Defined.

(** A first frame whose measured time is zero. *)
Lemma zero_time_on_first_frame_witness :
  let it0 := mkIteration (Some (mkShape 256 448)) [] 0%Q in
  let r := main mat3_id (0, 0, 0)%Q true false [(0, 1); (1, 2)]
                (fun _ _ => false) [it0; it0] [-1; -1] in
  frame it0 = Some (mkShape 256 448) /\
  transform mat3_id (0, 0, 0)%Q [(0, 1); (1, 2)] (decoded it0)
  = inr (Decoded [], []) /\
  (elapsed it0 == 0)%Q /\
  snd r = Raised ZeroDivisionError /\
  length (fst r) = 1%nat /\
  plots (trace (fst r)) = [(Decoded [], [])] /\
  mean_times (trace (fst r)) = [] /\
  waits (trace (fst r)) = [].
Proof.
  intros it0 r.
  assert (Hz : (elapsed it0 == 0)%Q) by reflexivity.
  split; [reflexivity|]. split; [reflexivity|]. split; [exact Hz|].
  apply (zero_time_on_first_frame mat3_id (0, 0, 0)%Q true false [(0, 1); (1, 2)]
           (fun _ _ => false) it0 [it0] [-1; -1] (mkShape 256 448)
           (Decoded [], []) eq_refl);
    first [reflexivity | exact Hz | simpl; lia].
Defined.
